(** * ai-rules: a shallow embedding of the orchestration core

    The TypeScript services of the rule management system are embedded as
    Rocq functions:
    - [RuleVersionManager]: archive, deploy, history, rollback and cleanup
      of rule files on disk, version information and version listing;
    - [Binary64] and [TrendAnalyzer]: the arithmetic of JavaScript
      numbers, the update-priority score, the analysis of a technology
      with its cache, and the security advisories;
    - [NotificationService] and [NotificationBroadcast]: the per-client
      subscription sets, broadcasts and the heartbeat;
    - [SchedulerService] and [ScheduledTasks]: the cron callback wrapped
      around every task, and the task functions;
    - [QueueService] and [RuleUpdateQueue]: the job processors, and
      [Lanes]: the three queues with their workers.

    Conventions of the embedding.
    - JavaScript strings are [string]; a character is one code unit.
    - A [Date] is kept with both its millisecond value and its ISO text.
    - [number]s that only ever hold counts are [nat] or [Z]. The numbers
      of the trend analysis are the rationals [Q] that binary64 numbers
      denote: every arithmetic operation rounds its exact result to the
      nearest binary64 number, ties to even ([Binary64.round]), and a
      decimal literal inside an arithmetic expression is the binary64
      number nearest to it. Infinities and NaN are left out: a quotient
      too large for binary64 is kept, and [Math.min(_, 1)] caps both in
      the same way. Comparisons are exact; a decimal literal that a number
      is compared with is taken as written.
    - Asynchronous methods run to completion; what they do to the disk and
      to the logger is recorded, in order, in a journal of effects.
    - Every [new Date()] a method reads during one call is the [now] it is
      given; durations are not logged.
    - A [writeFile] is one step: it leaves the whole file, or the disk
      refuses it, the promise rejects and the file is as it was. A
      [readFile] may be refused in the same way; [stat] and [readdir] fail
      only on what is missing. Collaborators outside the repository (the
      generator, the analyzers, the notification transport) are given by
      what their calls answer. *)

From Stdlib Require Import Ascii String ZArith QArith Qpower Qabs Qminmax Qround Lia Lqa
  HexadecimalString Sorted.
From stdpp Require Import gmap strings list fin_maps pretty.

Local Close Scope Q_scope.
Local Open Scope string_scope.
Local Open Scope list_scope.

(** ** JavaScript string helpers *)

Module Js.

(** [s.startsWith(p)] *)
Definition startsWith (s p : string) : bool := String.prefix p s.

(** [s.endsWith(p)] *)
Definition endsWith (s p : string) : bool :=
  let n := String.length s in
  let k := String.length p in
  if Nat.leb k n then String.eqb (String.substring (n - k) k s) p else false.

(** [s.replace(/[:.]/g, '-')] *)
Fixpoint replaceColonDot (s : string) : string :=
  match s with
  | EmptyString => EmptyString
  | String c r =>
      let c' := if orb (Ascii.eqb c ":") (Ascii.eqb c ".") then "-"%char else c in
      String c' (replaceColonDot r)
  end.

(** [s.split('T')[0]] *)
Fixpoint beforeT (s : string) : string :=
  match s with
  | EmptyString => EmptyString
  | String c r => if Ascii.eqb c "T" then EmptyString else String c (beforeT r)
  end.

(** [s.charCodeAt(i)] for every [i], in order. *)
Fixpoint charCodes (s : string) : list Z :=
  match s with
  | EmptyString => []
  | String c r => Z.of_nat (Ascii.nat_of_ascii c) :: charCodes r
  end.

(** ToInt32: the value every bitwise operator of JavaScript works on. *)
Definition toInt32 (z : Z) : Z := ((z + 2 ^ 31) `mod` 2 ^ 32 - 2 ^ 31)%Z.

(** [x << n] *)
Definition shl (x : Z) (n : Z) : Z := toInt32 (Z.shiftl (toInt32 x) n).

(** [x & y] *)
Definition band (x y : Z) : Z := toInt32 (Z.land (toInt32 x) (toInt32 y)).

(** [n.toString(16)] for an integer [n]. *)
Definition toString16 (n : Z) : string :=
  HexadecimalString.NilZero.string_of_int (Z.to_hex_int n).

(** The line feed inside template literals. *)
Definition nl : string := String (Ascii.ascii_of_nat 10) EmptyString.

(** [s.includes(p)] *)
Fixpoint includes (s p : string) : bool :=
  String.prefix p s
  || match s with
     | EmptyString => false
     | String _ r => includes r p
     end.

(** [s.replace(p, '')] with a string pattern: the first occurrence of [p]
    is removed. *)
Fixpoint removeFirst (p s : string) : string :=
  if String.prefix p s
  then String.substring (String.length p) (String.length s - String.length p) s
  else match s with
       | EmptyString => EmptyString
       | String c r => String c (removeFirst p r)
       end.

(** [s.split('-')] *)
Fixpoint splitDash (s : string) : list string :=
  match s with
  | EmptyString => [EmptyString]
  | String c r =>
      if Ascii.eqb c "-" then EmptyString :: splitDash r
      else match splitDash r with
           | seg :: segs => String c seg :: segs
           | [] => [String c EmptyString]
           end
  end.

(** [[...new Set(l)]]: the first occurrence of every element, in order. *)
Fixpoint uniqueFrom (seen l : list string) : list string :=
  match l with
  | [] => []
  | x :: r => if bool_decide (x ∈ seen) then uniqueFrom seen r
              else x :: uniqueFrom (x :: seen) r
  end.

Definition unique (l : list string) : list string := uniqueFrom [] l.

(** One code unit of [s.toLowerCase()], for code units below 256. *)
Definition lowerCode (n : nat) : nat :=
  if (Nat.leb 65 n && Nat.leb n 90)
     || (Nat.leb 192 n && Nat.leb n 222 && negb (Nat.eqb n 215))
  then n + 32 else n.

(** [s.toLowerCase()] *)
Fixpoint toLowerCase (s : string) : string :=
  match s with
  | EmptyString => EmptyString
  | String c r =>
      String (Ascii.ascii_of_nat (lowerCode (Ascii.nat_of_ascii c))) (toLowerCase r)
  end.

End Js.

(** ** The world the services act on *)

(** A [Date] object: [getTime()] and [toISOString()]. *)
Record Date := { getTime : Z; toISOString : string }.

Inductive Level := LDebug | LInfo | LWarn | LError.

(** The three directories of [config.project]. *)
Inductive Dir := RuleBasePath | ArchivePath | MetadataPath.

(** [RuleHistoryEntry] of types/services.ts. *)
Record RuleHistoryEntry := {
  version : string;
  date : Date;
  author : string;
  changes : list string;
  filePath : string;
}.

(** The object [updateDeploymentMetadata] serialises. *)
Record DeploymentInfo := {
  ruleType : string;
  currentVersion : string;
  lastDeployment : Date;
  contentLength : nat;
  checksum : string;
  deployedBy : string;
  deploymentCount : nat;
}.

(** A JSON file of the metadata directory, by what it parses to. *)
Inductive MetaFile :=
| HistoryJson (h : list RuleHistoryEntry)
| DeploymentJson (d : DeploymentInfo).

(** A file of the archive directory with the [mtime] that [stat] reports. *)
Record ArchiveFile := { content : string; mtime : Date }.

(** A [writeFile(path, data)]. *)
Inductive Write :=
| WriteRule (name data : string)
| WriteArchive (name : string) (file : ArchiveFile)
| WriteMeta (name : string) (file : MetaFile).

(** What a promise rejects with. *)
Inductive Exn :=
| ENOENT (d : Dir) (name : string)
| JsError (message : string).

(** An access to one file that the operating system may refuse: a
    [readFile] or a [writeFile]. *)
Inductive Access :=
| Reading (d : Dir) (name : string)
| Writing (wr : Write).

(** The disk: one finite map from file names to files per directory, and
    the accesses it refuses (no permission, no space left, a device
    error), each with the error the promise of [fs/promises] rejects
    with. *)
Record Disk := {
  ruleBase : gmap string string;
  archive : gmap string ArchiveFile;
  metadata : gmap string MetaFile;
  refuses : Access → option Exn;
}.

(** What a method does that the outside can see, in order. *)
Inductive Effect :=
| Logged (l : Level) (msg : string)
| Stat (d : Dir) (name : string)
| ReadFile (d : Dir) (name : string)
| Readdir (d : Dir)
| Wrote (wr : Write)
| Renamed (d : Dir) (from to : string)
| Called (collaborator : string) (argument : string)
| Progress (percent : nat).

Record World := {
  disk : Disk;
  journal : list Effect;
}.

Definition applyWrite (wr : Write) (d : Disk) : Disk :=
  match wr with
  | WriteRule name data =>
      {| ruleBase := <[name := data]> (ruleBase d);
         archive := archive d; metadata := metadata d; refuses := refuses d |}
  | WriteArchive name file =>
      {| ruleBase := ruleBase d;
         archive := <[name := file]> (archive d); metadata := metadata d;
         refuses := refuses d |}
  | WriteMeta name file =>
      {| ruleBase := ruleBase d; archive := archive d;
         metadata := <[name := file]> (metadata d); refuses := refuses d |}
  end.

(** [rename(from, to)] inside one directory: [to] is replaced in one step. *)
Definition move {V} (from to : string) (m : gmap string V) : gmap string V :=
  match m !! from with
  | Some f => <[to := f]> (delete from m)
  | None => m
  end.

Definition applyRename (d : Dir) (from to : string) (k : Disk) : Disk :=
  match d with
  | RuleBasePath =>
      {| ruleBase := move from to (ruleBase k);
         archive := archive k; metadata := metadata k; refuses := refuses k |}
  | ArchivePath =>
      {| ruleBase := ruleBase k;
         archive := move from to (archive k); metadata := metadata k;
         refuses := refuses k |}
  | MetadataPath =>
      {| ruleBase := ruleBase k; archive := archive k;
         metadata := move from to (metadata k); refuses := refuses k |}
  end.

(** What one effect does to the disk. *)
Definition applyEffect (d : Disk) (e : Effect) : Disk :=
  match e with
  | Wrote wr => applyWrite wr d
  | Renamed dir from to => applyRename dir from to d
  | _ => d
  end.

(** The disk after a sequence of effects. *)
Definition replay (j : list Effect) (d : Disk) : Disk := fold_left applyEffect j d.

Inductive Outcome (A : Type) :=
| Returned (a : A)
| Thrown (e : Exn).
Arguments Returned {A} a.
Arguments Thrown {A} e.

(** A computation of a service: it returns or throws, and leaves a world. *)
Definition IO (A : Type) : Type := World → Outcome A * World.

Definition ret {A} (a : A) : IO A := λ w, (Returned a, w).

Definition bind {A B} (m : IO A) (k : A → IO B) : IO B :=
  λ w, match m w with
       | (Returned a, w') => k a w'
       | (Thrown e, w') => (Thrown e, w')
       end.

Definition throw {A} (e : Exn) : IO A := λ w, (Thrown e, w).

(** [try { body } catch (error) { handler }] *)
Definition tryCatch {A} (body : IO A) (handler : Exn → IO A) : IO A :=
  λ w, match body w with
       | (Returned a, w') => (Returned a, w')
       | (Thrown e, w') => handler e w'
       end.

Declare Scope io_scope.
Delimit Scope io_scope with io.
Bind Scope io_scope with IO.
Notation "'let!' x ':=' m 'in' k" := (bind m (λ x, k))
  (at level 10, x pattern, m at level 100, k at level 200) : io_scope.
Notation "m '>>' k" := (bind m (λ _, k))
  (at level 100, k at level 200, right associativity) : io_scope.
Local Open Scope io_scope.

(** An effect that leaves the disk as it is. *)
Definition emit (e : Effect) : IO unit :=
  λ w, (Returned (), {| disk := disk w; journal := (journal w ++ [e])%list |}).

(** A look at the disk. *)
Definition inspect {A} (f : Disk → Outcome A) : IO A := λ w, (f (disk w), w).

Definition log (l : Level) (msg : string) : IO unit := emit (Logged l msg).

(** *** fs/promises *)

Module Fs.

Definition lookupOr {V A} (m : gmap string V) (d : Dir) (name : string)
    (f : V → A) : Outcome A :=
  match m !! name with
  | Some v => Returned (f v)
  | None => Thrown (ENOENT d name)
  end.

Definition statRule (name : string) : IO unit :=
  emit (Stat RuleBasePath name) >>
  inspect (λ d, lookupOr (ruleBase d) RuleBasePath name (λ _, ())).

Definition statArchive (name : string) : IO Date :=
  emit (Stat ArchivePath name) >>
  inspect (λ d, lookupOr (archive d) ArchivePath name mtime).

(** [readFile]: the disk refuses the access, or the file is missing, or
    its content is given. *)
Definition readOr {V A} (m : Disk → gmap string V) (dir : Dir) (name : string)
    (f : V → A) : IO A :=
  emit (ReadFile dir name) >>
  inspect (λ d, match refuses d (Reading dir name) with
                | Some e => Thrown e
                | None => lookupOr (m d) dir name f
                end).

Definition readRule (name : string) : IO string := readOr ruleBase RuleBasePath name id.

Definition readArchive (name : string) : IO string :=
  readOr archive ArchivePath name content.

Definition readMeta (name : string) : IO MetaFile :=
  readOr metadata MetadataPath name id.

Definition readdirArchive : IO (list string) :=
  emit (Readdir ArchivePath) >>
  inspect (λ d, Returned ((map_to_list (archive d)).*1)).

(** [writeFile]: when the disk refuses the access the promise rejects and
    the file is as it was; otherwise the file holds the whole of [data]
    when it returns. *)
Definition writeFile (wr : Write) : IO unit :=
  λ w, match refuses (disk w) (Writing wr) with
       | Some e => (Thrown e, w)
       | None =>
           (Returned (),
            {| disk := applyWrite wr (disk w);
               journal := (journal w ++ [Wrote wr])%list |})
       end.

Definition writeRule (name data : string) : IO unit :=
  writeFile (WriteRule name data).

Definition writeArchive (name data : string) (now : Date) : IO unit :=
  writeFile (WriteArchive name {| content := data; mtime := now |}).

Definition writeMeta (name : string) (data : MetaFile) : IO unit :=
  writeFile (WriteMeta name data).

Definition exists_ (d : Dir) (name : string) (k : Disk) : bool :=
  match d with
  | RuleBasePath => bool_decide (is_Some (ruleBase k !! name))
  | ArchivePath => bool_decide (is_Some (archive k !! name))
  | MetadataPath => bool_decide (is_Some (metadata k !! name))
  end.

(** [rename]: imported by RuleVersionManager, called by none of its methods. *)
Definition rename (d : Dir) (from to : string) : IO unit :=
  λ w, if exists_ d from (disk w)
       then (Returned (),
             {| disk := applyRename d from to (disk w);
                journal := (journal w ++ [Renamed d from to])%list |})
       else (Thrown (ENOENT d from), w).

End Fs.

(** [logPerformance(operation, duration, meta)] of utils/logger.ts; the
    measured duration is left out of the message. *)
Definition logPerformance (operation : string) : IO unit :=
  log LInfo ("Performance: " +:+ operation).

(** ** RuleVersionManager *)

Module RuleVersionManager.

(** [getRuleFilePath]: the file name below [config.project.ruleBasePath]. *)
Definition getRuleFilePath (ruleType : string) : string :=
  if Js.endsWith ruleType ".md" then ruleType else ruleType +:+ ".md".

Definition historyPath (ruleType : string) : string := ruleType +:+ "-history.json".
Definition deploymentPath (ruleType : string) : string := ruleType +:+ "-deployment.json".

Definition addVersionHeader (content version ruleType : string) (now : Date) : string :=
  let header :=
    "<!-- Rule Version: " +:+ version +:+ " -->" +:+ Js.nl +:+
    "<!-- Generated: " +:+ toISOString now +:+ " -->" +:+ Js.nl +:+
    "<!-- Type: " +:+ ruleType +:+ " -->" +:+ Js.nl +:+
    "<!-- AI Rules Management System -->" +:+ Js.nl +:+ Js.nl in
  header +:+ content.

(** One turn of the loop of [calculateChecksum]. *)
Definition checksumStep (checksum code : Z) : Z :=
  Js.band (Js.shl checksum 5 - checksum + code) 4294967295.

Definition calculateChecksum (content : string) : string :=
  Js.toString16 (fold_left checksumStep (Js.charCodes content) 0%Z).

Record ArchiveMetadata := {
  md_version : string;
  md_archivedAt : Date;
  md_archiveFile : string;
  md_reason : string;
}.

(** The last 50 entries: [history.slice(-50)]. *)
Definition sliceLast50 (history : list RuleHistoryEntry) : list RuleHistoryEntry :=
  drop (length history - 50) history.

Definition updateRuleMetadata (ruleType : string) (md : ArchiveMetadata) : IO unit :=
  tryCatch
    (let! parsed := tryCatch (Fs.readMeta (historyPath ruleType))
                             (λ _, ret (HistoryJson [])) in
     match parsed with
     | HistoryJson history =>
         let newEntry :=
           {| version := md_version md;
              date := md_archivedAt md;
              author := "AI Rules Management System";
              changes := ["Archived rule with reason: " +:+ md_reason md];
              filePath := md_archiveFile md |} in
         let history := (history ++ [newEntry])%list in
         let history := if decide (50 < length history) then sliceLast50 history
                        else history in
         Fs.writeMeta (historyPath ruleType) (HistoryJson history) >>
         log LDebug ("Updated rule metadata for " +:+ ruleType)
     | DeploymentJson _ => throw (JsError "history.push is not a function")
     end)
    (λ _, log LError ("Failed to update rule metadata for " +:+ ruleType)).

Definition getDeploymentCount (ruleType : string) : IO nat :=
  tryCatch
    (let! parsed := Fs.readMeta (deploymentPath ruleType) in
     match parsed with
     | DeploymentJson info => ret (deploymentCount info)
     | HistoryJson _ => ret 0
     end)
    (λ _, ret 0).

Record DeploymentMetadata := {
  dm_version : string;
  dm_deployedAt : Date;
  dm_contentLength : nat;
  dm_checksum : string;
}.

Definition updateDeploymentMetadata (ruleType : string) (md : DeploymentMetadata) : IO unit :=
  tryCatch
    (let! count := getDeploymentCount ruleType in
     let deploymentInfo :=
       {| ruleType := ruleType;
          currentVersion := dm_version md;
          lastDeployment := dm_deployedAt md;
          contentLength := dm_contentLength md;
          checksum := dm_checksum md;
          deployedBy := "AI Rules Management System";
          deploymentCount := count + 1 |} in
     Fs.writeMeta (deploymentPath ruleType) (DeploymentJson deploymentInfo) >>
     log LDebug ("Updated deployment metadata for " +:+ ruleType))
    (λ _, log LError ("Failed to update deployment metadata for " +:+ ruleType)).

Definition archiveFileName (ruleType version : string) (now : Date) : string :=
  ruleType +:+ "-" +:+ version +:+ "-" +:+ Js.replaceColonDot (toISOString now) +:+ ".md".

Definition archiveCurrentRule (ruleType version : string) (now : Date) : IO unit :=
  log LInfo ("Archiving current rule: " +:+ ruleType +:+ " to version " +:+ version) >>
  tryCatch
    (let currentRulePath := getRuleFilePath ruleType in
     let! found := tryCatch (Fs.statRule currentRulePath >> ret true)
                            (λ _, log LWarn ("No current rule found for " +:+ ruleType
                                             +:+ ", skipping archive") >> ret false) in
     if found : bool then
       let archiveFileName := archiveFileName ruleType version now in
       let! currentContent := Fs.readRule currentRulePath in
       Fs.writeArchive archiveFileName currentContent now >>
       updateRuleMetadata ruleType
         {| md_version := version; md_archivedAt := now;
            md_archiveFile := archiveFileName; md_reason := "scheduled_update" |} >>
       logPerformance "rule-archive" >>
       log LInfo ("Rule archived successfully: " +:+ ruleType)
     else ret ())
    (λ error, log LError ("Failed to archive rule: " +:+ ruleType) >> throw error).

Definition deployNewRule (ruleType content version : string) (now : Date) : IO unit :=
  log LInfo ("Deploying new rule: " +:+ ruleType +:+ " version " +:+ version) >>
  tryCatch
    (let rulePath := getRuleFilePath ruleType in
     let versionedContent := addVersionHeader content version ruleType now in
     Fs.writeRule rulePath versionedContent >>
     updateDeploymentMetadata ruleType
       {| dm_version := version; dm_deployedAt := now;
          dm_contentLength := String.length versionedContent;
          dm_checksum := calculateChecksum versionedContent |} >>
     logPerformance "rule-deployment" >>
     log LInfo ("Rule deployed successfully: " +:+ ruleType))
    (λ error, log LError ("Failed to deploy rule: " +:+ ruleType) >> throw error).

(** Stable insertion in descending order of [date], as
    [sort((a, b) => time(b) - time(a))] orders an array. *)
Fixpoint insertByDate (x : RuleHistoryEntry) (l : list RuleHistoryEntry) :=
  match l with
  | [] => [x]
  | y :: r => if (getTime (date x) <? getTime (date y))%Z
              then y :: insertByDate x r else x :: y :: r
  end.

Definition sortByDateDesc (l : list RuleHistoryEntry) : list RuleHistoryEntry :=
  foldr insertByDate [] l.

Definition getRuleHistory (ruleType : string) : IO (list RuleHistoryEntry) :=
  log LDebug ("Getting rule history for " +:+ ruleType) >>
  tryCatch
    (let! parsed := Fs.readMeta (historyPath ruleType) in
     match parsed with
     | HistoryJson history =>
         log LDebug ("Retrieved rule history for " +:+ ruleType) >>
         ret (sortByDateDesc history)
     | DeploymentJson _ => throw (JsError "history.sort is not a function")
     end)
    (λ _, log LDebug ("No history found for " +:+ ruleType) >> ret []).

(** The predicate of [archiveFiles.find] in [rollbackToVersion]. *)
Definition isArchiveOf (ruleType version file : string) : bool :=
  Js.startsWith file (ruleType +:+ "-" +:+ version +:+ "-") && Js.endsWith file ".md".

Definition rollbackToVersion (ruleType version : string) (now : Date) : IO unit :=
  log LInfo ("Rolling back " +:+ ruleType +:+ " to version " +:+ version) >>
  tryCatch
    (let! archiveFiles := Fs.readdirArchive in
     match List.find (isArchiveOf ruleType version) archiveFiles with
     | None => throw (JsError ("Archive not found for " +:+ ruleType
                               +:+ " version " +:+ version))
     | Some targetArchive =>
         let rulePath := getRuleFilePath ruleType in
         let rollbackBackupVersion := "rollback-backup-" +:+ Js.beforeT (toISOString now) in
         archiveCurrentRule ruleType rollbackBackupVersion now >>
         let! archivedContent := Fs.readArchive targetArchive in
         Fs.writeRule rulePath archivedContent >>
         updateRuleMetadata ruleType
           {| md_version := version +:+ "-rollback"; md_archivedAt := now;
              md_archiveFile := targetArchive; md_reason := "manual_rollback" |} >>
         logPerformance "rule-rollback" >>
         log LInfo ("Rule rolled back successfully: " +:+ ruleType)
     end)
    (λ error, log LError ("Failed to rollback rule: " +:+ ruleType) >> throw error).

(** The body of the loop of [cleanupOldArchives] for one file name. *)
Definition cleanupOne (cutoffDate : Z) (deletedCount : nat) (filename : string) : IO nat :=
  if negb (Js.endsWith filename ".md") then ret deletedCount
  else
    let! mtime := Fs.statArchive filename in
    if (getTime mtime <? cutoffDate)%Z then
      log LDebug ("Would delete old archive: " +:+ filename) >>
      ret (deletedCount + 1)
    else ret deletedCount.

Fixpoint cleanupLoop (cutoffDate : Z) (deletedCount : nat) (files : list string) : IO nat :=
  match files with
  | [] => ret deletedCount
  | filename :: rest =>
      let! n := cleanupOne cutoffDate deletedCount filename in
      cleanupLoop cutoffDate n rest
  end.

Definition msPerDay : Z := 86400000.

(** [cutoffDate.setDate(cutoffDate.getDate() - retentionDays)], in UTC. *)
Definition cutoff (now : Date) (retentionDays : Z) : Z :=
  (getTime now - retentionDays * msPerDay)%Z.

Definition cleanupOldArchives (retentionDays : Z) (now : Date) : IO unit :=
  log LInfo ("Cleaning up archives older than " +:+ pretty retentionDays +:+ " days") >>
  tryCatch
    (let! archiveFiles := Fs.readdirArchive in
     let! deletedCount := cleanupLoop (cutoff now retentionDays) 0 archiveFiles in
     log LInfo ("Archive cleanup completed, markedForDeletion: " +:+ pretty deletedCount))
    (λ error, log LError "Archive cleanup failed" >> throw error).

(** The object [getRuleVersionInfo] returns; a field is [None] when the
    parsed file has no such property. *)
Record VersionInfo := {
  vi_currentVersion : option string;
  vi_lastDeployment : option Date;
  vi_contentLength : option nat;
  vi_checksum : option string;
  vi_deploymentCount : option nat;
}.

(** [getRuleVersionInfo]: [None] is the [null] of the catch block. *)
Definition getRuleVersionInfo (ruleType : string) : IO (option VersionInfo) :=
  tryCatch
    (let! parsed := Fs.readMeta (deploymentPath ruleType) in
     match parsed with
     | DeploymentJson info =>
         ret (Some {| vi_currentVersion := Some (currentVersion info);
                      vi_lastDeployment := Some (lastDeployment info);
                      vi_contentLength := Some (contentLength info);
                      vi_checksum := Some (checksum info);
                      vi_deploymentCount := Some (deploymentCount info) |})
     | HistoryJson _ =>
         ret (Some {| vi_currentVersion := None; vi_lastDeployment := None;
                      vi_contentLength := None; vi_checksum := None;
                      vi_deploymentCount := None |})
     end)
    (λ _, log LDebug ("No version info found for " +:+ ruleType) >> ret None).

(** The version [listAvailableVersions] reads off a file name:
    [file.replace('.md', '').split('-')[1]], or 'unknown'. *)
Definition versionOfFile (file : string) : string :=
  let parts := Js.splitDash (Js.removeFirst ".md" file) in
  if decide (2 ≤ length parts)%nat then default "unknown" (parts !! 1) else "unknown".

Definition listAvailableVersions (ruleType : string) : IO (list string) :=
  tryCatch
    (let! archiveFiles := Fs.readdirArchive in
     let versions :=
       List.filter (λ version, negb (String.eqb version "unknown"))
         (map versionOfFile
            (List.filter (λ file, Js.startsWith file (ruleType +:+ "-")
                                  && Js.endsWith file ".md") archiveFiles)) in
     ret (Js.unique versions))
    (λ _, log LError ("Failed to list versions for " +:+ ruleType) >> ret []).

End RuleVersionManager.

(** ** JavaScript numbers *)

Module Binary64.

Local Open Scope Q_scope.

(** The [e] with [2^e <= |x| < 2^(e+1)], for [x] other than 0. *)
Definition ilog2 (x : Q) : Z :=
  let e := (Z.log2 (Z.abs (Qnum x)) - Z.log2 (Zpos (Qden x)))%Z in
  if Qle_bool (2 ^ e) (Qabs x) then e else (e - 1)%Z.

(** The integer nearest to [y]; of two that are equally near, the even
    one. *)
Definition nearestEven (y : Q) : Z :=
  let f := Qfloor y in
  match Qcompare (y - inject_Z f) (1 # 2) with
  | Lt => f
  | Gt => (f + 1)%Z
  | Eq => if Z.even f then f else (f + 1)%Z
  end.

(** The exponent of the last place of the binary64 numbers next to [x]:
    53 significant bits, and the subnormal numbers below [2^-1022]. *)
Definition lastPlace (x : Q) : Z := (Z.max (ilog2 x) (-1022) - 52)%Z.

(** The binary64 number nearest to [x], ties to even. *)
Definition round (x : Q) : Q :=
  if Qeq_bool x 0 then 0
  else inject_Z (nearestEven (x / 2 ^ lastPlace x)) * 2 ^ lastPlace x.

(** A decimal literal of the source. *)
Definition literal (decimal : Q) : Q := round decimal.

(** [a + b], [a - b], [a * b] and [a / b] *)
Definition add (a b : Q) : Q := round (a + b).
Definition sub (a b : Q) : Q := round (a - b).
Definition mul (a b : Q) : Q := round (a * b).
Definition div (a b : Q) : Q := round (a / b).

End Binary64.

(** ** TrendAnalyzer *)

Module TrendAnalyzer.

Local Open Scope Q_scope.

(** The fields of the trend records that the score reads. *)
Record GitHubTrendData := { totalRepos : Q; averageStars : Q }.
Record StackOverflowTrendData := { totalQuestions : Q; averageScore : Q }.
Record PackageTrendData := { downloads : Q; weeklyGrowth : Q }.
Record BreakingChange := { bc_version : string; bc_title : string }.
Record DocumentationChangeData := { breakingChanges : list BreakingChange }.

Record Trends := {
  githubTrends : GitHubTrendData;
  stackOverflowTrends : StackOverflowTrendData;
  packageTrends : PackageTrendData;
  documentationChanges : DocumentationChangeData;
}.

(** The two accumulators of [calculateUpdatePriority]. *)
Record Acc := { priority : Q; factors : Q }.

(** [priority += value * weight; factors += weight] *)
Definition add (value weight : Q) (a : Acc) : Acc :=
  {| priority := Binary64.add (priority a) (Binary64.mul value weight);
     factors := Binary64.add (factors a) weight |}.

(** The accumulators when [calculateUpdatePriority] reaches its last
    line. *)
Definition accumulate (trends : Trends) : Acc :=
  let a := {| priority := 0; factors := 0 |} in
  (* GitHub activity factor (0.3 weight) *)
  let a :=
    if Qlt_le_dec 0 (totalRepos (githubTrends trends)) then
      let repoActivity :=
        Qmin (Binary64.div (totalRepos (githubTrends trends)) 10000) 1 in
      add repoActivity (Binary64.literal 0.3) a
    else a in
  (* Stack Overflow activity factor (0.2 weight) *)
  let a :=
    if Qlt_le_dec 0 (totalQuestions (stackOverflowTrends trends)) then
      let soActivity :=
        Qmin (Binary64.div (totalQuestions (stackOverflowTrends trends)) 1000) 1 in
      add soActivity (Binary64.literal 0.2) a
    else a in
  (* Package growth factor (0.3 weight) *)
  let growthFactor :=
    Qmax 0 (Qmin (Binary64.div (weeklyGrowth (packageTrends trends)) 20) 1) in
  let a := add growthFactor (Binary64.literal 0.3) a in
  (* Breaking changes factor (0.2 weight) *)
  let breakingChangesFactor :=
    if decide (0 < length (breakingChanges (documentationChanges trends)))%nat
    then 1 else Binary64.literal 0.2 in
  add breakingChangesFactor (Binary64.literal 0.2) a.

(** [return factors > 0 ? Math.min(priority / factors, 1) : 0.3] *)
Definition normalize (a : Acc) : Q :=
  if Qlt_le_dec 0 (factors a)
  then Qmin (Binary64.div (priority a) (factors a)) 1
  else Binary64.literal 0.3.

Definition calculateUpdatePriority (trends : Trends) : Q :=
  normalize (accumulate trends).

(** *** The reference policy, as the design document words it *)

(** A sub-signal source answers or is unavailable. *)
Record SubSignals := {
  activityVolume : option Q;
  discussionVolume : option Q;
  growth : option Q;
  breakingFlag : option bool;
}.

Record Ceilings := { activityCeiling : Q; discussionCeiling : Q; growthCeiling : Q }.

(** Normalised volume, capped at 1 once the ceiling is reached. *)
Definition capped (ceiling x : Q) : Q := Qmin (x / ceiling) 1.

(** Bounded growth: negative growth floors at 0. *)
Definition bounded (ceiling x : Q) : Q := Qmax 0 (capped ceiling x).

(** Fixed contribution, boosted to 1 by a flagged breaking change. *)
Definition flagged (b : bool) : Q := if b then 1 else 0.2.

(** The weighted terms: weight and value, when the signal is available. *)
Definition terms (c : Ceilings) (s : SubSignals) : list (Q * option Q) :=
  [ (0.3, capped (activityCeiling c) <$> activityVolume s);
    (0.2, capped (discussionCeiling c) <$> discussionVolume s);
    (0.3, bounded (growthCeiling c) <$> growth s);
    (0.2, flagged <$> breakingFlag s) ].

Definition numerator (ts : list (Q * option Q)) : Q :=
  foldr (λ t acc, match t.2 with Some v => t.1 * v + acc | None => acc end) 0 ts.

Definition denominator (ts : list (Q * option Q)) : Q :=
  foldr (λ t acc, match t.2 with Some _ => t.1 + acc | None => acc end) 0 ts.

Definition available (ts : list (Q * option Q)) : bool :=
  existsb (λ t, bool_decide (is_Some t.2)) ts.

Definition clamp01 (x : Q) : Q := Qmax 0 (Qmin x 1).

Definition referenceScore (c : Ceilings) (s : SubSignals) : Q :=
  let ts := terms c s in
  if available ts then clamp01 (numerator ts / denominator ts) else 0.3.

(** The ceilings the code has as literals. *)
Definition ceilings : Ceilings :=
  {| activityCeiling := 10000; discussionCeiling := 1000; growthCeiling := 20 |}.

(** [TrendData]: what [analyzeTechnology] returns. *)
Record TrendData := {
  trends : Trends;
  updatePriority : Q;
  lastAnalyzed : Date;
}.

(** *** Where the trends come from *)

Definition getDefaultGitHubTrends : GitHubTrendData :=
  {| totalRepos := 0; averageStars := 0 |}.

Definition getDefaultStackOverflowTrends : StackOverflowTrendData :=
  {| totalQuestions := 0; averageScore := 0 |}.

(** What a [fetch] comes to: the request rejects (or its body does not
    parse), the status is not ok, or the parsed body. *)
Inductive Response (A : Type) :=
| Rejects
| NotOk
| Ok (data : A).

Arguments Rejects {A}.
Arguments NotOk {A}.
Arguments Ok {A} data.

(** The fields read of an item of a GitHub repository search. *)
Record Repository := {
  repo_id : string;
  repo_name : option string;
  full_name : string;
  topics : option (list string);
  description : option string;
  updated_at : string;
  html_url : string;
  stargazers_count : Q;
}.

(** The body of a GitHub search: [total_count] and [items]. *)
Record RepositorySearch := {
  total_count : option Q;
  items : option (list Repository);
}.

(** The fields read of the body of a Stack Overflow search. *)
Record QuestionSearch := {
  total : option Q;
  scores : option (list Q);
}.

(** [x || 0] for a count that may be missing. *)
Definition orZero (x : option Q) : Q := default 0 x.

(** [Math.round] *)
Definition round (x : Q) : Q := inject_Z (Qfloor (x + (1 # 2))).

(** [l.length > 0 ? l.reduce((sum, x) => sum + x, 0) / l.length : 0] *)
Definition mean (l : list Q) : Q :=
  match l with
  | [] => 0
  | _ => Binary64.div (fold_left Binary64.add l 0) (inject_Z (Z.of_nat (length l)))
  end.

(** [analyzeGitHubTrends]: the defaults without a token and on every
    failure. *)
Definition analyzeGitHubTrends (token : bool) (response : Response RepositorySearch)
    : GitHubTrendData :=
  if token then
    match response with
    | Ok data =>
        let repos := default [] (items data) in
        {| totalRepos := orZero (total_count data);
           averageStars := round (mean (map stargazers_count repos)) |}
    | _ => getDefaultGitHubTrends
    end
  else getDefaultGitHubTrends.

Definition analyzeStackOverflowTrends (apiKey : bool) (response : Response QuestionSearch)
    : StackOverflowTrendData :=
  if apiKey then
    match response with
    | Ok data =>
        let questions := default [] (scores data) in
        {| totalQuestions := orZero (total data);
           averageScore := round (mean questions) |}
    | _ => getDefaultStackOverflowTrends
    end
  else getDefaultStackOverflowTrends.

(** [analyzePackageTrends]: the two arguments are what the two calls of
    [Math.random()] give. *)
Definition analyzePackageTrends (downloadsDraw growthDraw : Q) : PackageTrendData :=
  {| downloads := inject_Z (Qfloor (Binary64.mul downloadsDraw 1000000));
     weeklyGrowth := inject_Z (Qfloor (Binary64.sub (Binary64.mul growthDraw 20) 5)) |}.

Definition analyzeDocumentationChanges : DocumentationChangeData :=
  {| breakingChanges := [] |}.

(** What one analysis of a technology finds outside the program. *)
Record Sources := {
  repositories : Response RepositorySearch;
  questions : Response QuestionSearch;
  downloadsDraw : Q;
  growthDraw : Q;
}.

(** [config.api]: whether the GitHub token and the Stack Overflow key are
    set. *)
Record Credentials := { githubToken : bool; stackoverflowApiKey : bool }.

Definition cacheDuration : Z := (1000 * 60 * 60 * 2)%Z.

(** [trendCache]: the data and the time it was stored. *)
Abbreviation Cache := (gmap string (TrendData * Z)).

(** [analyzeTechnology], with the cache passed through; what it logs is
    left out. *)
Definition analyzeTechnology (api : Credentials) (src : Sources) (technology : string)
    (now : Date) (trendCache : Cache) : TrendData * Cache :=
  let analysed :=
    let t :=
      {| githubTrends := analyzeGitHubTrends (githubToken api) (repositories src);
         stackOverflowTrends :=
           analyzeStackOverflowTrends (stackoverflowApiKey api) (questions src);
         packageTrends := analyzePackageTrends (downloadsDraw src) (growthDraw src);
         documentationChanges := analyzeDocumentationChanges |} in
    let trendData :=
      {| trends := t; updatePriority := calculateUpdatePriority t; lastAnalyzed := now |} in
    (trendData, <[technology := (trendData, getTime now)]> trendCache) in
  match trendCache !! technology with
  | Some cached =>
      if decide (getTime now - cached.2 < cacheDuration)%Z
      then (cached.1, trendCache)
      else analysed
  | None => analysed
  end.

(** [results[tech] = trends]: a key keeps the place of its first
    assignment. *)
Fixpoint setResult (tech : string) (trends : TrendData)
    (results : list (string * TrendData)) : list (string * TrendData) :=
  match results with
  | [] => [(tech, trends)]
  | (k, v) :: rest =>
      if String.eqb k tech then (k, trends) :: rest
      else (k, v) :: setResult tech trends rest
  end.

(** The loop of [analyzeAllTechnologies]; the calls of a batch are taken
    one after the other, and a technology finds the same sources whenever
    it is analysed during the run. *)
Fixpoint analyzeEach (api : Credentials) (sources : string → Sources)
    (technologies : list string) (now : Date)
    (results : list (string * TrendData)) (trendCache : Cache)
    : list (string * TrendData) * Cache :=
  match technologies with
  | [] => (results, trendCache)
  | tech :: rest =>
      let (trends, trendCache) := analyzeTechnology api (sources tech) tech now trendCache in
      analyzeEach api sources rest now (setResult tech trends results) trendCache
  end.

(** [analyzeAllTechnologies] over [config.rules.supportedTechnologies];
    the result is given as [Object.entries] lists it. *)
Definition analyzeAllTechnologies (api : Credentials) (sources : string → Sources)
    (supportedTechnologies : list string) (now : Date) (trendCache : Cache)
    : list (string * TrendData) * Cache :=
  analyzeEach api sources supportedTechnologies now [] trendCache.

(** *** Security advisories *)

Inductive Severity := SevLow | SevMedium | SevHigh | SevCritical.

Record SecurityAdvisory := {
  sa_id : string;
  sa_title : string;
  severity : Severity;
  affectedVersions : list string;
  patchedVersions : list string;
  sa_description : string;
  publishedAt : string;
  sa_url : string;
}.

(** [repo.topics?.includes('security') ||
     repo.name.toLowerCase().includes('security')]; [None] is the
    TypeError of a repository without a name. *)
Definition isSecurityRepository (repo : Repository) : option bool :=
  if match topics repo with
     | Some ts => bool_decide ("security" ∈ ts)
     | None => false
     end
  then Some true
  else match repo_name repo with
       | Some n => Some (Js.includes (Js.toLowerCase n) "security")
       | None => None
       end.

Definition advisoryOf (repo : Repository) : SecurityAdvisory :=
  {| sa_id := "github-" +:+ repo_id repo;
     sa_title := full_name repo;
     severity := SevMedium;
     affectedVersions := ["*"];
     patchedVersions := ["latest"];
     sa_description :=
       match description repo with
       | Some d => if String.eqb d "" then "Security-related repository" else d
       | None => "Security-related repository"
       end;
     publishedAt := updated_at repo;
     sa_url := html_url repo |}.

(** The loop over [data.items]; [None] when an item throws. *)
Fixpoint collectAdvisories (repos : list Repository) (advisories : list SecurityAdvisory)
    : option (list SecurityAdvisory) :=
  match repos with
  | [] => Some advisories
  | repo :: rest =>
      match isSecurityRepository repo with
      | None => None
      | Some true => collectAdvisories rest (advisories ++ [advisoryOf repo])
      | Some false => collectAdvisories rest advisories
      end
  end.

(** [checkSecurityAdvisories]: the catch block answers the empty list. *)
Definition checkSecurityAdvisories (api : Credentials)
    (response : Response RepositorySearch) : list SecurityAdvisory :=
  if githubToken api then
    match response with
    | Rejects => []
    | NotOk => []
    | Ok data =>
        match collectAdvisories (default [] (items data)) [] with
        | Some advisories => take 10 advisories
        | None => []
        end
    end
  else [].

End TrendAnalyzer.

(** ** NotificationService *)

Module NotificationService.

Inductive ReadyState := CONNECTING | OPEN | CLOSING | CLOSED.

(** The socket of a client: its state, and whether [send] throws. *)
Record WebSocket := { readyState : ReadyState; sendThrows : bool }.

Record ConnectedClient := {
  id : string;
  ws : WebSocket;
  subscriptions : gset string;
  connectedAt : Date;
  lastActivity : Date;
}.

(** [{ channels: string[] }]; [channels] may be absent. *)
Record ChannelData := { channels : option (list string) }.

(** A parsed message of a client, by its [type]; [data] may be absent. *)
Inductive ClientMessage :=
| Subscribe (data : option ChannelData)
| Unsubscribe (data : option ChannelData)
| Ping
| GetStatus
| Other (type : string).

Inductive ServerMessage :=
| Welcome (clientId : string)
| SubscriptionUpdated (subscriptions : gset string)
| Pong
| SystemStatus (connectedClients : nat)
| ErrorMessage (message : string).

Record State := {
  clients : gmap string ConnectedClient;
  sent : list (string * ServerMessage);
}.

(** The state the constructor leaves: [clients = new Map()]. *)
Definition initial : State := {| clients := ∅; sent := [] |}.

Definition validChannels : list string :=
  ["general"; "rule-updates"; "trend-analysis"; "emergency-alerts"; "system-status"].

Definition isOpen (w : WebSocket) : bool :=
  match readyState w with OPEN => true | _ => false end.

Definition sendToClient (clientId : string) (message : ServerMessage) (st : State) : State :=
  match clients st !! clientId with
  | None => st
  | Some client =>
      if negb (isOpen (ws client)) then st
      else if sendThrows (ws client)
           then {| clients := delete clientId (clients st); sent := sent st |}
           else {| clients := clients st;
                   sent := (sent st ++ [(clientId, message)])%list |}
  end.

Definition withSubscriptions (subs : gset string) (c : ConnectedClient) : ConnectedClient :=
  {| id := id c; ws := ws c; subscriptions := subs;
     connectedAt := connectedAt c; lastActivity := lastActivity c |}.

Definition withLastActivity (now : Date) (c : ConnectedClient) : ConnectedClient :=
  {| id := id c; ws := ws c; subscriptions := subscriptions c;
     connectedAt := connectedAt c; lastActivity := now |}.

Definition withSocket (w : WebSocket) (c : ConnectedClient) : ConnectedClient :=
  {| id := id c; ws := w; subscriptions := subscriptions c;
     connectedAt := connectedAt c; lastActivity := lastActivity c |}.

(** The body of the [forEach] of [handleSubscription]. *)
Definition subscribeOne (subs : gset string) (channel : string) : gset string :=
  if bool_decide (channel ∈ validChannels) then subs ∪ {[channel]} else subs.

(** The body of the [forEach] of [handleUnsubscription]. *)
Definition unsubscribeOne (subs : gset string) (channel : string) : gset string :=
  subs ∖ {[channel]}.

(** [data.channels?.forEach(f)]: nothing when [channels] is absent. *)
Definition forEachChannel (f : gset string → string → gset string)
    (cs : option (list string)) (subs : gset string) : gset string :=
  match cs with
  | Some l => fold_left f l subs
  | None => subs
  end.

(** Ensure at least 'general' subscription remains:
    [if (subscriptions.size === 0) subscriptions.add('general')]. *)
Definition ensureGeneral (subs : gset string) : gset string :=
  if bool_decide (size subs = 0) then subs ∪ {["general"]} else subs.

Definition typeError : Exn := JsError "Cannot read properties of undefined (reading 'channels')".

Definition handleSubscription (clientId : string) (data : option ChannelData)
    (st : State) : Outcome unit * State :=
  match clients st !! clientId with
  | None => (Returned (), st)
  | Some client =>
      match data with
      | None => (Thrown typeError, st)
      | Some data =>
          let subs := forEachChannel subscribeOne (channels data) (subscriptions client) in
          let st := {| clients := <[clientId := withSubscriptions subs client]> (clients st);
                       sent := sent st |} in
          (Returned (), sendToClient clientId (SubscriptionUpdated subs) st)
      end
  end.

Definition handleUnsubscription (clientId : string) (data : option ChannelData)
    (st : State) : Outcome unit * State :=
  match clients st !! clientId with
  | None => (Returned (), st)
  | Some client =>
      match data with
      | None => (Thrown typeError, st)
      | Some data =>
          let subs := forEachChannel unsubscribeOne (channels data) (subscriptions client) in
          let subs := ensureGeneral subs in
          let st := {| clients := <[clientId := withSubscriptions subs client]> (clients st);
                       sent := sent st |} in
          (Returned (), sendToClient clientId (SubscriptionUpdated subs) st)
      end
  end.

Definition sendSystemStatus (clientId : string) (st : State) : State :=
  sendToClient clientId (SystemStatus (size (clients st))) st.

Definition handleClientMessage (clientId : string) (message : ClientMessage) (now : Date)
    (st : State) : Outcome unit * State :=
  match clients st !! clientId with
  | None => (Returned (), st)
  | Some client =>
      let st := {| clients := <[clientId := withLastActivity now client]> (clients st);
                   sent := sent st |} in
      match message with
      | Subscribe data => handleSubscription clientId data st
      | Unsubscribe data => handleUnsubscription clientId data st
      | Ping => (Returned (), sendToClient clientId Pong st)
      | GetStatus => (Returned (), sendSystemStatus clientId st)
      | Other type =>
          (Returned (),
           sendToClient clientId (ErrorMessage ("Unknown message type: " +:+ type)) st)
      end
  end.

(** What happens to the server. *)
Inductive Event :=
| Connection (clientId : string) (socket : WebSocket) (now : Date)
| Message (clientId : string) (parsed : option ClientMessage) (now : Date)
| Close (clientId : string)
| SocketError (clientId : string)
| SocketChanged (clientId : string) (socket : WebSocket).

(** [wss.on('connection', ...)] *)
Definition onConnection (maxWebSocketClients : nat) (clientId : string)
    (socket : WebSocket) (now : Date) (st : State) : State :=
  if bool_decide (maxWebSocketClients ≤ size (clients st))%nat then st
  else
    let client := {| id := clientId; ws := socket; subscriptions := {["general"]};
                     connectedAt := now; lastActivity := now |} in
    let st := {| clients := <[clientId := client]> (clients st); sent := sent st |} in
    sendToClient clientId (Welcome clientId) st.

(** [ws.on('message', ...)]: [parsed] is [None] when [JSON.parse] throws. *)
Definition onMessage (clientId : string) (parsed : option ClientMessage) (now : Date)
    (st : State) : State :=
  let invalid st := sendToClient clientId (ErrorMessage "Invalid JSON message") st in
  match parsed with
  | None => invalid st
  | Some message =>
      match handleClientMessage clientId message now st with
      | (Returned _, st') => st'
      | (Thrown _, st') => invalid st'
      end
  end.

Definition step (maxWebSocketClients : nat) (st : State) (ev : Event) : State :=
  match ev with
  | Connection clientId socket now => onConnection maxWebSocketClients clientId socket now st
  | Message clientId parsed now => onMessage clientId parsed now st
  | Close clientId | SocketError clientId =>
      {| clients := delete clientId (clients st); sent := sent st |}
  | SocketChanged clientId socket =>
      {| clients := alter (withSocket socket) clientId (clients st); sent := sent st |}
  end.

Definition run (maxWebSocketClients : nat) (evs : list Event) (st : State) : State :=
  fold_left (step maxWebSocketClients) evs st.

(** The subscription set of a connected client. *)
Definition subscriptionsOf (st : State) (clientId : string) : option (gset string) :=
  subscriptions <$> clients st !! clientId.

End NotificationService.

(** ** SchedulerService *)

Module SchedulerService.

Record ScheduledTask := {
  name : string;
  cronExpression : string;
  enabled : bool;
  lastRun : option Date;
  nextRun : option Z;
  runCount : nat;
  errorCount : nat;
}.

(** What the scheduler does that the outside can see, in order. *)
Inductive Trace :=
| Log (l : Level) (msg : string)
| TaskStarted (name : string)
| TaskSettled (name : string) (resolved : bool)
| AlertSent (type : string) (message : string).

Record State := {
  scheduledTasks : gmap string ScheduledTask;
  notificationService : bool;
  trace : list Trace;
}.

Definition say (t : Trace) (st : State) : State :=
  {| scheduledTasks := scheduledTasks st;
     notificationService := notificationService st;
     trace := (trace st ++ [t])%list |}.

Definition setTask (t : ScheduledTask) (st : State) : State :=
  {| scheduledTasks := <[name t := t]> (scheduledTasks st);
     notificationService := notificationService st;
     trace := trace st |}.

(** [getNextRunTime]: one hour from now, whatever the expression; the
    time value of the new [Date]. *)
Definition getNextRunTime (cronExpression : string) (now : Date) : option Z :=
  Some (getTime now + 60 * 60 * 1000)%Z.

(** The callback given to [cron.schedule], up to its [await taskFunction()]:
    the task function has been called when this returns. *)
Definition fire (name : string) (now : Date) (st : State) : State :=
  match scheduledTasks st !! name with
  | Some scheduledTask =>
      if enabled scheduledTask then
        let scheduledTask :=
          {| name := SchedulerService.name scheduledTask;
             cronExpression := cronExpression scheduledTask;
             enabled := enabled scheduledTask;
             lastRun := Some now;
             nextRun := nextRun scheduledTask;
             runCount := runCount scheduledTask + 1;
             errorCount := errorCount scheduledTask |} in
        say (TaskStarted name)
          (say (Log LInfo ("Executing scheduled task: " +:+ name))
             (setTask scheduledTask st))
      else say (Log LDebug ("Skipping disabled task: " +:+ name)) st
  | None => say (Log LDebug ("Skipping disabled task: " +:+ name)) st
  end.

Definition criticalTasks : list string :=
  ["monthly-comprehensive-update"; "security-advisory-check"].

(** The rest of the callback, once the promise of the task function has
    settled; [alertFails] says whether [sendAlert] throws. *)
Definition settle (name : string) (resolved : bool) (alertFails : bool) (st : State) : State :=
  let st := say (TaskSettled name resolved) st in
  if resolved then
    say (Log LInfo ("Scheduled task completed: " +:+ name))
      (say (Log LInfo ("Performance: scheduled-task-" +:+ name)) st)
  else
    let st :=
      match scheduledTasks st !! name with
      | Some t =>
          setTask {| name := SchedulerService.name t; cronExpression := cronExpression t;
                     enabled := enabled t; lastRun := lastRun t; nextRun := nextRun t;
                     runCount := runCount t; errorCount := errorCount t + 1 |} st
      | None => st
      end in
    let st := say (Log LError ("Scheduled task failed: " +:+ name)) st in
    if notificationService st && bool_decide (name ∈ criticalTasks) then
      if alertFails
      then say (Log LError "Failed to send task failure notification") st
      else say (AlertSent "scheduled-task-failure" ("Scheduled task failed: " +:+ name)) st
    else st.

(** [scheduleTask]: the callback is [fire name]; the task is registered
    enabled with zero counters. *)
Definition scheduleTask (name cronExpression : string) (now : Date)
    (st : State) : State :=
  let st := say (Log LDebug ("Scheduling task: " +:+ name)) st in
  let st :=
    setTask {| name := name; cronExpression := cronExpression; enabled := true;
               lastRun := None; nextRun := getNextRunTime cronExpression now;
               runCount := 0; errorCount := 0 |} st in
  say (Log LInfo ("Task scheduled: " +:+ name)) st.

Definition setEnabled (b : bool) (t : ScheduledTask) : ScheduledTask :=
  {| name := name t; cronExpression := cronExpression t; enabled := b;
     lastRun := lastRun t; nextRun := nextRun t;
     runCount := runCount t; errorCount := errorCount t |}.

Definition enableTask (taskName : string) (st : State) : bool * State :=
  match scheduledTasks st !! taskName with
  | None => (false, say (Log LWarn ("Task not found: " +:+ taskName)) st)
  | Some task =>
      (true, say (Log LInfo ("Task enabled: " +:+ taskName))
               (setTask (setEnabled true task) st))
  end.

Definition disableTask (taskName : string) (st : State) : bool * State :=
  match scheduledTasks st !! taskName with
  | None => (false, say (Log LWarn ("Task not found: " +:+ taskName)) st)
  | Some task =>
      (true, say (Log LInfo ("Task disabled: " +:+ taskName))
               (setTask (setEnabled false task) st))
  end.

(** [triggerTask]: [task.task.now()] runs the callback at once. *)
Definition triggerTask (taskName : string) (now : Date) (st : State) : bool * State :=
  match scheduledTasks st !! taskName with
  | None => (false, say (Log LWarn ("Task not found: " +:+ taskName)) st)
  | Some task =>
      (true, fire (name task) now
               (say (Log LInfo ("Manually triggering task: " +:+ taskName)) st))
  end.

(** What happens to the scheduler after [start]. *)
Inductive Event :=
| Tick (name : string) (now : Date)
| Trigger (name : string) (now : Date)
| Settled (name : string) (resolved : bool) (alertFails : bool)
| Enable (name : string)
| Disable (name : string).

Definition step (st : State) (ev : Event) : State :=
  match ev with
  | Tick name now => fire name now st
  | Trigger name now => (triggerTask name now st).2
  | Settled name resolved alertFails => settle name resolved alertFails st
  | Enable name => (enableTask name st).2
  | Disable name => (disableTask name st).2
  end.

Definition run (evs : list Event) (st : State) : State := fold_left step evs st.

Definition started (name : string) (t : Trace) : bool :=
  match t with TaskStarted n => bool_decide (n = name) | _ => false end.

Definition settled (name : string) (t : Trace) : bool :=
  match t with TaskSettled n _ => bool_decide (n = name) | _ => false end.

(** Invocations of the task function of [name] that have not settled. *)
Definition inFlight (name : string) (tr : list Trace) : nat :=
  length (filter (λ t, started name t = true) tr)
  - length (filter (λ t, settled name t = true) tr).

Definition skipped (name : string) (t : Trace) : bool :=
  match t with
  | Log _ msg => bool_decide (msg = "Skipping disabled task: " +:+ name)
  | _ => false
  end.

(** A scheduler with no task yet. *)
Definition initial (notificationService : bool) : State :=
  {| scheduledTasks := ∅; notificationService := notificationService; trace := [] |}.

End SchedulerService.

(** ** QueueService *)

(** A call of a collaborator: recorded, then it answers or throws. *)
Definition call {A} (collaborator argument : string) (answer : Outcome A) : IO A :=
  emit (Called collaborator argument) >> (λ w, (answer, w)).

(** [error instanceof Error ? error.message : 'Unknown error'] *)
Definition errorMessage (e : Exn) : string :=
  match e with
  | ENOENT _ name => "ENOENT: no such file or directory, open '" +:+ name +:+ "'"
  | JsError message => message
  end.

(** [getFullYear()] and the padded [getMonth() + 1], read in UTC. *)
Definition fullYear (now : Date) : string := String.substring 0 4 (toISOString now).
Definition paddedMonth (now : Date) : string := String.substring 5 2 (toISOString now).

Module QueueService.

Inductive Priority := low | medium | high.
Inductive UpdateType := major | minor | emergency.
Inductive TriggeredBy := bySchedule | byManual | byEmergency.

(** [JobData] of types/services.ts. *)
Record JobData := {
  technology : string;
  priority : Priority;
  updateType : UpdateType;
  context : option string;
  triggeredBy : TriggeredBy;
}.

(** What the processors read of a Bull job. *)
Record Job := { jobId : string; data : JobData; attemptsMade : nat }.

(** [JobResult] of types/services.ts, without the processing time. *)
Record JobResult := {
  success : bool;
  message : string;
  ruleVersion : option string;
  rulesGenerated : option nat;
  error : option string;
}.

Record RuleGenerationConfig := {
  cfg_technology : string;
  cfg_year : string;
  cfg_trends : TrendAnalyzer.TrendData;
  cfg_additionalContext : option string;
  cfg_includeExamples : bool;
  cfg_includeReferences : bool;
}.

(** The collaborators a processor creates, by what their calls answer. *)
Record Services := {
  analyzeTechnology : string → Outcome TrendAnalyzer.TrendData;
  analyzeAllTechnologies : Outcome unit;
  generateRules : RuleGenerationConfig → Outcome string;
  cleanup : Outcome unit;
  sendAlert : Outcome unit;
}.

(** [logQueueJob] of utils/logger.ts. *)
Definition logQueueJob (jobType jobId status : string) : IO unit :=
  log (if String.eqb status "failed" then LError else LInfo)
      ("Queue job " +:+ jobType +:+ "[" +:+ jobId +:+ "] " +:+ status).

Definition processRuleGeneration (svc : Services) (job : Job) (now : Date) : IO JobResult :=
  let technology := technology (data job) in
  logQueueJob "rule-generation" (jobId job) "started" >>
  tryCatch
    ((* Analyze current trends *)
     let! trends := call "analyzeTechnology" technology (analyzeTechnology svc technology) in
     (* Generate new rules *)
     let config :=
       {| cfg_technology := technology; cfg_year := fullYear now; cfg_trends := trends;
          cfg_additionalContext := context (data job);
          cfg_includeExamples := true; cfg_includeReferences := true |} in
     let! rules := call "generateRules" technology (generateRules svc config) in
     (* Create version string *)
     let version := fullYear now +:+ "-" +:+ paddedMonth now in
     (* Archive current rule and deploy new one *)
     let ruleType := technology +:+ "-best-practices" in
     RuleVersionManager.archiveCurrentRule ruleType version now >>
     RuleVersionManager.deployNewRule ruleType rules version now >>
     (* Cleanup resources *)
     call "cleanup" technology (cleanup svc) >>
     ret {| success := true;
            message := "Successfully generated and deployed rules for " +:+ technology;
            ruleVersion := Some version; rulesGenerated := Some 1; error := None |})
    (λ error,
       log LError ("Rule generation failed for " +:+ technology) >>
       ret {| success := false;
              message := "Rule generation failed for " +:+ technology +:+ ": "
                         +:+ errorMessage error;
              ruleVersion := None; rulesGenerated := None;
              error := Some (errorMessage error) |}).

Definition processTrendAnalysis (svc : Services) (job : Job) (now : Date) : IO JobResult :=
  let technology := technology (data job) in
  logQueueJob "trend-analysis" (jobId job) "started" >>
  tryCatch
    ((if String.eqb technology ""
      then call "analyzeAllTechnologies" "" (analyzeAllTechnologies svc)
      else (call "analyzeTechnology" technology (analyzeTechnology svc technology) >> ret ())) >>
     ret {| success := true;
            message := "Trend analysis completed for "
                       +:+ (if String.eqb technology "" then "all technologies" else technology);
            ruleVersion := None; rulesGenerated := None; error := None |})
    (λ error,
       log LError ("Trend analysis failed for "
                   +:+ (if String.eqb technology "" then "all technologies" else technology)) >>
       ret {| success := false;
              message := "Trend analysis failed: " +:+ errorMessage error;
              ruleVersion := None; rulesGenerated := None;
              error := Some (errorMessage error) |}).

Definition processEmergencyUpdate (svc : Services) (job : Job) (now : Date) : IO JobResult :=
  let technology := technology (data job) in
  logQueueJob "emergency-updates" (jobId job) "started" >>
  tryCatch
    (log LWarn ("Processing emergency update for " +:+ technology) >>
     (* Use the same rule generation process but with emergency priority *)
     let! result := processRuleGeneration svc job now in
     (* Send emergency notification *)
     tryCatch (call "sendAlert" "emergency-update-completed" (sendAlert svc))
              (λ _, log LError "Failed to send emergency update notification") >>
     ret result)
    (λ error,
       log LError ("Emergency update failed for " +:+ technology) >>
       ret {| success := false;
              message := "Emergency update failed for " +:+ technology +:+ ": "
                         +:+ errorMessage error;
              ruleVersion := None; rulesGenerated := None;
              error := Some (errorMessage error) |}).

(** [config.queue.defaultJobOptions.attempts] and the override of the
    emergency queue. *)
Definition defaultAttempts : nat := 3.
Definition emergencyAttempts : nat := 5.

(** How Bull settles an attempt: a processor whose promise resolves has
    completed the job; only a rejected promise is a failed attempt, which
    Bull retries while attempts remain. *)
Inductive Settlement := Completed (result : JobResult) | Failed (reason : Exn).

Definition settlement (o : Outcome JobResult) : Settlement :=
  match o with
  | Returned result => Completed result
  | Thrown e => Failed e
  end.

(** [getPriorityNumber]: Bull runs the lower number first. *)
Definition getPriorityNumber (priority : Priority) : Z :=
  match priority with
  | low => 10
  | medium => 5
  | high => 1
  end.

Inductive QueueName := RuleGenerationQueue | TrendAnalysisQueue | EmergencyUpdateQueue.

(** The options [addRuleGenerationJob], [addTrendAnalysisJob] and
    [addEmergencyUpdateJob] give to [queue.add] when the caller gives
    none: the priority number. *)
Definition addPriority (queue : QueueName) (jobData : JobData) : Z :=
  match queue with
  | EmergencyUpdateQueue => 1
  | _ => getPriorityNumber (priority jobData)
  end.

End QueueService.

(** ** RuleUpdateQueue, the queue of the implementation plan *)

Module RuleUpdateQueue.

Import QueueService.

Record RuleUpdateJob := {
  job_technology : string;
  job_priority : Priority;
  job_updateType : UpdateType;
}.

Record UpdateResult := {
  res_message : string;
  updated : bool;
  res_version : option string;
  rulesSize : option nat;
}.

Definition priorityText (p : Priority) : string :=
  match p with low => "low" | medium => "medium" | high => "high" end.

Definition updateTypeText (u : UpdateType) : string :=
  match u with major => "major" | minor => "minor" | emergency => "emergency" end.

Definition isEmergency (u : UpdateType) : bool :=
  match u with emergency => true | _ => false end.

(** [updatePriority < 0.3] *)
Definition belowThreshold (updatePriority : Q) : bool :=
  if Qlt_le_dec updatePriority 0.3 then true else false.

(** The processor given to [queue.process('generate-rules', 3, ...)]. *)
Definition process (svc : Services) (job : RuleUpdateJob) (now : Date) : IO UpdateResult :=
  let technology := job_technology job in
  emit (Progress 0) >>
  tryCatch
    ((* Analyze trends (25% progress) *)
     let! trends := call "analyzeTechnology" technology (analyzeTechnology svc technology) in
     emit (Progress 25) >>
     (* Determine if update is needed *)
     let updatePriority := TrendAnalyzer.updatePriority trends in
     if negb (isEmergency (job_updateType job)) && belowThreshold updatePriority then
       emit (Progress 100) >>
       ret {| res_message := "No significant changes detected for " +:+ technology;
              updated := false; res_version := None; rulesSize := None |}
     else
       (* Generate new rules (75% progress) *)
       let config :=
         {| cfg_technology := technology; cfg_year := fullYear now; cfg_trends := trends;
            cfg_additionalContext :=
              Some ("Update type: " +:+ updateTypeText (job_updateType job)
                    +:+ ", Priority: " +:+ priorityText (job_priority job));
            cfg_includeExamples := false; cfg_includeReferences := false |} in
       let! newRules := call "generateRules" technology (generateRules svc config) in
       emit (Progress 75) >>
       (* Archive and deploy (100% progress) *)
       let version := fullYear now +:+ "-" +:+ paddedMonth now in
       RuleVersionManager.archiveCurrentRule (technology +:+ "-best-practices") version now >>
       RuleVersionManager.deployNewRule (technology +:+ "-best-practices") newRules version now >>
       emit (Progress 100) >>
       ret {| res_message := "Successfully updated " +:+ technology
                             +:+ " rules to version " +:+ version;
              updated := true; res_version := Some version;
              rulesSize := Some (String.length newRules) |})
    (λ error, throw (JsError ("Rule generation failed for " +:+ technology +:+ ": "
                              +:+ errorMessage error))).

(** The ['failed'] handler: the delay of [job.retry(delay)], if it retries. *)
Definition onFailed (attemptsMade : nat) : option Z :=
  let attempts := attemptsMade in
  if bool_decide (attempts < 3)%nat then Some (2 ^ Z.of_nat attempts * 1000)%Z else None.

End RuleUpdateQueue.

(** ** What the properties below speak about *)

(** The effects a computation adds to the journal when run in [w]. *)
Definition effectsOf {A} (m : IO A) (w : World) : list Effect :=
  drop (length (journal w)) (journal (m w).2).


(** An effect that changes no file. *)
Definition readOnly (e : Effect) : Prop :=
  match e with
  | Wrote _ | Renamed _ _ _ => False
  | _ => True
  end.

(** [m] adds only effects that satisfy [ok], and the disk it leaves is the
    disk it found changed by the effects it added. *)
Definition Traced {A} (ok : Effect → Prop) (m : IO A) : Prop :=
  ∀ w, ∃ j, journal (m w).2 = (journal w ++ j)%list
            ∧ Forall ok j
            ∧ disk (m w).2 = replay j (disk w).

(** *** The active artifact of a rule type *)

Definition activeContent (d : Disk) (ruleType : string) : option string :=
  ruleBase d !! RuleVersionManager.getRuleFilePath ruleType.

Definition recordedChecksum (d : Disk) (ruleType : string) : option string :=
  match metadata d !! RuleVersionManager.deploymentPath ruleType with
  | Some (DeploymentJson info) => Some (checksum info)
  | _ => None
  end.

(** The recorded checksum is the checksum of the active content. *)
Definition checksumMatches (d : Disk) (ruleType : string) : Prop :=
  match activeContent d ruleType with
  | Some c => recordedChecksum d ruleType = Some (RuleVersionManager.calculateChecksum c)
  | None => True
  end.

(** The entries a read of the history file of a rule type gives: none
    when the disk refuses the read or the file does not hold a history. *)
Definition storedHistory (d : Disk) (ruleType : string) : option (list RuleHistoryEntry) :=
  match refuses d (Reading MetadataPath (RuleVersionManager.historyPath ruleType)) with
  | Some _ => None
  | None =>
      match metadata d !! RuleVersionManager.historyPath ruleType with
      | None => Some []
      | Some (HistoryJson h) => Some h
      | Some (DeploymentJson _) => None
      end
  end.

(** *** Disks that work *)

(** The disk accepts the write. *)
Definition accepts (d : Disk) (wr : Write) : Prop := refuses d (Writing wr) = None.

(** The disk refuses no read and no write. *)
Definition Working (d : Disk) : Prop := ∀ a, refuses d a = None.

(** *** Archive, then deploy *)

Record DeployRequest := {
  req_content : string;
  req_version : string;
  req_now : Date;
}.

(** The two calls every processor makes, in this order. *)
Definition archiveThenDeploy (ruleType : string) (r : DeployRequest) : IO unit :=
  RuleVersionManager.archiveCurrentRule ruleType (req_version r) (req_now r) >>
  RuleVersionManager.deployNewRule ruleType (req_content r) (req_version r) (req_now r).

Fixpoint deployAll (ruleType : string) (rs : list DeployRequest) : IO unit :=
  match rs with
  | [] => ret ()
  | r :: rs => archiveThenDeploy ruleType r >> deployAll ruleType rs
  end.

(** The number of entries [getRuleHistory] reports in [w]. *)
Definition historyCount (ruleType : string) (w : World) : option nat :=
  match (RuleVersionManager.getRuleHistory ruleType w).1 with
  | Returned h => Some (length h)
  | Thrown _ => None
  end.

(** *** What a deploy and an archive add to the journal *)

Definition archiveNotFound (ruleType version : string) : Exn :=
  JsError ("Archive not found for " +:+ ruleType +:+ " version " +:+ version).

(** The [deploymentCount] that [getDeploymentCount] finds on a disk: 0 when
    the disk refuses the read or the file holds no deployment record. *)
Definition deploymentCountOf (d : Disk) (ruleType : string) : nat :=
  match refuses d (Reading MetadataPath (RuleVersionManager.deploymentPath ruleType)) with
  | Some _ => 0
  | None =>
      match metadata d !! RuleVersionManager.deploymentPath ruleType with
      | Some (DeploymentJson info) => deploymentCount info
      | _ => 0
      end
  end.

(** The record a deploy of [versionedContent] writes on disk [d]. *)
Definition deploymentRecord (d : Disk) (ruleType version versionedContent : string)
    (now : Date) : DeploymentInfo :=
  {| ruleType := ruleType;
     currentVersion := version;
     lastDeployment := now;
     contentLength := String.length versionedContent;
     checksum := RuleVersionManager.calculateChecksum versionedContent;
     deployedBy := "AI Rules Management System";
     deploymentCount := deploymentCountOf d ruleType + 1 |}.

(** The two writes of a deploy: the active file, then the record. *)
Definition ruleWrite (ruleType content version : string) (now : Date) : Write :=
  WriteRule (RuleVersionManager.getRuleFilePath ruleType)
    (RuleVersionManager.addVersionHeader content version ruleType now).

Definition recordWrite (d : Disk) (ruleType content version : string) (now : Date) : Write :=
  WriteMeta (RuleVersionManager.deploymentPath ruleType)
    (DeploymentJson
       (deploymentRecord d ruleType version
          (RuleVersionManager.addVersionHeader content version ruleType now) now)).



Definition deployEffects (d : Disk) (ruleType content version : string) (now : Date)
    : list Effect :=
  let versionedContent := RuleVersionManager.addVersionHeader content version ruleType now in
  [ Logged LInfo ("Deploying new rule: " +:+ ruleType +:+ " version " +:+ version);
    Wrote (WriteRule (RuleVersionManager.getRuleFilePath ruleType) versionedContent);
    ReadFile MetadataPath (RuleVersionManager.deploymentPath ruleType);
    Wrote (WriteMeta (RuleVersionManager.deploymentPath ruleType)
             (DeploymentJson (deploymentRecord d ruleType version versionedContent now)));
    Logged LDebug ("Updated deployment metadata for " +:+ ruleType);
    Logged LInfo "Performance: rule-deployment";
    Logged LInfo ("Rule deployed successfully: " +:+ ruleType) ].

(** The history entry of an archive made at [now]. *)
Definition archiveEntry (ruleType version : string) (now : Date) : RuleHistoryEntry :=
  {| version := version;
     date := now;
     author := "AI Rules Management System";
     changes := ["Archived rule with reason: scheduled_update"];
     filePath := RuleVersionManager.archiveFileName ruleType version now |}.

(** [push], then keep the last 50. *)
Definition pushCapped (h : list RuleHistoryEntry) (e : RuleHistoryEntry) : list RuleHistoryEntry :=
  if decide (50 < length (h ++ [e])) then RuleVersionManager.sliceLast50 (h ++ [e])
  else h ++ [e].

Definition archiveEffects (ruleType version current : string) (h : list RuleHistoryEntry)
    (now : Date) : list Effect :=
  [ Logged LInfo ("Archiving current rule: " +:+ ruleType +:+ " to version " +:+ version);
    Stat RuleBasePath (RuleVersionManager.getRuleFilePath ruleType);
    ReadFile RuleBasePath (RuleVersionManager.getRuleFilePath ruleType);
    Wrote (WriteArchive (RuleVersionManager.archiveFileName ruleType version now)
             {| content := current; mtime := now |});
    ReadFile MetadataPath (RuleVersionManager.historyPath ruleType);
    Wrote (WriteMeta (RuleVersionManager.historyPath ruleType)
             (HistoryJson (pushCapped h (archiveEntry ruleType version now))));
    Logged LDebug ("Updated rule metadata for " +:+ ruleType);
    Logged LInfo "Performance: rule-archive";
    Logged LInfo ("Rule archived successfully: " +:+ ruleType) ].

Definition skipArchiveEffects (ruleType version : string) : list Effect :=
  [ Logged LInfo ("Archiving current rule: " +:+ ruleType +:+ " to version " +:+ version);
    Stat RuleBasePath (RuleVersionManager.getRuleFilePath ruleType);
    Logged LWarn ("No current rule found for " +:+ ruleType +:+ ", skipping archive") ].

(** *** What the cleanup counts *)

(** An archive that [cleanupOldArchives] counts: a .md file whose [mtime]
    is before the cutoff. *)
Definition isOld (d : Disk) (cutoffDate : Z) (filename : string) : bool :=
  Js.endsWith filename ".md"
  && match archive d !! filename with
     | Some f => (getTime (mtime f) <? cutoffDate)%Z
     | None => false
     end.

(** The number [cleanupOldArchives] reports on a disk. *)
Definition markedForDeletion (d : Disk) (now : Date) (retentionDays : Z) : nat :=
  length (List.filter (isOld d (RuleVersionManager.cutoff now retentionDays))
            (map_to_list (archive d)).*1).


(** *** The deploy of the design document *)




(** One history entry for each completed deploy of [rs], run in [w]. *)
Definition oneEntryPerDeploy (ruleType : string) (rs : list DeployRequest) (w : World) : Prop :=
  ∃ before, historyCount ruleType w = Some before
    ∧ ((deployAll ruleType rs w).1 = Returned () →
       historyCount ruleType (deployAll ruleType rs w).2 = Some (before + length rs)).

(** *** Worked examples *)

Module Example.

Definition fresh : World :=
  {| disk := {| ruleBase := ∅; archive := ∅; metadata := ∅; refuses := λ _, None |};
     journal := [] |}.

Definition august : Date :=
  {| getTime := 1754006400000; toISOString := "2025-08-01T00:00:00.000Z" |}.

Definition september : Date :=
  {| getTime := 1756684800000; toISOString := "2025-09-01T00:00:00.000Z" |}.

Definition first : DeployRequest :=
  {| req_content := "Use uv."; req_version := "2025-08"; req_now := august |}.

Definition second : DeployRequest :=
  {| req_content := "Use ruff."; req_version := "2025-09"; req_now := september |}.

(** The world after the first deploy of the Python rules. *)
Definition deployedOnce : World := (archiveThenDeploy "python-best-practices" first fresh).2.

(** A disk with an active Java rule and one archive, of version 2024-06. *)
Definition java : World :=
  {| disk :=
       {| ruleBase := {[ "java-best-practices.md" := "Prefer records." ]};
          archive :=
            {[ "java-best-practices-2024-06-2024-06-01T00-00-00-000Z.md" :=
                 {| content := "Prefer streams."; mtime := august |} ]};
          metadata := ∅; refuses := λ _, None |};
     journal := [] |}.

Definition july : Date :=
  {| getTime := 1721001600000; toISOString := "2024-07-15T00:00:00.000Z" |}.

(** A disk with an active Java rule and one archive, made for version
    2024-07-hotfix; the history has the entry of that archive. *)
Definition hotfix : World :=
  {| disk :=
       {| ruleBase := {[ "java-best-practices.md" := "Prefer sealed types." ]};
          archive :=
            {[ "java-best-practices-2024-07-hotfix-2024-07-15T00-00-00-000Z.md" :=
                 {| content := "Prefer records."; mtime := july |} ]};
          metadata :=
            {[ "java-best-practices-history.json" :=
                 HistoryJson [archiveEntry "java-best-practices" "2024-07-hotfix" july] ]};
          refuses := λ _, None |};
     journal := [] |}.

Definition noSpace : Exn := JsError "ENOSPC: no space left on device, write".
Definition readOnlyFile : Exn := JsError "EACCES: permission denied, open".

(** The disk after the first deploy, with a metadata directory that takes
    no more writes. *)
Definition metadataFull : World :=
  {| disk :=
       {| ruleBase := ruleBase (disk deployedOnce);
          archive := archive (disk deployedOnce);
          metadata := metadata (disk deployedOnce);
          refuses := λ a, match a with
                          | Writing (WriteMeta _ _) => Some noSpace
                          | _ => None
                          end |};
     journal := [] |}.

(** The disk after the first deploy, with rule files that cannot be
    written. *)
Definition rulesReadOnly : World :=
  {| disk :=
       {| ruleBase := ruleBase (disk deployedOnce);
          archive := archive (disk deployedOnce);
          metadata := metadata (disk deployedOnce);
          refuses := λ a, match a with
                          | Writing (WriteRule _ _) => Some readOnlyFile
                          | _ => None
                          end |};
     journal := [] |}.

End Example.

(** *** The score: what it is measured against *)

(** The accumulators [a] are below [b]: the same weights were counted,
    and the weighted sum is not larger. *)
Definition below (a b : TrendAnalyzer.Acc) : Prop :=
  (TrendAnalyzer.priority a <= TrendAnalyzer.priority b)%Q
  ∧ TrendAnalyzer.factors a = TrendAnalyzer.factors b.

(** The accumulators of trends without a breaking change whose counted
    volumes are at their ceilings and whose growth factor is
    [growthFactor]. *)
Definition highest (github stackOverflow : bool) (growthFactor : Q) : TrendAnalyzer.Acc :=
  let a := {| TrendAnalyzer.priority := 0; TrendAnalyzer.factors := 0 |} in
  let a := if github then TrendAnalyzer.add 1 (Binary64.literal 0.3) a else a in
  let a := if stackOverflow then TrendAnalyzer.add 1 (Binary64.literal 0.2) a else a in
  let a := TrendAnalyzer.add growthFactor (Binary64.literal 0.3) a in
  TrendAnalyzer.add (Binary64.literal 0.2) (Binary64.literal 0.2) a.


(** The largest number [Math.random()] gives: the binary64 number next
    below 1. *)
Definition maxRandom : Q := 9007199254740991 # 9007199254740992.


(** Trends with the given counts and weekly growth, and no breaking
    change. *)
Definition trendsWith (repos questions growth : Q) : TrendAnalyzer.Trends :=
  {| TrendAnalyzer.githubTrends :=
       {| TrendAnalyzer.totalRepos := repos; TrendAnalyzer.averageStars := 0 |};
     TrendAnalyzer.stackOverflowTrends :=
       {| TrendAnalyzer.totalQuestions := questions; TrendAnalyzer.averageScore := 0 |};
     TrendAnalyzer.packageTrends :=
       {| TrendAnalyzer.downloads := 0; TrendAnalyzer.weeklyGrowth := growth |};
     TrendAnalyzer.documentationChanges := TrendAnalyzer.analyzeDocumentationChanges |}.

(** *** Worked examples of the scheduler and the queues *)

Module Scenario.

(** The weekly rule check, registered and not yet fired. *)
Definition registered : SchedulerService.State :=
  SchedulerService.scheduleTask "weekly-rule-check" "0 3 * * 0" Example.august
    (SchedulerService.initial true).

Definition quietTrends (score : Q) : TrendAnalyzer.TrendData :=
  {| TrendAnalyzer.trends :=
       {| TrendAnalyzer.githubTrends :=
            {| TrendAnalyzer.totalRepos := 0; TrendAnalyzer.averageStars := 0 |};
          TrendAnalyzer.stackOverflowTrends :=
            {| TrendAnalyzer.totalQuestions := 0; TrendAnalyzer.averageScore := 0 |};
          TrendAnalyzer.packageTrends :=
            {| TrendAnalyzer.downloads := 0; TrendAnalyzer.weeklyGrowth := 0 |};
          TrendAnalyzer.documentationChanges := {| TrendAnalyzer.breakingChanges := [] |} |};
     TrendAnalyzer.updatePriority := score;
     TrendAnalyzer.lastAnalyzed := Example.august |}.

(** Collaborators that all answer: the analysis scores 0.1. *)
Definition healthy : QueueService.Services :=
  {| QueueService.analyzeTechnology := λ _, Returned (quietTrends 0.1);
     QueueService.analyzeAllTechnologies := Returned ();
     QueueService.generateRules := λ _, Returned "Use uv.";
     QueueService.cleanup := Returned ();
     QueueService.sendAlert := Returned () |}.

(** Collaborators whose generator throws. *)
Definition failing : QueueService.Services :=
  {| QueueService.analyzeTechnology := λ _, Returned (quietTrends 0.9);
     QueueService.analyzeAllTechnologies := Returned ();
     QueueService.generateRules := λ _, Thrown (JsError "GenerationError: research timed out");
     QueueService.cleanup := Returned ();
     QueueService.sendAlert := Returned () |}.

(** A scheduled job for the Python rules. *)
Definition scheduled : QueueService.Job :=
  {| QueueService.jobId := "17";
     QueueService.data :=
       {| QueueService.technology := "python";
          QueueService.priority := QueueService.medium;
          QueueService.updateType := QueueService.minor;
          QueueService.context := Some "Monthly comprehensive update";
          QueueService.triggeredBy := QueueService.bySchedule |};
     QueueService.attemptsMade := 0 |}.

(** The same job as the queue of the plan holds it. *)
Definition planned : RuleUpdateQueue.RuleUpdateJob :=
  {| RuleUpdateQueue.job_technology := "python";
     RuleUpdateQueue.job_priority := QueueService.medium;
     RuleUpdateQueue.job_updateType := QueueService.minor |}.

(** An open socket whose [send] works. *)
Definition socket : NotificationService.WebSocket :=
  {| NotificationService.readyState := NotificationService.OPEN;
     NotificationService.sendThrows := false |}.

End Scenario.

(** *** The invariant of the subscription sets *)

(** A non-empty set of valid channels. *)
Definition good (subs : gset string) : Prop :=
  subs ≠ ∅ ∧ subs ⊆ list_to_set NotificationService.validChannels.

Definition Inv (st : NotificationService.State) : Prop :=
  map_Forall (λ _ c, good (NotificationService.subscriptions c)) (NotificationService.clients st).

(** ** Further properties of the version manager: what they speak about *)

(** [b] is not dated after [a]. *)
Definition notAfter (a b : RuleHistoryEntry) : Prop :=
  (getTime (date b) ≤ getTime (date a))%Z.

(** The version under which [rollbackToVersion] archives the active rule. *)
Definition rollbackBackupVersion (now : Date) : string :=
  "rollback-backup-" +:+ Js.beforeT (toISOString now).

(** The history entry [rollbackToVersion] records for the restored archive. *)
Definition rollbackEntry (version targetArchive : string) (now : Date) : RuleHistoryEntry :=
  {| version := version +:+ "-rollback";
     date := now;
     author := "AI Rules Management System";
     changes := ["Archived rule with reason: manual_rollback"];
     filePath := targetArchive |}.

(** A word of a file name: no hyphen and no dot in it. *)
Fixpoint word (s : string) : bool :=
  match s with
  | EmptyString => true
  | String c r => negb (Ascii.eqb c "-") && negb (Ascii.eqb c ".") && word r
  end.

(** The value [calculateChecksum] has after the loop, before [toString(16)]. *)
Definition checksumOf (content : string) : Z :=
  fold_left RuleVersionManager.checksumStep (Js.charCodes content) 0%Z.

(** ** The task functions of [setupScheduledTasks] *)

Module ScheduledTasks.

Import QueueService.

(** What a task function asks of the queue service, the notification
    service, the trend analyzer and the version manager, in order. *)
Inductive Action :=
| Add (queue : QueueName) (jobData : JobData) (priorityNumber : Z)
| SendSummary (type : string) (totalProcessed successful failed : nat)
    (technologies : list string)
| SendAlert (type : string) (message : string) (severity : TrendAnalyzer.Severity)
| BroadcastSystemStatus
| ClearCache
| CleanupOldArchives (retentionDays : Z).

(** The scheduler's collaborators: [takes] says whether [queue.add]
    resolves for a job; [notificationService] whether the optional
    service was given to the constructor. *)
Record Collaborators := {
  takes : QueueName → JobData → bool;
  notificationService : bool;
}.

(** A task function settles resolved ([true]) or rejected, having done
    its actions. *)
Definition Settled : Type := bool * list Action.

Definition add (k : Collaborators) (queue : QueueName) (jobData : JobData)
    : option Action :=
  if takes k queue jobData then Some (Add queue jobData (addPriority queue jobData))
  else None.

Definition notify (k : Collaborators) (a : Action) : list Action :=
  if notificationService k then [a] else [].

(** daily-trend-analysis *)
Definition dailyJob : JobData :=
  {| technology := ""; priority := medium; updateType := minor;
     context := None; triggeredBy := bySchedule |}.

Definition dailyTrendAnalysis (k : Collaborators) : Settled :=
  match add k TrendAnalysisQueue dailyJob with
  | Some a => (true, [a])
  | None => (false, [])
  end.

(** weekly-rule-check *)
Definition weeklyJob (technology : string) : JobData :=
  {| technology := technology; priority := high; updateType := major;
     context := Some "Weekly automated update based on trend analysis";
     triggeredBy := bySchedule |}.

Definition isHighPriority (entry : string * TrendAnalyzer.TrendData) : bool :=
  if Qlt_le_dec 0.7 (TrendAnalyzer.updatePriority entry.2) then true else false.

Definition highPriorityTechnologies (allTrends : list (string * TrendAnalyzer.TrendData))
    : list string :=
  map fst (List.filter isHighPriority allTrends).

(** The loop over the high-priority technologies: the first [add] that
    rejects ends the task function. *)
Fixpoint queueAll (k : Collaborators) (technologies : list string) (done : list Action)
    : Settled :=
  match technologies with
  | [] => (true, done)
  | technology :: rest =>
      match add k RuleGenerationQueue (weeklyJob technology) with
      | Some a => queueAll k rest (done ++ [a])
      | None => (false, done)
      end
  end.

Definition weeklyRuleCheck (k : Collaborators)
    (allTrends : list (string * TrendAnalyzer.TrendData)) : Settled :=
  let high := highPriorityTechnologies allTrends in
  match queueAll k high [] with
  | (true, done) =>
      (true, done ++ notify k (SendSummary "weekly-rule-check" (length allTrends)
                                 (length high) 0 high))
  | rejected => rejected
  end.

(** monthly-comprehensive-update *)
Definition monthlyJob (technology : string) : JobData :=
  {| technology := technology; priority := medium; updateType := major;
     context := Some "Monthly comprehensive update"; triggeredBy := bySchedule |}.

Record Tally := { successful : nat; failed : nat; queued : list Action }.

(** The loop over the supported technologies: an [add] that rejects is
    counted and the loop goes on. *)
Fixpoint queueEach (k : Collaborators) (technologies : list string) (t : Tally) : Tally :=
  match technologies with
  | [] => t
  | technology :: rest =>
      match add k RuleGenerationQueue (monthlyJob technology) with
      | Some a =>
          queueEach k rest {| successful := successful t + 1; failed := failed t;
                              queued := queued t ++ [a] |}
      | None =>
          queueEach k rest {| successful := successful t; failed := failed t + 1;
                              queued := queued t |}
      end
  end.

Definition monthlyComprehensiveUpdate (k : Collaborators)
    (supportedTechnologies : list string) : Settled :=
  let t := queueEach k supportedTechnologies
             {| successful := 0; failed := 0; queued := [] |} in
  (true, queued t ++ notify k (SendSummary "monthly-comprehensive-update"
                                 (length supportedTechnologies)
                                 (successful t) (failed t) supportedTechnologies)).

(** security-advisory-check *)
Definition isCritical (advisory : TrendAnalyzer.SecurityAdvisory) : bool :=
  match TrendAnalyzer.severity advisory with
  | TrendAnalyzer.SevCritical | TrendAnalyzer.SevHigh => true
  | _ => false
  end.

(** [titles.join(', ')] *)
Definition joinComma (l : list string) : string := String.concat ", " l.

Definition emergencyJob (technology : string)
    (criticalAdvisories : list TrendAnalyzer.SecurityAdvisory) : JobData :=
  {| technology := technology; priority := high; updateType := emergency;
     context := Some ("Security advisories found: "
                      +:+ joinComma (map TrendAnalyzer.sa_title criticalAdvisories));
     triggeredBy := bySchedule |}.

(** The loop over the supported technologies: [emergencyUpdates] and the
    actions done so far. *)
Fixpoint checkEach (k : Collaborators) (api : TrendAnalyzer.Credentials)
    (responses : string → TrendAnalyzer.Response TrendAnalyzer.RepositorySearch)
    (technologies : list string) (emergencyUpdates : list string) (done : list Action)
    : list string * list Action :=
  match technologies with
  | [] => (emergencyUpdates, done)
  | technology :: rest =>
      let advisories := TrendAnalyzer.checkSecurityAdvisories api (responses technology) in
      let criticalAdvisories := List.filter isCritical advisories in
      if decide (0 < length criticalAdvisories)%nat then
        match add k EmergencyUpdateQueue (emergencyJob technology criticalAdvisories) with
        | Some a => checkEach k api responses rest (emergencyUpdates ++ [technology])
                      (done ++ [a])
        | None => checkEach k api responses rest emergencyUpdates done
        end
      else checkEach k api responses rest emergencyUpdates done
  end.

Definition securityAdvisoryCheck (k : Collaborators) (api : TrendAnalyzer.Credentials)
    (responses : string → TrendAnalyzer.Response TrendAnalyzer.RepositorySearch)
    (supportedTechnologies : list string) : Settled :=
  let (emergencyUpdates, done) := checkEach k api responses supportedTechnologies [] [] in
  (true,
   done ++ (if decide (0 < length emergencyUpdates)%nat
            then notify k (SendAlert "security-emergency-updates"
                             ("Emergency security updates queued for: "
                              +:+ joinComma emergencyUpdates)
                             TrendAnalyzer.SevCritical)
            else [])).

(** system-health-check *)
Record JobCounts := { stats_waiting : nat; stats_failed : nat }.

Definition queueAlerts (entry : string * JobCounts) : list string :=
  (if decide (10 < stats_failed entry.2)%nat
   then ["High failure count in " +:+ entry.1 +:+ ": " +:+ pretty (stats_failed entry.2)
         +:+ " failed jobs"]
   else [])
  ++ (if decide (50 < stats_waiting entry.2)%nat
      then ["High waiting count in " +:+ entry.1 +:+ ": " +:+ pretty (stats_waiting entry.2)
            +:+ " waiting jobs"]
      else []).

(** [alerts.join('; ')] *)
Definition joinSemicolon (l : list string) : string := String.concat "; " l.

(** [getQueueStats] answers the counts of the three queues or rejects;
    the catch block of the task function swallows the rejection. *)
Definition systemHealthCheck (k : Collaborators)
    (queueStats : option (list (string * JobCounts))) : Settled :=
  match queueStats with
  | None => (true, [])
  | Some stats =>
      let alerts := flat_map queueAlerts stats in
      (true,
       (if decide (0 < length alerts)%nat
        then notify k (SendAlert "system-health-alert" (joinSemicolon alerts)
                         TrendAnalyzer.SevMedium)
        else [])
       ++ notify k BroadcastSystemStatus)
  end.

(** cache-cleanup: a rejection of [cleanupOldArchives] is swallowed by the
    catch block. *)
Definition cacheCleanup (retentionMonths : Z) : Settled :=
  (true, [ClearCache; CleanupOldArchives (retentionMonths * 30)]).

End ScheduledTasks.

(** ** What the trend analysis and the task functions are measured against *)

(** The trends one analysis puts together from its sources. *)
Definition trendsOf (api : TrendAnalyzer.Credentials) (src : TrendAnalyzer.Sources)
    : TrendAnalyzer.Trends :=
  {| TrendAnalyzer.githubTrends :=
       TrendAnalyzer.analyzeGitHubTrends (TrendAnalyzer.githubToken api)
         (TrendAnalyzer.repositories src);
     TrendAnalyzer.stackOverflowTrends :=
       TrendAnalyzer.analyzeStackOverflowTrends (TrendAnalyzer.stackoverflowApiKey api)
         (TrendAnalyzer.questions src);
     TrendAnalyzer.packageTrends :=
       TrendAnalyzer.analyzePackageTrends (TrendAnalyzer.downloadsDraw src)
         (TrendAnalyzer.growthDraw src);
     TrendAnalyzer.documentationChanges := TrendAnalyzer.analyzeDocumentationChanges |}.

(** The trend data of an analysis that does not come from the cache. *)
Definition analysed (api : TrendAnalyzer.Credentials) (src : TrendAnalyzer.Sources)
    (now : Date) : TrendAnalyzer.TrendData :=
  {| TrendAnalyzer.trends := trendsOf api src;
     TrendAnalyzer.updatePriority := TrendAnalyzer.calculateUpdatePriority (trendsOf api src);
     TrendAnalyzer.lastAnalyzed := now |}.

(** GitHub answered with a positive repository count. *)
Definition repositoriesFound (api : TrendAnalyzer.Credentials) (src : TrendAnalyzer.Sources)
    : Prop :=
  TrendAnalyzer.githubToken api = true
  ∧ ∃ data, TrendAnalyzer.repositories src = TrendAnalyzer.Ok data
            ∧ (0 < TrendAnalyzer.orZero (TrendAnalyzer.total_count data))%Q.

(** Stack Overflow answered with a positive question count. *)
Definition questionsFound (api : TrendAnalyzer.Credentials) (src : TrendAnalyzer.Sources)
    : Prop :=
  TrendAnalyzer.stackoverflowApiKey api = true
  ∧ ∃ data, TrendAnalyzer.questions src = TrendAnalyzer.Ok data
            ∧ (0 < TrendAnalyzer.orZero (TrendAnalyzer.total data))%Q.

(** Sample surroundings of the scheduler. *)
Module Sample.

Definition api : TrendAnalyzer.Credentials :=
  {| TrendAnalyzer.githubToken := true; TrendAnalyzer.stackoverflowApiKey := true |}.

(** A technology with 20000 repositories and 5000 questions, and a growth
    draw of 0.9. *)
Definition popular : TrendAnalyzer.Sources :=
  {| TrendAnalyzer.repositories :=
       TrendAnalyzer.Ok {| TrendAnalyzer.total_count := Some 20000%Q;
                           TrendAnalyzer.items := None |};
     TrendAnalyzer.questions :=
       TrendAnalyzer.Ok {| TrendAnalyzer.total := Some 5000%Q;
                           TrendAnalyzer.scores := None |};
     TrendAnalyzer.downloadsDraw := 0.5%Q;
     TrendAnalyzer.growthDraw := 0.9%Q |}.

(** The same technology an hour later, when GitHub does not answer. *)
Definition unreachable : TrendAnalyzer.Sources :=
  {| TrendAnalyzer.repositories := TrendAnalyzer.Rejects;
     TrendAnalyzer.questions := TrendAnalyzer.Rejects;
     TrendAnalyzer.downloadsDraw := 0.1%Q;
     TrendAnalyzer.growthDraw := 0.1%Q |}.

Definition hourLater : Date :=
  {| getTime := 1754010000000; toISOString := "2025-08-01T01:00:00.000Z" |}.

(** A queue service that takes every job but those for rust, with a
    notification service. *)
Definition collaborators : ScheduledTasks.Collaborators :=
  {| ScheduledTasks.takes :=
       λ _ jobData, negb (String.eqb (QueueService.technology jobData) "rust");
     ScheduledTasks.notificationService := true |}.

End Sample.

(** ** NotificationService: broadcasts and the heartbeat *)

Module NotificationBroadcast.

Import NotificationService.

(** The test of the loop of [broadcast]:
    [client.subscriptions.has(channel) && client.ws.readyState === WebSocket.OPEN]. *)
Definition listens (channel : string) (client : ConnectedClient) : bool :=
  bool_decide (channel ∈ subscriptions client) && isOpen (ws client).

(** One turn of the loop of [broadcast]: the clients sent to so far and
    the clients map. *)
Definition broadcastTo (channel : string)
    (acc : list string * gmap string ConnectedClient)
    (entry : string * ConnectedClient) : list string * gmap string ConnectedClient :=
  if listens channel entry.2 then
    if sendThrows (ws entry.2) then (acc.1, delete entry.1 acc.2)
    else ((acc.1 ++ [entry.1])%list, acc.2)
  else acc.

(** [broadcast]: who the message was sent to, and the clients left. The
    clients are visited in the order of [map_to_list], which need not be
    the order in which they connected. *)
Definition broadcast (channel : string) (clients : gmap string ConnectedClient)
    : list string * gmap string ConnectedClient :=
  fold_left (broadcastTo channel) (map_to_list clients) ([], clients).

(** A delivery: the client and the channel of the message. *)
Definition onChannel (channel : string) (recipients : list string)
    : list (string * string) :=
  map (λ clientId, (clientId, channel)) recipients.

(** [sendAlert] *)
Definition sendAlert (severity : TrendAnalyzer.Severity)
    (clients : gmap string ConnectedClient)
    : list (string * string) * gmap string ConnectedClient :=
  let (first, clients) := broadcast "emergency-alerts" clients in
  match severity with
  | TrendAnalyzer.SevHigh | TrendAnalyzer.SevCritical =>
      let (second, clients) := broadcast "general" clients in
      ((onChannel "emergency-alerts" first ++ onChannel "general" second)%list, clients)
  | _ => (onChannel "emergency-alerts" first, clients)
  end.

(** [sendSummary] *)
Definition sendSummary (clients : gmap string ConnectedClient)
    : list (string * string) * gmap string ConnectedClient :=
  let (recipients, clients) := broadcast "general" clients in
  (onChannel "general" recipients, clients).

(** [broadcastUpdate]; [isMajor] is [update.updateType === 'major']. *)
Definition broadcastUpdate (isMajor : bool) (clients : gmap string ConnectedClient)
    : list (string * string) * gmap string ConnectedClient :=
  let (first, clients) := broadcast "rule-updates" clients in
  if isMajor then
    let (second, clients) := broadcast "general" clients in
    ((onChannel "rule-updates" first ++ onChannel "general" second)%list, clients)
  else (onChannel "rule-updates" first, clients).

(** [addToHistory]: the history keeps its last [maxHistorySize] messages. *)
Definition maxHistorySize : nat := 1000.

Definition addToHistory {A} (message : A) (messageHistory : list A) : list A :=
  let messageHistory := (messageHistory ++ [message])%list in
  if decide (maxHistorySize < length messageHistory)%nat
  then drop (length messageHistory - maxHistorySize) messageHistory
  else messageHistory.

(** The heartbeat. *)
Definition staleTimeout : Z := 5 * 60 * 1000.

Definition isStale (now : Date) (client : ConnectedClient) : bool :=
  bool_decide (staleTimeout < getTime now - getTime (lastActivity client))%Z.

(** One turn of the loop of [startHeartbeat]; [pingThrows] says for which
    clients [ws.ping()] throws. *)
Definition heartbeatOne (pingThrows : string → bool) (now : Date)
    (clients : gmap string ConnectedClient) (entry : string * ConnectedClient)
    : gmap string ConnectedClient :=
  if isOpen (ws entry.2) then
    let clients := if pingThrows entry.1 then delete entry.1 clients else clients in
    if isStale now entry.2 then delete entry.1 clients else clients
  else delete entry.1 clients.

Definition heartbeat (pingThrows : string → bool) (now : Date)
    (clients : gmap string ConnectedClient) : gmap string ConnectedClient :=
  fold_left (heartbeatOne pingThrows now) (map_to_list clients) clients.

(** A client the heartbeat keeps. *)
Definition alive (pingThrows : string → bool) (now : Date) (clientId : string)
    (client : ConnectedClient) : bool :=
  isOpen (ws client) && negb (pingThrows clientId) && negb (isStale now client).

(** A client a broadcast on [channel] reaches. *)
Definition reached (channel : string) (client : ConnectedClient) : bool :=
  listens channel client && negb (sendThrows (ws client)).

End NotificationBroadcast.

(** An operator's dashboard: connected in August, subscribed to the
    default channel and to the emergency alerts. *)
Module Dashboard.

Definition operator : NotificationService.ConnectedClient :=
  {| NotificationService.id := "client_1754006400000_k3j9x2m1q";
     NotificationService.ws := Scenario.socket;
     NotificationService.subscriptions := {["general"; "emergency-alerts"]};
     NotificationService.connectedAt := Example.august;
     NotificationService.lastActivity := Example.august |}.

Definition connected : gmap string NotificationService.ConnectedClient :=
  {[ "client_1754006400000_k3j9x2m1q" := operator ]}.

End Dashboard.

(** ** What the scheduler's counters count *)

(** A settled invocation of the task function of [name] that rejected. *)
Definition rejected (name : string) (t : SchedulerService.Trace) : bool :=
  match t with
  | SchedulerService.TaskSettled n false => bool_decide (n = name)
  | _ => false
  end.

Definition count (p : SchedulerService.Trace → bool) (tr : list SchedulerService.Trace)
    : nat :=
  length (List.filter p tr).

(** Every registered task is filed under its name, and its counters agree
    with the trace: [runCount] with the calls of its task function,
    [errorCount] with the calls that rejected. *)
Definition Counted (st : SchedulerService.State) : Prop :=
  ∀ name t,
    SchedulerService.scheduledTasks st !! name = Some t →
    SchedulerService.name t = name
    ∧ SchedulerService.runCount t = count (SchedulerService.started name)
                                      (SchedulerService.trace st)
    ∧ SchedulerService.errorCount t = count (rejected name) (SchedulerService.trace st).

(** The failure alerts the scheduler has sent. *)
Definition isAlert (t : SchedulerService.Trace) : bool :=
  match t with
  | SchedulerService.AlertSent _ _ => true
  | _ => false
  end.

(** The cron callback of a task from the call of its task function on,
    the task function settling as [result] says. *)
Definition settleWith (name : string) (result : ScheduledTasks.Settled) (alertFails : bool)
    (st : SchedulerService.State) : SchedulerService.State :=
  SchedulerService.settle name result.1 alertFails st.

(** ** What a rule generation job works on *)

(** The configuration [processRuleGeneration] gives the generator. *)
Definition generationConfig (job : QueueService.Job) (now : Date)
    (trends : TrendAnalyzer.TrendData) : QueueService.RuleGenerationConfig :=
  {| QueueService.cfg_technology := QueueService.technology (QueueService.data job);
     QueueService.cfg_year := fullYear now;
     QueueService.cfg_trends := trends;
     QueueService.cfg_additionalContext := QueueService.context (QueueService.data job);
     QueueService.cfg_includeExamples := true;
     QueueService.cfg_includeReferences := true |}.

(** The rule type and the version label of a job run at [now]. *)
Definition ruleTypeOf (job : QueueService.Job) : string :=
  QueueService.technology (QueueService.data job) +:+ "-best-practices".

Definition versionAt (now : Date) : string := fullYear now +:+ "-" +:+ paddedMonth now.

(** ** The queues of QueueService under Bull *)

(** What Bull does with the jobs of a queue is library behaviour, taken
    here as its documentation gives it: a queue keeps its waiting jobs
    ordered by priority number, the lower number first and jobs of equal
    number in order of arrival; a processor registered with concurrency
    [n] works on at most [n] jobs of its queue at a time, and a worker
    that is free takes the head of the wait list of its own queue. Queues
    do not know of each other. *)
Module Lanes.

Import QueueService.

(** A waiting job with the priority number given to [queue.add]. *)
Record Waiting (J : Type) := { number : Z; waitingJob : J }.
Arguments number {J} _.
Arguments waitingJob {J} _.

(** One queue with the processor registered on it. *)
Record Lane (J : Type) := {
  waiting : list (Waiting J);
  active : list J;
  concurrency : nat;
}.
Arguments waiting {J} _.
Arguments active {J} _.
Arguments concurrency {J} _.

(** [queue.add(data, {priority})]: behind the waiting jobs whose number
    is not larger. *)
Fixpoint enqueue {J} (x : Waiting J) (l : list (Waiting J)) : list (Waiting J) :=
  match l with
  | [] => [x]
  | y :: r => if (number x <? number y)%Z then x :: y :: r else y :: enqueue x r
  end.

(** The free workers take the jobs at the head of the wait list: the jobs
    taken, and the queue they leave. *)
Definition dispatch {J} (lane : Lane J) : list J * Lane J :=
  let free := concurrency lane - length (active lane) in
  let taken := waitingJob <$> take free (waiting lane) in
  (taken,
   {| waiting := drop free (waiting lane);
      active := active lane ++ taken;
      concurrency := concurrency lane |}).

Definition add {J} (priorityNumber : Z) (job : J) (lane : Lane J) : list J * Lane J :=
  dispatch {| waiting := enqueue {| number := priorityNumber; waitingJob := job |}
                           (waiting lane);
              active := active lane;
              concurrency := concurrency lane |}.

(** The promise of a processor settles: its worker is free again. *)
Definition settle {J} (settled : J → bool) (lane : Lane J) : list J * Lane J :=
  dispatch {| waiting := waiting lane;
              active := List.filter (λ job, negb (settled job)) (active lane);
              concurrency := concurrency lane |}.

(** [queue.process(concurrency, processor)] on a new queue. *)
Definition process {J} (concurrency : nat) : Lane J :=
  {| waiting := []; active := []; concurrency := concurrency |}.

(** The three queues of the constructor, and the jobs whose processor
    has been started, in the order of their start. *)
Record Queues := {
  ruleGenerationQueue : Lane Job;
  trendAnalysisQueue : Lane Job;
  emergencyUpdateQueue : Lane Job;
  started : list (QueueName * Job);
}.


Definition getQueueByName (name : QueueName) (qs : Queues) : Lane Job :=
  match name with
  | RuleGenerationQueue => ruleGenerationQueue qs
  | TrendAnalysisQueue => trendAnalysisQueue qs
  | EmergencyUpdateQueue => emergencyUpdateQueue qs
  end.

(** The queues after queue [name] has started [taken] and become [lane]. *)
Definition update (name : QueueName) (r : list Job * Lane Job) (qs : Queues) : Queues :=
  let log := started qs ++ ((λ job, (name, job)) <$> r.1) in
  match name with
  | RuleGenerationQueue =>
      {| ruleGenerationQueue := r.2; trendAnalysisQueue := trendAnalysisQueue qs;
         emergencyUpdateQueue := emergencyUpdateQueue qs; started := log |}
  | TrendAnalysisQueue =>
      {| ruleGenerationQueue := ruleGenerationQueue qs; trendAnalysisQueue := r.2;
         emergencyUpdateQueue := emergencyUpdateQueue qs; started := log |}
  | EmergencyUpdateQueue =>
      {| ruleGenerationQueue := ruleGenerationQueue qs;
         trendAnalysisQueue := trendAnalysisQueue qs;
         emergencyUpdateQueue := r.2; started := log |}
  end.

(** What happens to the queues: [addRuleGenerationJob],
    [addTrendAnalysisJob] or [addEmergencyUpdateJob] adds a job, or the
    processor of a job settles. *)
Inductive Event :=
| Added (name : QueueName) (job : Job)
| Settled (name : QueueName) (id : string).

Definition step (e : Event) (qs : Queues) : Queues :=
  match e with
  | Added name job =>
      update name (add (addPriority name (data job)) job (getQueueByName name qs)) qs
  | Settled name id =>
      update name (settle (λ job, String.eqb (jobId job) id) (getQueueByName name qs)) qs
  end.

Definition run (events : list Event) (qs : Queues) : Queues :=
  fold_left (λ qs e, step e qs) events qs.




(** *** The single queue of the implementation plan *)

(** The priority number [scheduleRuleUpdate] gives to [queue.add]. *)
Definition planPriorityNumber (priority : Priority) : Z :=
  match priority with
  | high => 1
  | medium => 2
  | low => 3
  end.

(** [scheduleRuleUpdate] and [scheduleEmergencyUpdate] on the queue of
    [RuleUpdateQueue], whose processor has concurrency 3. *)
Definition scheduleRuleUpdate (technology : string) (priority : Priority)
    (queue : Lane RuleUpdateQueue.RuleUpdateJob)
    : list RuleUpdateQueue.RuleUpdateJob * Lane RuleUpdateQueue.RuleUpdateJob :=
  add (planPriorityNumber priority)
    {| RuleUpdateQueue.job_technology := technology;
       RuleUpdateQueue.job_priority := priority;
       RuleUpdateQueue.job_updateType := major |} queue.

Definition scheduleEmergencyUpdate (technology : string)
    (queue : Lane RuleUpdateQueue.RuleUpdateJob)
    : list RuleUpdateQueue.RuleUpdateJob * Lane RuleUpdateQueue.RuleUpdateJob :=
  add 1
    {| RuleUpdateQueue.job_technology := technology;
       RuleUpdateQueue.job_priority := high;
       RuleUpdateQueue.job_updateType := emergency |} queue.

(** *** Worked examples *)


Definition emergencyJob (id technology : string) : Job :=
  {| jobId := id;
     data := {| technology := technology; priority := high; updateType := emergency;
                context := Some "Security advisory"; triggeredBy := byEmergency |};
     attemptsMade := 0 |}.




End Lanes.

(** * Properties *)

(** ** The journal and the disk *)

Section Journal.

Lemma replay_app (j1 j2 : list Effect) (d : Disk) :
  replay (j1 ++ j2) d = replay j2 (replay j1 d).
Proof. unfold replay. apply fold_left_app. Qed.

(** No effect changes what the disk refuses. *)
Lemma refuses_applyEffect (e : Effect) (d : Disk) :
  refuses (applyEffect d e) = refuses d.
Proof. destruct e as [| | | |[]|[]| |]; reflexivity. Qed.

Lemma refuses_replay (j : list Effect) (d : Disk) : refuses (replay j d) = refuses d.
Proof.
  revert d. induction j as [|e j IH]; intros d; [done|].
  change (replay (e :: j) d) with (replay j (applyEffect d e)).
  by rewrite IH, refuses_applyEffect.
Qed.

Lemma Working_replay (j : list Effect) (d : Disk) : Working d → Working (replay j d).
Proof. intros H a. by rewrite refuses_replay. Qed.

Lemma replay_readOnly (j : list Effect) (d : Disk) :
  Forall readOnly j → replay j d = d.
Proof.
  intros H. revert d. induction H as [|e j He _ IH]; intros d; [done|].
  change (replay (e :: j) d) with (replay j (applyEffect d e)).
  rewrite IH. by destruct e.
Qed.

Context (ok : Effect → Prop).

Lemma Traced_ret {A} (a : A) : Traced ok (ret a).
Proof. intros w. exists []. by rewrite app_nil_r. Qed.

Lemma Traced_throw {A} (e : Exn) : Traced ok (@throw A e).
Proof. intros w. exists []. by rewrite app_nil_r. Qed.

Lemma Traced_inspect {A} (f : Disk → Outcome A) : Traced ok (inspect f).
Proof. intros w. exists []. by rewrite app_nil_r. Qed.

Lemma Traced_answer {A} (o : Outcome A) : Traced ok (λ w, (o, w)).
Proof. intros w. exists []. by rewrite app_nil_r. Qed.

Lemma Traced_emit (e : Effect) : ok e → readOnly e → Traced ok (emit e).
Proof.
  intros He Hr w. exists [e]. repeat split; [by constructor|].
  simpl. by destruct e.
Qed.

Lemma Traced_log (l : Level) (msg : string) : ok (Logged l msg) → Traced ok (log l msg).
Proof. intros H. by apply Traced_emit. Qed.

Lemma Traced_writeFile (wr : Write) : ok (Wrote wr) → Traced ok (Fs.writeFile wr).
Proof.
  intros He w. unfold Fs.writeFile. destruct (refuses (disk w) (Writing wr)).
  - exists []. by rewrite app_nil_r.
  - exists [Wrote wr]. repeat split. by constructor.
Qed.

Lemma Traced_bind {A B} (m : IO A) (k : A → IO B) :
  Traced ok m → (∀ a, Traced ok (k a)) → Traced ok (bind m k).
Proof.
  intros Hm Hk w. unfold bind.
  destruct (Hm w) as (j1 & Hj1 & Hok1 & Hd1).
  destruct (m w) as [[a|e] w1]; simpl in *.
  - destruct (Hk a w1) as (j2 & Hj2 & Hok2 & Hd2).
    exists (j1 ++ j2). rewrite Hj2, Hj1, Hd2, Hd1, replay_app, app_assoc.
    repeat split. by apply Forall_app.
  - by exists j1.
Qed.

Lemma Traced_tryCatch {A} (m : IO A) (h : Exn → IO A) :
  Traced ok m → (∀ e, Traced ok (h e)) → Traced ok (tryCatch m h).
Proof.
  intros Hm Hh w. unfold tryCatch.
  destruct (Hm w) as (j1 & Hj1 & Hok1 & Hd1).
  destruct (m w) as [[a|e] w1]; simpl in *.
  - by exists j1.
  - destruct (Hh e w1) as (j2 & Hj2 & Hok2 & Hd2).
    exists (j1 ++ j2). rewrite Hj2, Hj1, Hd2, Hd1, replay_app, app_assoc.
    repeat split. by apply Forall_app.
Qed.

End Journal.

Lemma effectsOf_Traced {A} (ok : Effect → Prop) (m : IO A) (w : World) :
  Traced ok m →
  journal (m w).2 = (journal w ++ effectsOf m w)%list
  ∧ Forall ok (effectsOf m w)
  ∧ disk (m w).2 = replay (effectsOf m w) (disk w).
Proof.
  intros H. destruct (H w) as (j & Hj & Hok & Hd).
  unfold effectsOf. rewrite Hj, drop_app_length. by rewrite Hd.
Qed.

(** The methods of [RuleVersionManager] that only look at the disk. *)
Section ReadOnly.

Ltac traced := unfold Fs.statArchive, Fs.readdirArchive; repeat
  (first [ apply Traced_bind; [|intros ?] | apply Traced_tryCatch; [|intros ?]
         | apply Traced_ret | apply Traced_throw | apply Traced_inspect
         | apply Traced_log; exact I | apply Traced_emit; exact I ]).

Lemma cleanupOne_readOnly cutoffDate n filename :
  Traced readOnly (RuleVersionManager.cleanupOne cutoffDate n filename).
Proof.
  unfold RuleVersionManager.cleanupOne.
  destruct (negb _); [apply Traced_ret|].
  apply Traced_bind; [traced|]. intros mt.
  destruct (_ <? _)%Z; traced.
Qed.

Lemma cleanupLoop_readOnly cutoffDate files :
  ∀ n, Traced readOnly (RuleVersionManager.cleanupLoop cutoffDate n files).
Proof.
  induction files as [|f files IH]; intros n; simpl.
  - apply Traced_ret.
  - apply Traced_bind; [apply cleanupOne_readOnly | intros ?; apply IH].
Qed.

Lemma cleanupOldArchives_readOnly retentionDays now :
  Traced readOnly (RuleVersionManager.cleanupOldArchives retentionDays now).
Proof.
  unfold RuleVersionManager.cleanupOldArchives.
  apply Traced_bind; [traced | intros _].
  apply Traced_tryCatch; [|intros ?; traced].
  apply Traced_bind; [traced | intros files].
  apply Traced_bind; [apply cleanupLoop_readOnly | intros ?; traced].
Qed.

End ReadOnly.

(** The loop counts the old archives and changes nothing. *)
Section Count.

Import RuleVersionManager.

Lemma cleanupOne_count (cutoffDate : Z) (n : nat) (filename : string) (w : World) :
  is_Some (archive (disk w) !! filename) →
  ∃ j, cleanupOne cutoffDate n filename w
       = (Returned (n + if isOld (disk w) cutoffDate filename then 1 else 0),
          {| disk := disk w; journal := journal w ++ j |}).
Proof.
  intros [f Hf]. unfold cleanupOne, isOld.
  destruct (Js.endsWith filename ".md"); simpl.
  - unfold Fs.statArchive, Fs.lookupOr, bind, emit, inspect, log, ret. simpl.
    rewrite Hf. simpl. destruct (_ <? _)%Z; simpl.
    + eexists. by rewrite <- app_assoc.
    + eexists. by rewrite Nat.add_0_r.
  - exists []. unfold ret. rewrite app_nil_r, Nat.add_0_r. by destruct w.
Qed.

Lemma cleanupLoop_count (cutoffDate : Z) (files : list string) :
  ∀ (n : nat) (w : World),
    Forall (λ f, is_Some (archive (disk w) !! f)) files →
    ∃ j, cleanupLoop cutoffDate n files w
         = (Returned (n + length (List.filter (isOld (disk w) cutoffDate) files)),
            {| disk := disk w; journal := journal w ++ j |}).
Proof.
  induction files as [|f files IH]; intros n w Hall; simpl.
  - exists []. unfold ret. rewrite app_nil_r, Nat.add_0_r. by destruct w.
  - apply Forall_cons in Hall as [Hf Hall].
    destruct (cleanupOne_count cutoffDate n f w Hf) as [j1 E1].
    unfold bind. rewrite E1.
    destruct (IH (n + if isOld (disk w) cutoffDate f then 1 else 0)
                {| disk := disk w; journal := journal w ++ j1 |} Hall) as [j2 E2].
    rewrite E2. simpl. exists (j1 ++ j2). rewrite app_assoc. do 2 f_equal.
    destruct (isOld (disk w) cutoffDate f); simpl; lia.
Qed.

Lemma readdir_exist (w : World) :
  Forall (λ f, is_Some (archive (disk w) !! f)) (map_to_list (archive (disk w))).*1.
Proof.
  apply Forall_forall. intros f Hf.
  apply list_elem_of_fmap in Hf as ([k v] & -> & H).
  apply elem_of_map_to_list in H. simpl. by exists v.
Qed.

Lemma cleanupOldArchives_run (retentionDays : Z) (now : Date) (w : World) :
  ∃ j, cleanupOldArchives retentionDays now w
       = (Returned (),
          {| disk := disk w;
             journal := journal w ++ j
               ++ [Logged LInfo ("Archive cleanup completed, markedForDeletion: "
                                 +:+ pretty (markedForDeletion (disk w) now retentionDays))] |}).
Proof.
  set (start := Logged LInfo ("Cleaning up archives older than "
                              +:+ pretty retentionDays +:+ " days")).
  set (w1 := {| disk := disk w; journal := (journal w ++ [start]) ++ [Readdir ArchivePath] |}).
  destruct (cleanupLoop_count (cutoff now retentionDays) _ 0 w1 (readdir_exist w))
    as [j E].
  exists ([start; Readdir ArchivePath] ++ j).
  unfold cleanupOldArchives, Fs.readdirArchive, bind, tryCatch, log, emit, inspect.
  fold start. cbv beta iota. cbn [disk journal]. fold w1.
  change (disk w1) with (disk w) in E. rewrite E.
  cbv beta iota. unfold markedForDeletion.
  rewrite Nat.add_0_l. subst w1. cbn [disk journal]. by rewrite <- !app_assoc.
Qed.

End Count.

(** C9. For every retention period and every disk, [cleanupOldArchives]
    deletes no file: it reads the archive directory, counts the .md files
    older than the cutoff and logs that number, so the archive files, the
    rule files and the metadata are the same after every call, and a second
    call finds the disk of the first. *)
Theorem cleanupOldArchives_deletes_nothing (retentionDays : Z) (now later : Date) (w : World) :
  let w1 := (RuleVersionManager.cleanupOldArchives retentionDays now w).2 in
  let w2 := (RuleVersionManager.cleanupOldArchives retentionDays later w1).2 in
  disk w1 = disk w
  ∧ dom (archive (disk w1)) = dom (archive (disk w))
  ∧ activeContent (disk w1) = activeContent (disk w)
  ∧ Forall readOnly (effectsOf (RuleVersionManager.cleanupOldArchives retentionDays now) w)
  ∧ disk w2 = disk w
  ∧ (RuleVersionManager.cleanupOldArchives retentionDays now w).1 = Returned ()
  ∧ last (journal w1)
    = Some (Logged LInfo ("Archive cleanup completed, markedForDeletion: "
                          +:+ pretty (markedForDeletion (disk w) now retentionDays))).
Proof.
  intros w1 w2.
  assert (Hrun : (RuleVersionManager.cleanupOldArchives retentionDays now w).1 = Returned ()
                 ∧ last (journal w1)
                   = Some (Logged LInfo
                             ("Archive cleanup completed, markedForDeletion: "
                              +:+ pretty (markedForDeletion (disk w) now retentionDays)))).
  { subst w1. destruct (cleanupOldArchives_run retentionDays now w) as [j ->].
    cbn [fst snd journal]. split; [done|]. by rewrite !app_assoc, last_snoc. }
  destruct Hrun as [Hret Hlast].
  destruct (effectsOf_Traced readOnly _ w (cleanupOldArchives_readOnly retentionDays now))
    as (_ & Hok & Hd).
  assert (H1 : disk w1 = disk w) by (subst w1; rewrite Hd; by apply replay_readOnly).
  destruct (effectsOf_Traced readOnly _ w1 (cleanupOldArchives_readOnly retentionDays later))
    as (_ & Hok2 & Hd2).
  assert (H2 : disk w2 = disk w1) by (subst w2; rewrite Hd2; by apply replay_readOnly).
  repeat split; [done | by rewrite H1 | by rewrite H1 | done | by rewrite H2 | done | done].
Qed.

(** ** Rollback to a version that was never archived *)

Section Rollback.

Lemma find_None {A} (f : A → bool) (l : list A) :
  (∀ x, x ∈ l → f x = false) → List.find f l = None.
Proof.
  induction l as [|a l IH]; intros H; simpl; [done|].
  rewrite (H a) by constructor. apply IH. intros x Hx. apply H. by constructor.
Qed.

Lemma readdir_names {V} (m : gmap string V) (file : string) :
  file ∈ (map_to_list m).*1 → is_Some (m !! file).
Proof.
  intros H. apply list_elem_of_fmap in H as ([k v] & -> & H).
  apply elem_of_map_to_list in H. simpl. by exists v.
Qed.

(** When no file of the archive directory passes the file name test of
    [rollbackToVersion] (its name starts with ruleType-targetVersion- and
    ends with .md), [rollbackToVersion] throws the error "Archive not
    found" and leaves every file as it was: the active content, its
    recorded checksum and all metadata. *)
Lemma rollback_missing_version (ruleType targetVersion : string) (now : Date) (w : World) :
  (∀ file, is_Some (archive (disk w) !! file) →
           RuleVersionManager.isArchiveOf ruleType targetVersion file = false) →
  let r := RuleVersionManager.rollbackToVersion ruleType targetVersion now w in
  r.1 = Thrown (archiveNotFound ruleType targetVersion)
  ∧ disk r.2 = disk w
  ∧ activeContent (disk r.2) ruleType = activeContent (disk w) ruleType
  ∧ recordedChecksum (disk r.2) ruleType = recordedChecksum (disk w) ruleType
  ∧ Forall readOnly (effectsOf (RuleVersionManager.rollbackToVersion ruleType targetVersion now) w).
Proof.
  intros Hnone.
  assert (Hfind : List.find (RuleVersionManager.isArchiveOf ruleType targetVersion)
                    (map_to_list (archive (disk w))).*1 = None).
  { apply find_None. intros file Hin. apply Hnone. by apply readdir_names. }
  unfold effectsOf, RuleVersionManager.rollbackToVersion, Fs.readdirArchive,
    bind, tryCatch, log, emit, inspect, throw. simpl.
  rewrite Hfind. simpl.
  rewrite <- !app_assoc, drop_app_length. simpl.
  repeat split. repeat constructor.
Qed.

Lemma rollback_missing_version_witness :
  let r := RuleVersionManager.rollbackToVersion "java-best-practices" "2024-07"
             Example.september Example.java in
  (∀ file, is_Some (archive (disk Example.java) !! file) →
           RuleVersionManager.isArchiveOf "java-best-practices" "2024-07" file = false)
  ∧ r.1 = Thrown (archiveNotFound "java-best-practices" "2024-07")
  ∧ disk r.2 = disk Example.java.
Proof.
  intros r.
  assert (H : ∀ file, is_Some (archive (disk Example.java) !! file) →
            RuleVersionManager.isArchiveOf "java-best-practices" "2024-07" file = false).
  { intros file [x Hx]. simpl in Hx. apply lookup_singleton_Some in Hx as [<- _].
    reflexivity. }
  split; [exact H|].
  pose proof (rollback_missing_version "java-best-practices" "2024-07"
                Example.september Example.java H) as (H1 & H2 & _).
  split; [exact H1 | exact H2].
Defined.

(** The match is on a prefix of the file name: a version that is a
    hyphen-delimited prefix of an archived one finds that archive. *)
Example rollback_matches_prefix :
  RuleVersionManager.isArchiveOf "java-best-practices" "2024"
    "java-best-practices-2024-06-2024-06-01T00-00-00-000Z.md" = true.
Proof. reflexivity. Qed.

End Rollback.
(** ** Deploy and archive, effect by effect *)

Section Deploy.

Import RuleVersionManager.



(** The disk accepts both writes. *)
Lemma deployNewRule_accepted (ruleType content version : string) (now : Date) (w : World) :
  accepts (disk w) (ruleWrite ruleType content version now) →
  accepts (disk w) (recordWrite (disk w) ruleType content version now) →
  deployNewRule ruleType content version now w
  = (Returned (),
     {| disk := replay (deployEffects (disk w) ruleType content version now) (disk w);
        journal := journal w ++ deployEffects (disk w) ruleType content version now |}).
Proof.
  unfold accepts, ruleWrite, recordWrite, deploymentRecord, deploymentCountOf.
  intros Hrule Hrec.
  unfold deployNewRule, updateDeploymentMetadata, getDeploymentCount, Fs.readMeta, Fs.readOr,
    Fs.writeRule, Fs.writeMeta, Fs.writeFile, logPerformance, Fs.lookupOr,
    bind, tryCatch, log, emit, inspect, ret, throw.
  unfold deployEffects, deploymentRecord, deploymentCountOf. simpl. rewrite Hrule. simpl.
  revert Hrec.
  destruct (refuses (disk w) (Reading MetadataPath (deploymentPath ruleType))); simpl;
    [|destruct (metadata (disk w) !! deploymentPath ruleType) as [[h|info]|]; simpl];
    intros ->; simpl; by rewrite <- !app_assoc.
Qed.

Lemma deployNewRule_run (ruleType content version : string) (now : Date) (w : World) :
  Working (disk w) →
  deployNewRule ruleType content version now w
  = (Returned (),
     {| disk := replay (deployEffects (disk w) ruleType content version now) (disk w);
        journal := journal w ++ deployEffects (disk w) ruleType content version now |}).
Proof. intros Hw. apply deployNewRule_accepted; apply Hw. Qed.

(** Without an active file there is nothing to read and nothing to write. *)
Lemma archiveCurrentRule_skip (ruleType version : string) (now : Date) (w : World) :
  activeContent (disk w) ruleType = None →
  archiveCurrentRule ruleType version now w
  = (Returned (),
     {| disk := disk w; journal := journal w ++ skipArchiveEffects ruleType version |}).
Proof.
  unfold activeContent. intros Hnone.
  unfold archiveCurrentRule, Fs.statRule, Fs.lookupOr,
    bind, tryCatch, log, emit, inspect, ret, throw. simpl.
  rewrite Hnone. simpl. by rewrite <- !app_assoc.
Qed.

Lemma archiveCurrentRule_run (ruleType version current : string)
    (h : list RuleHistoryEntry) (now : Date) (w : World) :
  Working (disk w) →
  activeContent (disk w) ruleType = Some current →
  storedHistory (disk w) ruleType = Some h →
  archiveCurrentRule ruleType version now w
  = (Returned (),
     {| disk := replay (archiveEffects ruleType version current h now) (disk w);
        journal := journal w ++ archiveEffects ruleType version current h now |}).
Proof.
  unfold activeContent, storedHistory. intros Hw Hc Hh.
  unfold archiveCurrentRule, updateRuleMetadata, Fs.statRule, Fs.readRule, Fs.readMeta,
    Fs.readOr, Fs.writeArchive, Fs.writeMeta, Fs.writeFile, logPerformance, Fs.lookupOr,
    bind, tryCatch, log, emit, inspect, ret, throw. simpl.
  rewrite Hw in Hh. rewrite Hc. simpl. rewrite Hw, Hc. simpl.
  repeat (rewrite Hw; simpl).
  unfold archiveEffects, pushCapped, archiveEntry.
  destruct (metadata (disk w) !! historyPath ruleType) as [[h0|info]|]; simplify_eq; simpl;
    repeat (rewrite Hw; simpl); by rewrite <- !app_assoc.
Qed.


(** The disk refuses the write of the history file: the error is logged,
    the archive returns, the archive file is written and the stored
    history is as it was. *)
Lemma archiveCurrentRule_unrecorded (ruleType version current : string) (now : Date)
    (w : World) :
  activeContent (disk w) ruleType = Some current →
  refuses (disk w) (Reading RuleBasePath (getRuleFilePath ruleType)) = None →
  accepts (disk w) (WriteArchive (archiveFileName ruleType version now)
                      {| content := current; mtime := now |}) →
  (∀ file, refuses (disk w) (Writing (WriteMeta (historyPath ruleType) file)) ≠ None) →
  (archiveCurrentRule ruleType version now w).1 = Returned ()
  ∧ disk (archiveCurrentRule ruleType version now w).2
    = applyWrite (WriteArchive (archiveFileName ruleType version now)
                    {| content := current; mtime := now |}) (disk w).
Proof.
  unfold activeContent, accepts. intros Hc Hread Harch Hhist.
  unfold archiveCurrentRule, updateRuleMetadata, Fs.statRule, Fs.readRule, Fs.readMeta,
    Fs.readOr, Fs.writeArchive, Fs.writeMeta, Fs.writeFile, logPerformance, Fs.lookupOr,
    bind, tryCatch, log, emit, inspect, ret, throw. simpl.
  rewrite Hc. simpl. rewrite Hread, Hc. simpl. rewrite Harch. simpl.
  destruct (refuses (disk w) (Reading MetadataPath (historyPath ruleType))); simpl.
  - match goal with
    | |- context [refuses (disk w) (Writing (WriteMeta _ ?f))] =>
        destruct (refuses (disk w) (Writing (WriteMeta (historyPath ruleType) f))) eqn:E;
        [|by apply Hhist in E]
    end. by simpl.
  - destruct (metadata (disk w) !! historyPath ruleType) as [[h0|info]|]; simpl; [| done |].
    + match goal with
      | |- context [refuses (disk w) (Writing (WriteMeta _ ?f))] =>
          destruct (refuses (disk w) (Writing (WriteMeta (historyPath ruleType) f))) eqn:E;
          [|by apply Hhist in E]
      end. by simpl.
    + match goal with
      | |- context [refuses (disk w) (Writing (WriteMeta _ ?f))] =>
          destruct (refuses (disk w) (Writing (WriteMeta (historyPath ruleType) f))) eqn:E;
          [|by apply Hhist in E]
      end. by simpl.
Qed.

End Deploy.
(** ** C1: the deploy writes the active file in place *)

Section InPlace.

Import RuleVersionManager.






(** A deploy whose record write the disk refuses returns, and leaves the
    new content next to the checksum of the old one for good. *)
Example deploy_with_refused_record_is_stale :
  let r := deployNewRule "python-best-practices" "Use ruff." "2025-09" Example.september
             Example.metadataFull in
  checksumMatches (disk Example.metadataFull) "python-best-practices"
  ∧ r.1 = Returned ()
  ∧ activeContent (disk r.2) "python-best-practices"
    = Some (addVersionHeader "Use ruff." "2025-09" "python-best-practices" Example.september)
  ∧ ¬ checksumMatches (disk r.2) "python-best-practices".
Proof.
  split; [by vm_compute|]. split; [by vm_compute|]. split; [by vm_compute|].
  intros H. vm_compute in H. discriminate H.
Qed.

(** A deploy whose rule write the disk refuses rejects and changes no
    file. *)
Example deploy_with_refused_rule_rejects :
  let r := deployNewRule "python-best-practices" "Use ruff." "2025-09" Example.september
             Example.rulesReadOnly in
  r.1 = Thrown Example.readOnlyFile ∧ disk r.2 = disk Example.rulesReadOnly.
Proof. split; reflexivity. Qed.

End InPlace.

(** ** C3: the history after a sequence of deploys *)

Section History.

Import RuleVersionManager.

Lemma append_cancel (p a b : string) : p +:+ a = p +:+ b → a = b.
Proof. induction p as [|c p IH]; simpl; [done|]. intros [=]. by apply IH. Qed.

Lemma historyPath_not_deploymentPath (ruleType : string) :
  historyPath ruleType ≠ deploymentPath ruleType.
Proof. intros H. apply append_cancel in H. discriminate H. Qed.

Lemma length_insertByDate (x : RuleHistoryEntry) (l : list RuleHistoryEntry) :
  length (insertByDate x l) = S (length l).
Proof. induction l as [|y l IH]; simpl; [done|]. destruct (_ <? _)%Z; simpl; by rewrite ?IH. Qed.

Lemma length_sortByDateDesc (l : list RuleHistoryEntry) :
  length (sortByDateDesc l) = length l.
Proof.
  induction l as [|x l IH]; simpl; [done|]. by rewrite length_insertByDate, IH.
Qed.

Lemma length_pushCapped (h : list RuleHistoryEntry) (e : RuleHistoryEntry) :
  length (pushCapped h e) = (length h + 1) `min` 50.
Proof.
  unfold pushCapped, sliceLast50. destruct (decide _) as [Hlt|Hge].
  - rewrite length_drop. rewrite length_app in *. simpl in *. lia.
  - rewrite length_app in *. simpl in *. lia.
Qed.

Lemma historyCount_stored (ruleType : string) (h : list RuleHistoryEntry) (w : World) :
  storedHistory (disk w) ruleType = Some h →
  historyCount ruleType w = Some (length h).
Proof.
  unfold storedHistory, historyCount, getRuleHistory, Fs.readMeta, Fs.readOr, Fs.lookupOr,
    bind, tryCatch, log, emit, inspect, ret, throw. simpl.
  destruct (refuses (disk w) (Reading MetadataPath (historyPath ruleType))); [done|].
  destruct (metadata (disk w) !! historyPath ruleType) as [[h0|info]|];
    intros [=]; subst; simpl; [|done].
  by rewrite length_sortByDateDesc.
Qed.

(** What one archive-then-deploy does to the active file and to the
    stored history. *)
Lemma archiveThenDeploy_step (ruleType : string) (r : DeployRequest)
    (h : list RuleHistoryEntry) (w : World) :
  Working (disk w) →
  storedHistory (disk w) ruleType = Some h →
  let w' := (archiveThenDeploy ruleType r w).2 in
  (archiveThenDeploy ruleType r w).1 = Returned ()
  ∧ Working (disk w')
  ∧ is_Some (activeContent (disk w') ruleType)
  ∧ storedHistory (disk w') ruleType
    = Some (match activeContent (disk w) ruleType with
            | Some _ => pushCapped h (archiveEntry ruleType (req_version r) (req_now r))
            | None => h
            end).
Proof.
  intros Hw Hh. unfold archiveThenDeploy, bind.
  pose proof (historyPath_not_deploymentPath ruleType) as Hne.
  assert (Hread : refuses (disk w) (Reading MetadataPath (historyPath ruleType)) = None)
    by apply Hw.
  destruct (activeContent (disk w) ruleType) as [current|] eqn:Hc.
  - rewrite (archiveCurrentRule_run _ _ current h) by done.
    rewrite deployNewRule_run by (by apply Working_replay).
    cbn [fst snd disk journal]. split; [done|].
    split; [by do 2 apply Working_replay|]. split.
    + unfold activeContent. simpl. rewrite lookup_insert_eq. by eexists.
    + unfold storedHistory. simpl. rewrite Hread.
      rewrite lookup_insert_ne by done. by rewrite lookup_insert_eq.
  - rewrite archiveCurrentRule_skip by done.
    rewrite deployNewRule_run by done.
    cbn [fst snd disk journal]. split; [done|].
    split; [by apply Working_replay|]. split.
    + unfold activeContent. simpl. rewrite lookup_insert_eq. by eexists.
    + unfold storedHistory in *. simpl. rewrite Hread in *. by rewrite lookup_insert_ne.
Qed.

(** C3, as the code has it. On a disk that refuses no read and no write,
    starting from a stored history of at most 50 entries, every sequence
    of archive-then-deploy calls returns, and [getRuleHistory] then reports
    one entry for each call that found an active rule file, capped at the
    50 most recent: a first deploy of a rule type, which finds no active
    file, adds none. *)
Theorem history_after_deploys (ruleType : string) (rs : list DeployRequest)
    (h : list RuleHistoryEntry) (w : World) :
  Working (disk w) →
  storedHistory (disk w) ruleType = Some h →
  (length h ≤ 50)%nat →
  let r := deployAll ruleType rs w in
  r.1 = Returned ()
  ∧ historyCount ruleType r.2
    = Some ((length h + (length rs - match activeContent (disk w) ruleType with
                                            | Some _ => 0
                                            | None => 1
                                            end)) `min` 50).
Proof.
  revert h w. induction rs as [|q rs IH]; intros h w Hw Hh Hlen; simpl.
  - split; [done|]. rewrite (historyCount_stored _ h) by done. f_equal. lia.
  - destruct (archiveThenDeploy_step ruleType q h w Hw Hh) as (Hret & Hw1 & [c Hact] & Hst).
    unfold bind. destruct (archiveThenDeploy ruleType q w) as [o w1]. simpl in *. subst o.
    set (h1 := match activeContent (disk w) ruleType with
               | Some _ => pushCapped h (archiveEntry ruleType (req_version q) (req_now q))
               | None => h
               end) in *.
    assert (Hlen1 : (length h1 ≤ 50)%nat).
    { subst h1. destruct (activeContent (disk w) ruleType); [|done].
      rewrite length_pushCapped. lia. }
    destruct (IH h1 w1 Hw1 Hst Hlen1) as [Hr Hcount]. split; [done|].
    rewrite Hcount, Hact. f_equal. subst h1.
    destruct (activeContent (disk w) ruleType).
    + rewrite length_pushCapped. lia.
    + lia.
Qed.

Lemma history_after_deploys_witness :
  let r := deployAll "python-best-practices" [Example.first; Example.second] Example.fresh in
  Working (disk Example.fresh)
  ∧ storedHistory (disk Example.fresh) "python-best-practices" = Some []
  ∧ (length ([] : list RuleHistoryEntry) ≤ 50)%nat
  ∧ r.1 = Returned ()
  ∧ historyCount "python-best-practices" r.2 = Some 1.
Proof.
  intros r. split; [intros a; reflexivity|]. split; [reflexivity|]. split; [simpl; lia|].
  apply (history_after_deploys "python-best-practices"
           [Example.first; Example.second] [] Example.fresh).
  - intros a. reflexivity.
  - reflexivity.
  - simpl. lia.
Defined.

(** C3, as stated, fails for the first deploy of a rule type: the deploy
    completes and the history is still empty. *)
Lemma first_deploy_leaves_no_entry :
  ¬ oneEntryPerDeploy "python-best-practices" [Example.first] Example.fresh.
Proof.
  intros (before & Hb & H).
  vm_compute in Hb. injection Hb as <-.
  specialize (H eq_refl). vm_compute in H. discriminate H.
Qed.

(** A history write that the disk refuses is swallowed: the second deploy
    of the Python rules finds an active rule file, archives it and
    completes, and the history has no entry for it. *)
Example refused_history_write_leaves_no_entry :
  let r := archiveThenDeploy "python-best-practices" Example.second Example.metadataFull in
  is_Some (activeContent (disk Example.metadataFull) "python-best-practices")
  ∧ historyCount "python-best-practices" Example.metadataFull = Some 0
  ∧ r.1 = Returned ()
  ∧ is_Some (archive (disk r.2)
             !! "python-best-practices-2025-09-2025-09-01T00-00-00-000Z.md")
  ∧ historyCount "python-best-practices" r.2 = Some 0.
Proof.
  split; [by eexists; vm_compute|]. split; [by vm_compute|]. split; [by vm_compute|].
  split; [by eexists; vm_compute | by vm_compute].
Qed.

(** The cap: 52 deploys of one rule type archive 51 times and leave 50
    entries. *)
Example history_is_capped :
  historyCount "python-best-practices"
    (deployAll "python-best-practices" (replicate 52 Example.second) Example.fresh).2
  = Some 50.
Proof. by vm_compute. Qed.

End History.
(** ** Binary64: rounding keeps the order *)

Section Binary64Facts.

Import Binary64.
Local Open Scope Q_scope.

Lemma pow2_pos (k : Z) : 0 < 2 ^ k.
Proof. apply Qpower_0_lt. reflexivity. Qed.

Lemma pow2_add (a b : Z) : 2 ^ (a + b) == 2 ^ a * 2 ^ b.
Proof. apply Qpower_plus. discriminate. Qed.

Lemma pow2_le (a b : Z) : (a <= b)%Z -> 2 ^ a <= 2 ^ b.
Proof. intros H. apply Qpower_le_compat_l; [exact H | discriminate]. Qed.

Lemma pow2_lt (a b : Z) : (a < b)%Z -> 2 ^ a < 2 ^ b.
Proof. intros H. apply Qpower_lt_compat_l; [exact H | reflexivity]. Qed.

Lemma pow2_lt_inv (a b : Z) : 2 ^ a < 2 ^ b -> (a < b)%Z.
Proof. intros H. apply (Qpower_lt_compat_l_inv 2); [exact H | reflexivity]. Qed.

Lemma pow2_Z (k : Z) : (0 <= k)%Z -> 2 ^ k == inject_Z (2 ^ k).
Proof. intros H. symmetry. apply (Zpower_Qpower 2 k H). Qed.

Lemma pow2_sub (a b : Z) : 2 ^ (a - b) == 2 ^ a / 2 ^ b.
Proof. apply Qpower_minus. discriminate. Qed.

(** Division by a power of two and back. *)
Lemma scale_back (x : Q) (k : Z) : x / 2 ^ k * 2 ^ k == x.
Proof. field. apply Qpower_not_0. discriminate. Qed.

Lemma scale_le (x y : Q) (k : Z) : x <= y -> x / 2 ^ k <= y / 2 ^ k.
Proof.
  intros H. apply Qmult_le_compat_r; [exact H|].
  apply Qinv_le_0_compat, Qlt_le_weak, pow2_pos.
Qed.

Lemma Qabs_make (n : Z) (d : positive) : Qabs (n # d) = (Z.abs n # d).
Proof. reflexivity. Qed.

Lemma ilog2_spec (x : Q) :
  ~ x == 0 -> 2 ^ ilog2 x <= Qabs x /\ Qabs x < 2 ^ (ilog2 x + 1).
Proof.
  intros Hx. destruct x as [n d]. unfold ilog2. cbn [Qnum Qden].
  set (a := Z.abs n). set (la := Z.log2 a). set (ld := Z.log2 (Zpos d)).
  assert (Ha : (0 < a)%Z).
  { unfold a. assert (n <> 0%Z); [|lia].
    intros ->. apply Hx. reflexivity. }
  destruct (Z.log2_spec a Ha) as [Ha1 Ha2]. fold la in Ha1, Ha2.
  destruct (Z.log2_spec (Zpos d) eq_refl) as [Hd1 Hd2]. fold ld in Hd1, Hd2.
  assert (Hla : (0 <= la)%Z) by apply Z.log2_nonneg.
  assert (Hld : (0 <= ld)%Z) by apply Z.log2_nonneg.
  rewrite Qabs_make. fold a.
  assert (E : (a # d) == inject_Z a / inject_Z (Zpos d)) by apply Qmake_Qdiv.
  assert (Qa1 : 2 ^ la <= inject_Z a) by (rewrite pow2_Z by lia; rewrite <- Zle_Qle; lia).
  assert (Qa2 : inject_Z a < 2 ^ (la + 1)) by (rewrite pow2_Z by lia; rewrite <- Zlt_Qlt; lia).
  assert (Qd1 : 2 ^ ld <= inject_Z (Zpos d)) by (rewrite pow2_Z by lia; rewrite <- Zle_Qle; lia).
  assert (Qd2 : inject_Z (Zpos d) < 2 ^ (ld + 1))
    by (rewrite pow2_Z by lia; rewrite <- Zlt_Qlt; lia).
  assert (Qd0 : 0 < inject_Z (Zpos d)) by reflexivity.
  assert (Up : (a # d) < 2 ^ (la - ld + 1)).
  { rewrite E. apply Qlt_shift_div_r; [exact Qd0|].
    replace (la - ld + 1)%Z with ((la + 1) - ld)%Z by lia.
    rewrite pow2_sub.
    eapply Qlt_le_trans; [exact Qa2|].
    assert (H : 2 ^ (la + 1) == 2 ^ (la + 1) / 2 ^ ld * 2 ^ ld) by (symmetry; apply scale_back).
    rewrite H at 1. apply Qmult_le_l; [|exact Qd1].
    apply Qlt_shift_div_l; [apply pow2_pos|]. rewrite Qmult_0_l. apply pow2_pos. }
  assert (Lo : 2 ^ (la - ld - 1) <= (a # d)).
  { rewrite E. apply Qle_shift_div_l; [exact Qd0|].
    replace (la - ld - 1)%Z with (la - (ld + 1))%Z by lia.
    rewrite pow2_sub.
    eapply Qle_trans; [|exact Qa1].
    assert (H : 2 ^ la == 2 ^ la / 2 ^ (ld + 1) * 2 ^ (ld + 1))
      by (symmetry; apply scale_back).
    rewrite H at 2. apply Qmult_le_l; [|apply Qlt_le_weak; exact Qd2].
    apply Qlt_shift_div_l; [apply pow2_pos|]. rewrite Qmult_0_l. apply pow2_pos. }
  destruct (Qle_bool (2 ^ (la - ld)) (a # d)) eqn:Hb.
  - apply Qle_bool_iff in Hb. split; [exact Hb | exact Up].
  - split; [exact Lo|].
    replace (la - ld - 1 + 1)%Z with (la - ld)%Z by lia.
    apply Qnot_le_lt. intros H. apply Qle_bool_iff in H. congruence.
Qed.


Lemma nearestEven_floor (y : Q) :
  (Qfloor y <= nearestEven y <= Qfloor y + 1)%Z.
Proof.
  unfold nearestEven. destruct (Qcompare _ _); [destruct (Z.even _)| |]; lia.
Qed.

Lemma nearestEven_Z (n : Z) : nearestEven (inject_Z n) = n.
Proof.
  unfold nearestEven. rewrite Qfloor_Z.
  destruct (Qcompare_spec (inject_Z n - inject_Z n) (1 # 2)) as [H|H|H]; [|reflexivity|];
    exfalso; lra.
Qed.

Lemma nearestEven_mono (a b : Q) : a <= b -> (nearestEven a <= nearestEven b)%Z.
Proof.
  intros Hab. pose proof (Qfloor_resp_le _ _ Hab) as Hf.
  pose proof (nearestEven_floor a) as Ha. pose proof (nearestEven_floor b) as Hb.
  destruct (Z.eq_dec (Qfloor a) (Qfloor b)) as [E|E]; [|lia].
  unfold nearestEven in *. rewrite E in *.
  destruct (Qcompare_spec (a - inject_Z (Qfloor b)) (1 # 2)) as [H1|H1|H1];
    destruct (Qcompare_spec (b - inject_Z (Qfloor b)) (1 # 2)) as [H2|H2|H2];
    try destruct (Z.even (Qfloor b)); try lia; exfalso; lra.
Qed.

Lemma nearestEven_comp (a b : Q) : a == b -> nearestEven a = nearestEven b.
Proof.
  intros E. apply Z.le_antisymm; apply nearestEven_mono; rewrite E; apply Qle_refl.
Qed.

Lemma round_0 (x : Q) : x == 0 -> round x = 0.
Proof. intros H. unfold round. apply Qeq_bool_iff in H. now rewrite H. Qed.

Lemma round_not_0 (x : Q) :
  ~ x == 0 ->
  round x = inject_Z (nearestEven (x / 2 ^ lastPlace x)) * 2 ^ lastPlace x.
Proof.
  intros H. unfold round. destruct (Qeq_bool x 0) eqn:E; [|reflexivity].
  apply Qeq_bool_iff in E. contradiction.
Qed.

(** The sign is kept. *)
Lemma round_nonneg (x : Q) : 0 <= x -> 0 <= round x.
Proof.
  intros H. unfold round. destruct (Qeq_bool x 0); [apply Qle_refl|].
  apply Qmult_le_0_compat; [|apply Qlt_le_weak, pow2_pos].
  change 0 with (inject_Z 0). rewrite <- Zle_Qle.
  apply Z.le_trans with (nearestEven (inject_Z 0)); [now rewrite nearestEven_Z|].
  apply nearestEven_mono.
  apply Qle_shift_div_l; [apply pow2_pos|]. now rewrite Qmult_0_l.
Qed.

Lemma round_nonpos (x : Q) : x <= 0 -> round x <= 0.
Proof.
  intros H. unfold round. destruct (Qeq_bool x 0); [apply Qle_refl|].
  assert (Hn : inject_Z (nearestEven (x / 2 ^ lastPlace x)) <= 0).
  { change 0 with (inject_Z 0). rewrite <- Zle_Qle.
    apply Z.le_trans with (nearestEven (inject_Z 0)); [|now rewrite nearestEven_Z].
    apply nearestEven_mono.
    apply Qle_shift_div_r; [apply pow2_pos|]. now rewrite Qmult_0_l. }
  pose proof (pow2_pos (lastPlace x)) as Hp.
  set (n := inject_Z _) in *. set (p := 2 ^ _) in *.
  assert (E : n * p == - ((- n) * p)) by ring. rewrite E.
  assert (0 <= (- n) * p); [|lra].
  apply Qmult_le_0_compat; lra.
Qed.

(** A power of two with a place of its own is a bound that rounding keeps. *)
Lemma round_le_pow2 (x : Q) (k : Z) :
  ~ x == 0 -> x <= 2 ^ k -> (lastPlace x <= k)%Z -> round x <= 2 ^ k.
Proof.
  intros Hx Hle Hq. rewrite round_not_0 by exact Hx.
  set (q := lastPlace x) in *.
  assert (E : 2 ^ k == inject_Z (2 ^ (k - q)) * 2 ^ q).
  { rewrite <- pow2_Z by lia. rewrite <- pow2_add. now replace (k - q + q)%Z with k by lia. }
  rewrite E. apply Qmult_le_compat_r; [|apply Qlt_le_weak, pow2_pos].
  rewrite <- Zle_Qle.
  apply Z.le_trans with (nearestEven (inject_Z (2 ^ (k - q))));
    [|now rewrite nearestEven_Z].
  apply nearestEven_mono. rewrite <- pow2_Z by lia. rewrite pow2_sub.
  now apply scale_le.
Qed.

Lemma round_ge_pow2 (x : Q) (k : Z) :
  ~ x == 0 -> 2 ^ k <= x -> (lastPlace x <= k)%Z -> 2 ^ k <= round x.
Proof.
  intros Hx Hle Hq. rewrite round_not_0 by exact Hx.
  set (q := lastPlace x) in *.
  assert (E : 2 ^ k == inject_Z (2 ^ (k - q)) * 2 ^ q).
  { rewrite <- pow2_Z by lia. rewrite <- pow2_add. now replace (k - q + q)%Z with k by lia. }
  rewrite E. apply Qmult_le_compat_r; [|apply Qlt_le_weak, pow2_pos].
  rewrite <- Zle_Qle.
  apply Z.le_trans with (nearestEven (inject_Z (2 ^ (k - q))));
    [now rewrite nearestEven_Z|].
  apply nearestEven_mono. rewrite <- pow2_Z by lia. rewrite pow2_sub.
  now apply scale_le.
Qed.

Lemma ilog2_mono (x y : Q) : 0 < x -> x <= y -> (ilog2 x <= ilog2 y)%Z.
Proof.
  intros Hx Hxy.
  assert (Hy : 0 < y) by lra.
  destruct (ilog2_spec x) as [Hx1 _]; [intros E; rewrite E in Hx; discriminate|].
  destruct (ilog2_spec y) as [_ Hy2]; [intros E; rewrite E in Hy; discriminate|].
  rewrite Qabs_pos in Hx1 by lra. rewrite Qabs_pos in Hy2 by lra.
  assert (H : 2 ^ ilog2 x < 2 ^ (ilog2 y + 1)) by lra.
  apply pow2_lt_inv in H. lia.
Qed.

Lemma round_le_neg_pow2 (x : Q) (k : Z) :
  ~ x == 0 -> x <= - 2 ^ k -> (lastPlace x <= k)%Z -> round x <= - 2 ^ k.
Proof.
  intros Hx Hle Hq. rewrite round_not_0 by exact Hx.
  set (q := lastPlace x) in *.
  assert (E : - 2 ^ k == inject_Z (- 2 ^ (k - q)) * 2 ^ q).
  { rewrite inject_Z_opp, <- pow2_Z by lia.
    assert (E : 2 ^ k == 2 ^ (k - q) * 2 ^ q)
      by (rewrite <- pow2_add; now replace (k - q + q)%Z with k by lia).
    rewrite E. ring. }
  rewrite E. apply Qmult_le_compat_r; [|apply Qlt_le_weak, pow2_pos].
  rewrite <- Zle_Qle.
  apply Z.le_trans with (nearestEven (inject_Z (- 2 ^ (k - q))));
    [|now rewrite nearestEven_Z].
  apply nearestEven_mono. rewrite inject_Z_opp, <- pow2_Z by lia. rewrite pow2_sub.
  assert (E' : - (2 ^ k / 2 ^ q) == (- 2 ^ k) / 2 ^ q) by (field; apply Qpower_not_0; discriminate).
  rewrite E'. now apply scale_le.
Qed.

Lemma round_ge_neg_pow2 (x : Q) (k : Z) :
  ~ x == 0 -> - 2 ^ k <= x -> (lastPlace x <= k)%Z -> - 2 ^ k <= round x.
Proof.
  intros Hx Hle Hq. rewrite round_not_0 by exact Hx.
  set (q := lastPlace x) in *.
  assert (E : - 2 ^ k == inject_Z (- 2 ^ (k - q)) * 2 ^ q).
  { rewrite inject_Z_opp, <- pow2_Z by lia.
    assert (E : 2 ^ k == 2 ^ (k - q) * 2 ^ q)
      by (rewrite <- pow2_add; now replace (k - q + q)%Z with k by lia).
    rewrite E. ring. }
  rewrite E. apply Qmult_le_compat_r; [|apply Qlt_le_weak, pow2_pos].
  rewrite <- Zle_Qle.
  apply Z.le_trans with (nearestEven (inject_Z (- 2 ^ (k - q))));
    [now rewrite nearestEven_Z|].
  apply nearestEven_mono. rewrite inject_Z_opp, <- pow2_Z by lia. rewrite pow2_sub.
  assert (E' : - (2 ^ k / 2 ^ q) == (- 2 ^ k) / 2 ^ q) by (field; apply Qpower_not_0; discriminate).
  rewrite E'. now apply scale_le.
Qed.

Lemma ilog2_mono_neg (x y : Q) : x <= y -> y < 0 -> (ilog2 y <= ilog2 x)%Z.
Proof.
  intros Hxy Hy.
  assert (Hx : x < 0) by lra.
  destruct (ilog2_spec y) as [Hy1 _]; [intros E; rewrite E in Hy; discriminate|].
  destruct (ilog2_spec x) as [_ Hx2]; [intros E; rewrite E in Hx; discriminate|].
  rewrite Qabs_neg in Hy1 by lra. rewrite Qabs_neg in Hx2 by lra.
  assert (H : 2 ^ ilog2 y < 2 ^ (ilog2 x + 1)) by lra.
  apply pow2_lt_inv in H. lia.
Qed.

(** Rounding keeps the order. *)
Lemma round_mono (x y : Q) : x <= y -> round x <= round y.
Proof.
  intros Hxy.
  destruct (Qlt_le_dec 0 x) as [Hx|Hx].
  - assert (Hy : 0 < y) by lra.
    assert (Hx0 : ~ x == 0) by (intros E; rewrite E in Hx; discriminate).
    assert (Hy0 : ~ y == 0) by (intros E; rewrite E in Hy; discriminate).
    pose proof (ilog2_mono x y Hx Hxy) as He.
    destruct (Z.eq_dec (lastPlace x) (lastPlace y)) as [Eq|Ne].
    + rewrite !round_not_0 by assumption. rewrite Eq.
      apply Qmult_le_compat_r; [|apply Qlt_le_weak, pow2_pos].
      rewrite <- Zle_Qle. apply nearestEven_mono. now apply scale_le.
    + assert (Hlt : (ilog2 x < ilog2 y)%Z) by (unfold lastPlace in Ne; lia).
      destruct (ilog2_spec x Hx0) as [_ Hx2]. destruct (ilog2_spec y Hy0) as [Hy1 _].
      rewrite Qabs_pos in Hx2 by lra. rewrite Qabs_pos in Hy1 by lra.
      apply Qle_trans with (2 ^ ilog2 y).
      * apply round_le_pow2; [exact Hx0| |unfold lastPlace in *; lia].
        apply Qle_trans with (2 ^ (ilog2 x + 1)); [lra|]. apply pow2_le. lia.
      * apply round_ge_pow2; [exact Hy0|exact Hy1|unfold lastPlace in *; lia].
  - destruct (Qlt_le_dec y 0) as [Hy|Hy].
    2:{ apply Qle_trans with 0; [now apply round_nonpos | now apply round_nonneg]. }
    assert (Hx' : x < 0) by lra.
    assert (Hx0 : ~ x == 0) by (intros E; rewrite E in Hx'; discriminate).
    assert (Hy0 : ~ y == 0) by (intros E; rewrite E in Hy; discriminate).
    pose proof (ilog2_mono_neg x y Hxy Hy) as He.
    destruct (Z.eq_dec (lastPlace x) (lastPlace y)) as [Eq|Ne].
    + rewrite !round_not_0 by assumption. rewrite Eq.
      apply Qmult_le_compat_r; [|apply Qlt_le_weak, pow2_pos].
      rewrite <- Zle_Qle. apply nearestEven_mono. now apply scale_le.
    + assert (Hlt : (ilog2 y < ilog2 x)%Z) by (unfold lastPlace in Ne; lia).
      destruct (ilog2_spec x Hx0) as [Hx1 _]. destruct (ilog2_spec y Hy0) as [_ Hy2].
      rewrite Qabs_neg in Hx1 by lra. rewrite Qabs_neg in Hy2 by lra.
      apply Qle_trans with (- 2 ^ ilog2 x).
      * apply round_le_neg_pow2; [exact Hx0|lra|unfold lastPlace in *; lia].
      * apply round_ge_neg_pow2; [exact Hy0| |unfold lastPlace in *; lia].
        assert (H : 2 ^ (ilog2 y + 1) <= 2 ^ ilog2 x) by (apply pow2_le; lia).
        lra.
Qed.

Lemma round_comp (x y : Q) : x == y -> round x == round y.
Proof. intros E. apply Qle_antisym; apply round_mono; rewrite E; apply Qle_refl. Qed.

End Binary64Facts.

(** ** C6: the update-priority score *)

Section Score.

Import TrendAnalyzer.
Local Open Scope Q_scope.

Lemma literal_nonneg (decimal : Q) : 0 <= decimal → 0 <= Binary64.literal decimal.
Proof. apply round_nonneg. Qed.

Lemma below_refl (a : Acc) : below a a.
Proof. split; [apply Qle_refl | reflexivity]. Qed.

(** A larger value and a larger sum give a larger sum; the weights count
    the same. *)
Lemma add_below (v v' w : Q) (a a' : Acc) :
  v <= v' → 0 <= w → below a a' → below (add v w a) (add v' w a').
Proof.
  intros Hv Hw [Hp Hf]. unfold below, add, Binary64.add, Binary64.mul.
  cbn [priority factors]. split; [|by rewrite Hf].
  apply round_mono, Qplus_le_compat; [exact Hp|].
  by apply round_mono, Qmult_le_compat_r.
Qed.


Lemma normalize_below (a b : Acc) :
  below a b → 0 < factors b → normalize a <= normalize b.
Proof.
  intros [Hp Hf] Hb. unfold normalize, Binary64.div. rewrite Hf.
  destruct (Qlt_le_dec 0 (factors b)) as [_|Hle]; [|lra].
  apply Q.min_le_compat_r, round_mono, Qmult_le_compat_r; [exact Hp|].
  apply Qinv_le_0_compat. lra.
Qed.

(** The growth factor grows with the growth. *)
Lemma growthFactor_le (g G : Q) :
  g <= G →
  Qmax 0 (Qmin (Binary64.div g 20) 1) <= Qmax 0 (Qmin (Binary64.div G 20) 1).
Proof.
  intros H. apply Q.max_le_compat_l, Q.min_le_compat_r, round_mono.
  by apply Qmult_le_compat_r.
Qed.


(** The weights counted depend on the sources only. *)
Lemma factors_accumulate (t : Trends) :
  factors (accumulate t)
  = factors (highest (if Qlt_le_dec 0 (totalRepos (githubTrends t)) then true else false)
               (if Qlt_le_dec 0 (totalQuestions (stackOverflowTrends t)) then true else false)
               0).
Proof.
  unfold accumulate, highest.
  by destruct (Qlt_le_dec 0 (totalRepos (githubTrends t))),
    (Qlt_le_dec 0 (totalQuestions (stackOverflowTrends t))).
Qed.

Lemma factors_highest (github stackOverflow : bool) (g : Q) :
  factors (highest github stackOverflow g) = factors (highest github stackOverflow 0).
Proof. by destruct github, stackOverflow. Qed.

Lemma factors_highest_half (github stackOverflow : bool) :
  1 # 2 <= factors (highest github stackOverflow 0).
Proof. destruct github, stackOverflow; apply Qle_bool_iff; by vm_compute. Qed.

(** Without a breaking change the accumulators are below those of the
    counted volumes at their ceilings. *)
Lemma accumulate_below (t : Trends) (G : Q) :
  breakingChanges (documentationChanges t) = [] →
  weeklyGrowth (packageTrends t) <= G →
  below (accumulate t)
    (highest (if Qlt_le_dec 0 (totalRepos (githubTrends t)) then true else false)
       (if Qlt_le_dec 0 (totalQuestions (stackOverflowTrends t)) then true else false)
       (Qmax 0 (Qmin (Binary64.div G 20) 1))).
Proof.
  intros Hb Hg. unfold accumulate, highest. rewrite Hb. cbn [length].
  destruct (decide (0 < 0)%nat) as [Hn|_]; [lia|].
  assert (H2 : 0 <= Binary64.literal 0.2) by (apply literal_nonneg; discriminate).
  assert (H3 : 0 <= Binary64.literal 0.3) by (apply literal_nonneg; discriminate).
  destruct (Qlt_le_dec 0 (totalRepos (githubTrends t))),
    (Qlt_le_dec 0 (totalQuestions (stackOverflowTrends t)));
    (apply add_below; [apply Qle_refl | exact H2 |]);
    (apply add_below; [exact (growthFactor_le _ _ Hg) | exact H3 |]).
  - apply add_below; [apply Q.le_min_r | exact H2 |].
    apply add_below; [apply Q.le_min_r | exact H3 | apply below_refl].
  - apply add_below; [apply Q.le_min_r | exact H3 | apply below_refl].
  - apply add_below; [apply Q.le_min_r | exact H2 | apply below_refl].
  - apply below_refl.
Qed.

Lemma score_below (t : Trends) (G : Q) :
  breakingChanges (documentationChanges t) = [] →
  weeklyGrowth (packageTrends t) <= G →
  calculateUpdatePriority t
  <= normalize
       (highest (if Qlt_le_dec 0 (totalRepos (githubTrends t)) then true else false)
          (if Qlt_le_dec 0 (totalQuestions (stackOverflowTrends t)) then true else false)
          (Qmax 0 (Qmin (Binary64.div G 20) 1))).
Proof.
  intros Hb Hg. apply normalize_below; [by apply accumulate_below|].
  rewrite factors_highest. eapply Qlt_le_trans; [|apply factors_highest_half]. reflexivity.
Qed.

(** The largest scores, by the sources counted, for a weekly growth of at
    most 14 and of at most 10. *)
Lemma highest_score_14 (github stackOverflow : bool) :
  normalize (highest github stackOverflow (Qmax 0 (Qmin (Binary64.div 14 20) 1)))
  <= (if github && stackOverflow then 0.75 else 0.7).
Proof. destruct github, stackOverflow; apply Qle_bool_iff; by vm_compute. Qed.

Lemma highest_score_10 (github stackOverflow : bool) :
  normalize (highest github stackOverflow (Qmax 0 (Qmin (Binary64.div 10 20) 1))) <= 0.7.
Proof. destruct github, stackOverflow; apply Qle_bool_iff; by vm_compute. Qed.

(** The score of trends without a breaking change whose weekly growth is
    at most 14. *)
Lemma score_without_breaking_change (t : Trends) :
  breakingChanges (documentationChanges t) = [] →
  weeklyGrowth (packageTrends t) <= 14 →
  calculateUpdatePriority t <= 0.75
  ∧ (0.7 < calculateUpdatePriority t →
     0 < totalRepos (githubTrends t)
     ∧ 0 < totalQuestions (stackOverflowTrends t)
     ∧ 10 < weeklyGrowth (packageTrends t)).
Proof.
  intros Hb Hw.
  pose proof (score_below t 14 Hb Hw) as H14.
  set (github := if Qlt_le_dec 0 (totalRepos (githubTrends t)) then true else false) in *.
  set (stackOverflow :=
         if Qlt_le_dec 0 (totalQuestions (stackOverflowTrends t)) then true else false) in *.
  pose proof (highest_score_14 github stackOverflow) as Hc.
  split.
  - eapply Qle_trans; [exact H14|]. eapply Qle_trans; [exact Hc|].
    by destruct github, stackOverflow.
  - intros Hs.
    assert (Hboth : github && stackOverflow = true).
    { destruct (github && stackOverflow); [done|]. exfalso. lra. }
    apply andb_true_iff in Hboth as [Hg Hq]. subst github stackOverflow.
    destruct (Qlt_le_dec 0 (totalRepos (githubTrends t))) as [Hr|_]; [|done].
    destruct (Qlt_le_dec 0 (totalQuestions (stackOverflowTrends t))) as [Hq'|_]; [|done].
    split; [exact Hr|]. split; [exact Hq'|].
    destruct (Qlt_le_dec 10 (weeklyGrowth (packageTrends t))) as [Hlt|Hle]; [exact Hlt|].
    exfalso. pose proof (score_below t 10 Hb Hle) as H10.
    pose proof (highest_score_10
                  (if Qlt_le_dec 0 (totalRepos (githubTrends t)) then true else false)
                  (if Qlt_le_dec 0 (totalQuestions (stackOverflowTrends t)) then true
                   else false)) as Hc10.
    lra.
Qed.


(** The last line never takes its second branch. *)
Lemma calculateUpdatePriority_min (t : Trends) :
  calculateUpdatePriority t
  = Qmin (Binary64.div (priority (accumulate t)) (factors (accumulate t))) 1.
Proof.
  pose proof (factors_highest_half
                (if Qlt_le_dec 0 (totalRepos (githubTrends t)) then true else false)
                (if Qlt_le_dec 0 (totalQuestions (stackOverflowTrends t)) then true
                 else false)) as Hf.
  rewrite <- factors_accumulate in Hf.
  unfold calculateUpdatePriority, normalize.
  destruct (Qlt_le_dec 0 (factors (accumulate t))) as [_|Hle]; [reflexivity|].
  exfalso. lra.
Qed.



(** The neutral score of the design document when no sub-signal is
    available. *)
Example referenceScore_without_signals :
  referenceScore ceilings
    {| activityVolume := None; discussionVolume := None;
       growth := None; breakingFlag := None |} == 0.3.
Proof. reflexivity. Qed.

(** A count that was delivered as 0 is not counted: with no repository,
    1000 questions and a growth of 20 the score is 0.7714285714285716,
    where the weighted mean over the four sub-signals is 0.54. *)
Example delivered_zero_is_dropped :
  calculateUpdatePriority (trendsWith 0 1000 20)
  == 3474205426828669 # 4503599627370496
  ∧ referenceScore ceilings
      {| activityVolume := Some 0; discussionVolume := Some 1000;
         growth := Some 20; breakingFlag := Some false |} == 27 # 50.
Proof. split; apply Qeq_bool_iff; by vm_compute. Qed.

(** The scenario of the design document: half of each ceiling and no
    breaking change give 0.44000000000000006, the binary64 number next
    above the 0.44 of the exact weighted mean. *)
Example score_of_half_ceilings :
  calculateUpdatePriority (trendsWith 5000 500 10)
  == 3963167672086037 # 9007199254740992
  ∧ referenceScore ceilings
      {| activityVolume := Some 5000; discussionVolume := Some 500;
         growth := Some 10; breakingFlag := Some false |} == 0.44
  ∧ 0.44 < calculateUpdatePriority (trendsWith 5000 500 10).
Proof.
  split; [apply Qeq_bool_iff; by vm_compute|].
  split; [apply Qeq_bool_iff; by vm_compute|]. apply Qlt_alt. by vm_compute.
Qed.

(** Rounding decides the weekly check: 10000 repositories, 750 questions
    and a growth of 14 score 0.7000000000000001, above the 0.7 that the
    exact weighted mean only reaches. *)
Example score_above_threshold_by_rounding :
  0.7 < calculateUpdatePriority (trendsWith 10000 750 14)
  ∧ referenceScore ceilings
      {| activityVolume := Some 10000; discussionVolume := Some 750;
         growth := Some 14; breakingFlag := Some false |} == 0.7.
Proof. split; [apply Qlt_alt; by vm_compute | apply Qeq_bool_iff; by vm_compute]. Qed.


(** A rounded number above the binary64 number nearest to 0.7 is above
    0.7: the comparison with the decimal decides as the comparison of
    binary64 numbers does. *)
Lemma round_above_07 (x : Q) : Binary64.literal 0.7 < Binary64.round x → 0.7 < Binary64.round x.
Proof.
  intros H.
  destruct (Qeq_dec x 0) as [E|Hx].
  { rewrite (round_0 x E) in H. exfalso. revert H. apply Qle_not_lt, Qle_bool_iff.
    by vm_compute. }
  destruct (Z_lt_le_dec (Binary64.lastPlace x) (-53)) as [Hq|Hq].
  - exfalso. revert H. apply Qle_not_lt.
    apply Qle_trans with (2 ^ (-1)); [|apply Qle_bool_iff; by vm_compute].
    destruct (Qlt_le_dec 0 x) as [Hpos|Hneg].
    + apply round_le_pow2; [exact Hx| |lia].
      destruct (ilog2_spec x Hx) as [_ Hup]. rewrite Qabs_pos in Hup by lra.
      apply Qlt_le_weak. eapply Qlt_le_trans; [exact Hup|].
      apply pow2_le. unfold Binary64.lastPlace in Hq. lia.
    + apply Qle_trans with 0; [by apply round_nonpos | discriminate].
  - rewrite (round_not_0 x Hx) in H |- *.
    set (n := Binary64.nearestEven (x / 2 ^ Binary64.lastPlace x)) in *.
    set (q := Binary64.lastPlace x) in *.
    assert (E : inject_Z n * 2 ^ q == inject_Z (n * 2 ^ (q + 53)) * 2 ^ (-53)).
    { rewrite inject_Z_mult, <- pow2_Z by lia.
      assert (E : 2 ^ q == 2 ^ (q + 53) * 2 ^ (-53))
        by (rewrite <- pow2_add; by replace (q + 53 + -53)%Z with q by lia).
      rewrite E at 1. ring. }
    rewrite E in H |- *.
    set (N := (n * 2 ^ (q + 53))%Z) in *.
    assert (HM : Binary64.literal 0.7 == inject_Z 6305039478318694 * 2 ^ (-53))
      by (apply Qeq_bool_iff; by vm_compute).
    rewrite HM in H.
    assert (HN : (6305039478318694 < N)%Z).
    { rewrite Zlt_Qlt. apply Qmult_lt_r with (2 ^ (-53)); [apply pow2_pos | exact H]. }
    apply Qlt_le_trans with (inject_Z 6305039478318695 * 2 ^ (-53));
      [apply Qlt_alt; by vm_compute|].
    apply Qmult_le_compat_r; [|apply Qlt_le_weak, pow2_pos].
    rewrite <- Zle_Qle. lia.
Qed.

(** The weekly check decides on the score as binary64 does. *)
Lemma score_above_07 (t : Trends) :
  0.7 < calculateUpdatePriority t ↔ Binary64.literal 0.7 < calculateUpdatePriority t.
Proof.
  assert (Hlit : Binary64.literal 0.7 < 0.7) by (apply Qlt_alt; by vm_compute).
  split; [intros H; lra|].
  rewrite calculateUpdatePriority_min. unfold Qmin, GenericMinMax.gmin, Binary64.div.
  destruct (Qcompare _ _); [apply round_above_07 | apply round_above_07 | by intros _].
Qed.


End Score.

(** ** C10: the subscription set of a connected client *)

Section Subscriptions.

Import NotificationService.

(* [set_solver] clears hypotheses it has already consumed. *)
Local Set Warnings "-clear-no-such-hyp".

Lemma subscribe_all (cs : list string) (subs : gset string) :
  fold_left subscribeOne cs subs = subs ∪ (list_to_set cs ∩ list_to_set validChannels).
Proof.
  revert subs. induction cs as [|c cs IH]; intros subs.
  - apply set_eq. intros x.
    rewrite elem_of_union, elem_of_intersection, !elem_of_list_to_set, elem_of_nil.
    simpl. tauto.
  - simpl fold_left. rewrite IH. unfold subscribeOne. apply set_eq. intros x.
    rewrite !elem_of_union, !elem_of_intersection, !elem_of_list_to_set, elem_of_cons.
    case_bool_decide as Hc.
    + rewrite elem_of_union, elem_of_singleton. split.
      * intros [[?| ->]|[? ?]]; auto.
      * intros [?|[[ ->|?] ?]]; auto.
    + split.
      * intros [?|[? ?]]; auto.
      * intros [?|[[ ->|?] ?]]; [auto | done | auto].
Qed.

Lemma unsubscribe_all (cs : list string) (subs : gset string) :
  fold_left unsubscribeOne cs subs = subs ∖ list_to_set cs.
Proof.
  revert subs. induction cs as [|c cs IH]; intros subs; simpl; [set_solver|].
  rewrite IH. unfold unsubscribeOne. set_solver.
Qed.

Lemma ensureGeneral_spec (subs : gset string) :
  ensureGeneral subs = if decide (subs = ∅) then {["general"]} else subs.
Proof.
  unfold ensureGeneral. case_bool_decide as Hs; case_decide as He.
  - subst. set_solver.
  - by apply size_empty_inv, leibniz_equiv in Hs.
  - subst. by rewrite size_empty in Hs.
  - done.
Qed.

Lemma good_general : good {["general"]}.
Proof.
  split; [set_solver|]. intros x Hx. apply elem_of_singleton in Hx as ->.
  apply elem_of_list_to_set. unfold validChannels. set_solver.
Qed.

Lemma good_subscribe (cs : option (list string)) (subs : gset string) :
  good subs → good (forEachChannel subscribeOne cs subs).
Proof.
  intros [Hne Hsub]. destruct cs as [cs|]; simpl; [|done].
  rewrite subscribe_all. split; set_solver.
Qed.

Lemma good_unsubscribe (cs : option (list string)) (subs : gset string) :
  good subs → good (ensureGeneral (forEachChannel unsubscribeOne cs subs)).
Proof.
  intros [Hne Hsub]. rewrite ensureGeneral_spec. case_decide as He.
  - apply good_general.
  - split; [done|]. destruct cs as [cs|]; simpl; [|done].
    rewrite unsubscribe_all. set_solver.
Qed.

Lemma Inv_insert (clientId : string) (c : ConnectedClient) (st : State) :
  Inv st → good (subscriptions c) →
  Inv {| clients := <[clientId := c]> (clients st); sent := sent st |}.
Proof. intros H Hc. by apply map_Forall_insert_2. Qed.

Lemma Inv_delete (clientId : string) (st : State) :
  Inv st → Inv {| clients := delete clientId (clients st); sent := sent st |}.
Proof. intros H. by apply map_Forall_delete. Qed.

Lemma Inv_sendToClient (clientId : string) (m : ServerMessage) (st : State) :
  Inv st → Inv (sendToClient clientId m st).
Proof.
  intros H. unfold sendToClient.
  destruct (clients st !! clientId) as [c|]; [|done].
  destruct (negb _); [done|]. destruct (sendThrows _); [by apply Inv_delete | done].
Qed.

Lemma Inv_handleSubscription (clientId : string) (data : option ChannelData) (st : State) :
  Inv st → Inv (handleSubscription clientId data st).2.
Proof.
  intros H. unfold handleSubscription.
  destruct (clients st !! clientId) as [c|] eqn:Hc; [|done].
  destruct data as [data|]; [|done]. simpl.
  apply Inv_sendToClient, Inv_insert; [done|]. simpl.
  apply good_subscribe. by apply (H clientId c).
Qed.

Lemma Inv_handleUnsubscription (clientId : string) (data : option ChannelData) (st : State) :
  Inv st → Inv (handleUnsubscription clientId data st).2.
Proof.
  intros H. unfold handleUnsubscription.
  destruct (clients st !! clientId) as [c|] eqn:Hc; [|done].
  destruct data as [data|]; [|done]. simpl.
  apply Inv_sendToClient, Inv_insert; [done|]. simpl.
  apply good_unsubscribe. by apply (H clientId c).
Qed.

Lemma Inv_handleClientMessage clientId (m : ClientMessage) (now : Date) (st : State) :
  Inv st → Inv (handleClientMessage clientId m now st).2.
Proof.
  intros H. unfold handleClientMessage.
  destruct (clients st !! clientId) as [c|] eqn:Hc; [|done].
  assert (H' : Inv {| clients := <[clientId := withLastActivity now c]> (clients st);
                      sent := sent st |}).
  { apply Inv_insert; [done|]. by apply (H clientId c). }
  destruct m; simpl.
  - by apply Inv_handleSubscription.
  - by apply Inv_handleUnsubscription.
  - by apply Inv_sendToClient.
  - by apply Inv_sendToClient.
  - by apply Inv_sendToClient.
Qed.

Lemma Inv_step (maxClients : nat) (st : State) (ev : Event) :
  Inv st → Inv (step maxClients st ev).
Proof.
  intros H. destruct ev as [cid socket now|cid parsed now|cid|cid|cid socket]; simpl.
  - unfold onConnection. case_bool_decide; [done|].
    apply Inv_sendToClient, Inv_insert; [done|]. apply good_general.
  - unfold onMessage. destruct parsed as [m|]; [|by apply Inv_sendToClient].
    pose proof (Inv_handleClientMessage cid m now st H) as H'.
    destruct (handleClientMessage cid m now st) as [[?|?] st'];
      [done | by apply Inv_sendToClient].
  - by apply Inv_delete.
  - by apply Inv_delete.
  - intros k c Hk. simpl in Hk. apply lookup_alter_Some in Hk as [(-> & c' & Hc' & ->)|[_ Hk]].
    + by apply (H k c').
    + by apply (H k c).
Qed.

Lemma Inv_run (maxClients : nat) (evs : list Event) (st : State) :
  Inv st → Inv (run maxClients evs st).
Proof.
  revert st. induction evs as [|ev evs IH]; intros st H; simpl; [done|].
  apply IH. by apply Inv_step.
Qed.

(** C10. After any sequence of connections, messages, closes and socket
    errors, the subscription set of every connected client is a non-empty
    subset of the five valid channels. Subscribing adds exactly the
    requested channels that are valid, the others are ignored; and
    unsubscribing leaves the remaining channels, or 'general' alone when
    none remains. *)
Theorem subscriptions_nonempty_valid (maxClients : nat) (evs : list Event)
    (clientId : string) (subs : gset string) :
  subscriptionsOf (run maxClients evs initial) clientId = Some subs →
  (subs ≠ ∅ ∧ subs ⊆ list_to_set validChannels)
  ∧ (∀ cs s, forEachChannel subscribeOne (Some cs) s
             = s ∪ (list_to_set cs ∩ list_to_set validChannels))
  ∧ (∀ cs s, ensureGeneral (forEachChannel unsubscribeOne (Some cs) s)
             = if decide (s ∖ list_to_set cs = ∅) then {["general"]}
               else s ∖ list_to_set cs).
Proof.
  intros Hs. split; [|split].
  - unfold subscriptionsOf in Hs.
    destruct (clients (run maxClients evs initial) !! clientId) as [c|] eqn:Hc; [|done].
    injection Hs as <-.
    assert (HI : Inv (run maxClients evs initial)) by (apply Inv_run; intros ? ? [=]).
    by apply (HI clientId c).
  - intros cs s. simpl. apply subscribe_all.
  - intros cs s. simpl. by rewrite unsubscribe_all, ensureGeneral_spec.
Qed.

Lemma subscriptions_nonempty_valid_witness :
  let evs := [Connection "client_1" Scenario.socket Example.august;
              Message "client_1" (Some (Subscribe (Some {| channels := Some ["rule-updates"; "billing"] |})))
                Example.august;
              Message "client_1" (Some (Unsubscribe (Some {| channels := Some ["general"; "rule-updates"] |})))
                Example.september] in
  subscriptionsOf (run 100 evs initial) "client_1" = Some {["general"]}
  ∧ (({["general"]} : gset string) ≠ ∅
     ∧ ({["general"]} : gset string) ⊆ list_to_set validChannels).
Proof.
  intros evs.
  assert (H : subscriptionsOf (run 100 evs initial) "client_1" = Some {["general"]})
    by (by vm_compute).
  split; [exact H|].
  exact (proj1 (subscriptions_nonempty_valid 100 evs "client_1" {["general"]} H)).
Defined.

End Subscriptions.

(** ** C4: firings of one trigger overlap *)

Section Scheduler.

Import SchedulerService.

(** A firing of a registered, enabled task calls its task function, whether
    or not an earlier call is still in flight. *)
Lemma fire_enabled (name : string) (now : Date) (st : State) (t : ScheduledTask) :
  scheduledTasks st !! name = Some t →
  enabled t = true →
  trace (fire name now st)
  = trace st ++ [Log LInfo ("Executing scheduled task: " +:+ name); TaskStarted name]
  ∧ (runCount <$> scheduledTasks (fire name now st) !! SchedulerService.name t)
    = Some (runCount t + 1).
Proof.
  intros Ht He. unfold fire. rewrite Ht, He. simpl. split.
  - by rewrite <- app_assoc.
  - by rewrite lookup_insert_eq.
Qed.

(** C4 fails on the code. Two ticks of the weekly rule check, the second
    while the first task function has not settled: both call the task
    function, the run count is 2, two calls are in flight and no skip is
    logged. A manual trigger in place of the second tick does the same. *)
Theorem overlapping_firings_both_start :
  let twice := run [Tick "weekly-rule-check" Example.august;
                    Tick "weekly-rule-check" Example.september] Scenario.registered in
  let manual := run [Tick "weekly-rule-check" Example.august;
                     Trigger "weekly-rule-check" Example.september] Scenario.registered in
  inFlight "weekly-rule-check" (trace twice) = 2
  ∧ (runCount <$> scheduledTasks twice !! "weekly-rule-check") = Some 2
  ∧ List.filter (skipped "weekly-rule-check") (trace twice) = []
  ∧ inFlight "weekly-rule-check" (trace manual) = 2
  ∧ List.filter (skipped "weekly-rule-check") (trace manual) = [].
Proof. vm_compute. repeat split. Qed.

(** The one case in which the callback skips: the task is disabled. *)
Example disabled_task_is_skipped :
  let st := run [Disable "weekly-rule-check"; Tick "weekly-rule-check" Example.august]
              Scenario.registered in
  inFlight "weekly-rule-check" (trace st) = 0
  ∧ List.filter (skipped "weekly-rule-check") (trace st)
    = [Log LDebug "Skipping disabled task: weekly-rule-check"].
Proof. vm_compute. repeat split. Qed.

End Scheduler.

(** ** C2 and C7: the processor of the rule-generation queue *)

Section Processor.

Import QueueService.

Lemma bind_returns {A B} (m : IO A) (k : A → IO B) (w : World) :
  (∃ a, (m w).1 = Returned a) →
  (∀ a w', ∃ b, (k a w').1 = Returned b) →
  ∃ b, (bind m k w).1 = Returned b.
Proof.
  intros [a Ha] Hk. unfold bind. destruct (m w) as [o w']. simpl in Ha. subst o.
  apply Hk.
Qed.

Lemma tryCatch_returns {A} (m : IO A) (h : Exn → IO A) (w : World) :
  (∀ e w', ∃ a, (h e w').1 = Returned a) →
  ∃ a, (tryCatch m h w).1 = Returned a.
Proof.
  intros Hh. unfold tryCatch. destruct (m w) as [[a|e] w']; [by exists a | apply Hh].
Qed.

(** C2 fails on the code. Whatever the collaborators do, the promise of
    [processRuleGeneration] resolves: an exception of the analysis, of the
    generator, of the archive or of the deploy is caught and turned into a
    result with [success = false]. The queue therefore never sees a failed
    attempt of this handler, and retries none. *)
Theorem processRuleGeneration_never_rejects (svc : Services) (job : Job) (now : Date)
    (w : World) :
  ∃ result, settlement (processRuleGeneration svc job now w).1 = Completed result.
Proof.
  assert (H : ∃ result, (processRuleGeneration svc job now w).1 = Returned result).
  { unfold processRuleGeneration. apply bind_returns; [by eexists|].
    intros _ w'. apply tryCatch_returns. intros e w''. by eexists. }
  destruct H as [result H]. exists result. by rewrite H.
Qed.

Lemma processTrendAnalysis_never_rejects (svc : Services) (job : Job) (now : Date)
    (w : World) :
  ∃ result, settlement (processTrendAnalysis svc job now w).1 = Completed result.
Proof.
  assert (H : ∃ result, (processTrendAnalysis svc job now w).1 = Returned result).
  { unfold processTrendAnalysis. apply bind_returns; [by eexists|].
    intros _ w'. apply tryCatch_returns. intros e w''. by eexists. }
  destruct H as [result H]. exists result. by rewrite H.
Qed.

Lemma processEmergencyUpdate_never_rejects (svc : Services) (job : Job) (now : Date)
    (w : World) :
  ∃ result, settlement (processEmergencyUpdate svc job now w).1 = Completed result.
Proof.
  assert (H : ∃ result, (processEmergencyUpdate svc job now w).1 = Returned result).
  { unfold processEmergencyUpdate. apply bind_returns; [by eexists|].
    intros _ w'. apply tryCatch_returns. intros e w''. by eexists. }
  destruct H as [result H]. exists result. by rewrite H.
Qed.

(** The generator throws on the first attempt of a scheduled job: the job
    completes with a failure result, nothing is retried, the disk is as it
    was. *)
Example failed_generation_completes :
  let r := processRuleGeneration Scenario.failing Scenario.scheduled Example.august
             Example.fresh in
  settlement r.1
  = Completed {| success := false;
                 message := "Rule generation failed for python: GenerationError: research timed out";
                 ruleVersion := None; rulesGenerated := None;
                 error := Some "GenerationError: research timed out" |}
  ∧ disk r.2 = disk Example.fresh.
Proof. vm_compute. repeat split. Qed.

(** The processor of the plan rethrows at the same input, and its
    ['failed'] handler retries with doubling delays below three attempts. *)
Example planned_generation_fails :
  (RuleUpdateQueue.process Scenario.failing
     {| RuleUpdateQueue.job_technology := "python";
        RuleUpdateQueue.job_priority := medium;
        RuleUpdateQueue.job_updateType := major |} Example.august Example.fresh).1
  = Thrown (JsError "Rule generation failed for python: GenerationError: research timed out")
  ∧ RuleUpdateQueue.onFailed 1 = Some 2000%Z
  ∧ RuleUpdateQueue.onFailed 2 = Some 4000%Z
  ∧ RuleUpdateQueue.onFailed 3 = None.
Proof. vm_compute. repeat split. Qed.

(** C7 fails on the code. A scheduled job whose analysis scores 0.1, below
    the minimum 0.3: [processRuleGeneration] calls the generator, deploys
    what it returns and reports success. *)
Theorem low_score_job_still_deploys :
  let m := processRuleGeneration Scenario.healthy Scenario.scheduled Example.august in
  triggeredBy (data Scenario.scheduled) = bySchedule
  ∧ RuleUpdateQueue.belowThreshold
      (TrendAnalyzer.updatePriority (Scenario.quietTrends 0.1)) = true
  ∧ success <$> (match (m Example.fresh).1 with Returned r => Some r | Thrown _ => None end)
    = Some true
  ∧ Called "generateRules" "python" ∈ effectsOf m Example.fresh
  ∧ activeContent (disk Example.fresh) "python-best-practices" = None
  ∧ activeContent (disk (m Example.fresh).2) "python-best-practices"
    = Some (RuleVersionManager.addVersionHeader "Use uv." "2025-08"
              "python-best-practices" Example.august).
Proof.
  intros m. split; [done|]. split; [done|]. split; [by vm_compute|].
  split; [|split; by vm_compute].
  assert (E : effectsOf m Example.fresh
              = Logged LInfo "Queue job rule-generation[17] started"
                :: Called "analyzeTechnology" "python"
                :: Called "generateRules" "python"
                :: drop 3 (effectsOf m Example.fresh)) by (by vm_compute).
  rewrite E. do 2 apply list_elem_of_further. apply list_elem_of_here.
Qed.

End Processor.

(** The processor of the plan has the check that [processRuleGeneration]
    lacks. *)
Section Plan.

Import QueueService RuleUpdateQueue.


(** The scheduled job that [processRuleGeneration] deploys is skipped by the
    processor of the plan: no generator call, no write. *)
Example planned_job_is_skipped :
  let m := process Scenario.healthy Scenario.planned Example.august in
  updated <$> (match (m Example.fresh).1 with Returned u => Some u | Thrown _ => None end)
  = Some false
  ∧ disk (m Example.fresh).2 = disk Example.fresh
  ∧ effectsOf m Example.fresh
    = [Progress 0; Called "analyzeTechnology" "python"; Progress 25; Progress 100].
Proof. by vm_compute. Qed.

(** An emergency job is not held back by a low score. *)
Example emergency_job_generates :
  let m := process Scenario.healthy
             {| job_technology := "python"; job_priority := high;
                job_updateType := emergency |} Example.august in
  updated <$> (match (m Example.fresh).1 with Returned u => Some u | Thrown _ => None end)
  = Some true
  ∧ activeContent (disk (m Example.fresh).2) "python-best-practices"
    = Some (RuleVersionManager.addVersionHeader "Use uv." "2025-08"
              "python-best-practices" Example.august).
Proof. by vm_compute. Qed.

End Plan.

(** * Further properties *)

(** ** RuleVersionManager: archive, history and deployment record *)

Section Archive.

Import RuleVersionManager.

(** The history write of an archive: accepted or refused, the archive
    returns and the other files are as the archive write left them. *)
Lemma archiveCurrentRule_effect (ruleType version current : string) (now : Date)
    (w : World) :
  activeContent (disk w) ruleType = Some current →
  refuses (disk w) (Reading RuleBasePath (getRuleFilePath ruleType)) = None →
  accepts (disk w) (WriteArchive (archiveFileName ruleType version now)
                      {| content := current; mtime := now |}) →
  let r := archiveCurrentRule ruleType version now w in
  r.1 = Returned ()
  ∧ archive (disk r.2)
    = <[archiveFileName ruleType version now := {| content := current; mtime := now |}]>
        (archive (disk w))
  ∧ ruleBase (disk r.2) = ruleBase (disk w)
  ∧ metadata (disk r.2) !! deploymentPath ruleType
    = metadata (disk w) !! deploymentPath ruleType
  ∧ refuses (disk r.2) = refuses (disk w).
Proof.
  unfold activeContent, accepts. intros Hc Hread Harch.
  pose proof (historyPath_not_deploymentPath ruleType) as Hne.
  unfold archiveCurrentRule, updateRuleMetadata, Fs.statRule, Fs.readRule, Fs.readMeta,
    Fs.readOr, Fs.writeArchive, Fs.writeMeta, Fs.writeFile, logPerformance, Fs.lookupOr,
    bind, tryCatch, log, emit, inspect, ret, throw. simpl.
  rewrite Hc. simpl. rewrite Hread, Hc. simpl. rewrite Harch. simpl.
  destruct (refuses (disk w) (Reading MetadataPath (historyPath ruleType))); simpl;
    [|destruct (metadata (disk w) !! historyPath ruleType) as [[h0|info]|]; simpl];
    try (match goal with
         | |- context [refuses (disk w) (Writing ?wr)] =>
             destruct (refuses (disk w) (Writing wr)); simpl
         end);
    repeat split; by rewrite ?lookup_insert_ne.
Qed.



(** Whatever the files hold, on a disk that refuses nothing
    [archiveCurrentRule] returns and leaves the rule files and the
    deployment record alone. *)
Lemma archiveCurrentRule_frame (ruleType version : string) (now : Date) (w : World) :
  Working (disk w) →
  let r := archiveCurrentRule ruleType version now w in
  r.1 = Returned ()
  ∧ ruleBase (disk r.2) = ruleBase (disk w)
  ∧ metadata (disk r.2) !! deploymentPath ruleType
    = metadata (disk w) !! deploymentPath ruleType
  ∧ Working (disk r.2).
Proof.
  intros Hw. destruct (activeContent (disk w) ruleType) as [c|] eqn:Hc.
  - destruct (archiveCurrentRule_effect ruleType version c now w Hc (Hw _) (Hw _))
      as (? & _ & ? & ? & Hr).
    repeat split; try done. intros a. by rewrite Hr.
  - by rewrite archiveCurrentRule_skip.
Qed.

End Archive.

Section SortedHistory.

Import RuleVersionManager.

Lemma insertByDate_perm (x : RuleHistoryEntry) (l : list RuleHistoryEntry) :
  insertByDate x l ≡ₚ x :: l.
Proof.
  induction l as [|y l IH]; simpl; [done|].
  destruct (_ <? _)%Z; [|done]. rewrite IH. apply Permutation_swap.
Qed.

Lemma sortByDateDesc_perm (l : list RuleHistoryEntry) : sortByDateDesc l ≡ₚ l.
Proof.
  induction l as [|x l IH]; simpl; [done|]. by rewrite insertByDate_perm, IH.
Qed.

Lemma insertByDate_sorted (x : RuleHistoryEntry) (l : list RuleHistoryEntry) :
  StronglySorted notAfter l → StronglySorted notAfter (insertByDate x l).
Proof.
  induction 1 as [|y l Hs IH Hall]; simpl.
  - repeat constructor.
  - destruct (Z.ltb_spec (getTime (date x)) (getTime (date y))) as [Hlt|Hge].
    + constructor; [done|].
      rewrite insertByDate_perm. constructor; [unfold notAfter; lia | done].
    + constructor; [by constructor|].
      constructor; [done|].
      eapply Forall_impl; [exact Hall|]. unfold notAfter. intros z Hz. lia.
Qed.

Lemma sortByDateDesc_sorted (l : list RuleHistoryEntry) :
  StronglySorted notAfter (sortByDateDesc l).
Proof.
  induction l as [|x l IH]; simpl; [constructor | by apply insertByDate_sorted].
Qed.

(** X2. [getRuleHistory] always returns, changes no file, and reports the stored
    entries (none when there is no history file) rearranged so that no entry
    is dated after an earlier one: most recent first. *)
Theorem getRuleHistory_most_recent_first (ruleType : string) (w : World) :
  ∃ history,
    (getRuleHistory ruleType w).1 = Returned history
    ∧ StronglySorted notAfter history
    ∧ history ≡ₚ default [] (storedHistory (disk w) ruleType)
    ∧ disk (getRuleHistory ruleType w).2 = disk w.
Proof.
  unfold storedHistory, getRuleHistory, Fs.readMeta, Fs.readOr, Fs.lookupOr,
    bind, tryCatch, log, emit, inspect, ret, throw. simpl.
  destruct (refuses (disk w) (Reading MetadataPath (historyPath ruleType))); simpl.
  { exists []. repeat split; constructor. }
  destruct (metadata (disk w) !! historyPath ruleType) as [[h|info]|]; simpl.
  - exists (sortByDateDesc h). split; [done|].
    split; [apply sortByDateDesc_sorted|]. split; [apply sortByDateDesc_perm | done].
  - exists []. repeat split; constructor.
  - exists []. repeat split; constructor.
Qed.

(** X3. The history keeps the newest. On a disk that refuses no read and
    no write, after an archive of an active rule the stored history is a
    suffix of the old entries followed by the new one, ends with the new
    one and has at most 50 entries, however long it was before. *)
Theorem archive_keeps_newest_entries (ruleType version current : string)
    (h : list RuleHistoryEntry) (now : Date) (w : World) :
  Working (disk w) →
  activeContent (disk w) ruleType = Some current →
  storedHistory (disk w) ruleType = Some h →
  ∃ h', storedHistory (disk (archiveCurrentRule ruleType version now w).2) ruleType = Some h'
        ∧ h' `suffix_of` h ++ [archiveEntry ruleType version now]
        ∧ last h' = Some (archiveEntry ruleType version now)
        ∧ (length h' ≤ 50)%nat.
Proof.
  intros Hw Hc Hh. rewrite (archiveCurrentRule_run _ _ current h) by done.
  exists (pushCapped h (archiveEntry ruleType version now)).
  split; [|split; [|split]].
  - unfold storedHistory. simpl. rewrite Hw. by rewrite lookup_insert_eq.
  - unfold pushCapped, sliceLast50. case_decide; [apply suffix_drop | done].
  - unfold pushCapped, sliceLast50. case_decide as Hlen; [|apply last_snoc].
    rewrite length_app in *. simpl in *.
    replace (length h + 1 - 50) with (length h - 49) by lia.
    rewrite drop_app_le by lia. apply last_snoc.
  - rewrite length_pushCapped. lia.
Qed.

Lemma archive_keeps_newest_entries_witness :
  Working (disk Example.deployedOnce)
  ∧ activeContent (disk Example.deployedOnce) "python-best-practices"
    = Some (addVersionHeader "Use uv." "2025-08" "python-best-practices" Example.august)
  ∧ storedHistory (disk Example.deployedOnce) "python-best-practices" = Some []
  ∧ ∃ h', storedHistory
            (disk (archiveCurrentRule "python-best-practices" "2025-09" Example.september
                     Example.deployedOnce).2) "python-best-practices" = Some h'
          ∧ last h' = Some (archiveEntry "python-best-practices" "2025-09" Example.september).
Proof.
  assert (H1 : activeContent (disk Example.deployedOnce) "python-best-practices"
               = Some (addVersionHeader "Use uv." "2025-08" "python-best-practices"
                         Example.august)) by (by vm_compute).
  assert (H2 : storedHistory (disk Example.deployedOnce) "python-best-practices" = Some [])
    by (by vm_compute).
  assert (H0 : Working (disk Example.deployedOnce)) by (intros a; by vm_compute).
  split; [exact H0|]. split; [exact H1|]. split; [exact H2|].
  destruct (archive_keeps_newest_entries "python-best-practices" "2025-09" _ []
              Example.september Example.deployedOnce H0 H1 H2) as (h' & E & _ & L & _).
  exists h'. by split.
Defined.

End SortedHistory.

Section DeploymentRecord.

Import RuleVersionManager.

Lemma getDeploymentCount_run (ruleType : string) (w : World) :
  (getDeploymentCount ruleType w).1 = Returned (deploymentCountOf (disk w) ruleType).
Proof.
  unfold getDeploymentCount, deploymentCountOf, Fs.readMeta, Fs.readOr, Fs.lookupOr,
    bind, tryCatch, emit, inspect, ret. simpl.
  destruct (refuses (disk w) (Reading MetadataPath (deploymentPath ruleType))); [done|].
  by destruct (metadata (disk w) !! deploymentPath ruleType) as [[h|info]|].
Qed.

Lemma deploymentCountOf_deploy (ruleType content version : string) (now : Date) (w : World) :
  Working (disk w) →
  deploymentCountOf (disk (deployNewRule ruleType content version now w).2) ruleType
  = deploymentCountOf (disk w) ruleType + 1.
Proof.
  intros Hw. rewrite deployNewRule_run by done. unfold deploymentCountOf at 1. simpl.
  by rewrite Hw, lookup_insert_eq.
Qed.

(** X4. Deploy, then read back. On a disk that refuses no read and no
    write, after [deployNewRule], [getRuleVersionInfo] reports the deployed
    version, the clock reading, and the length and the checksum of exactly
    the text the active file now holds, with a deployment count one above
    the count found before. *)
Theorem deploy_then_version_info (ruleType content version : string) (now : Date)
    (w : World) :
  Working (disk w) →
  let w' := (deployNewRule ruleType content version now w).2 in
  ∃ text,
    activeContent (disk w') ruleType = Some text
    ∧ (getRuleVersionInfo ruleType w').1
      = Returned (Some {| vi_currentVersion := Some version;
                          vi_lastDeployment := Some now;
                          vi_contentLength := Some (String.length text);
                          vi_checksum := Some (calculateChecksum text);
                          vi_deploymentCount :=
                            Some (deploymentCountOf (disk w) ruleType + 1) |}).
Proof.
  intros Hw w'. exists (addVersionHeader content version ruleType now).
  subst w'. rewrite deployNewRule_run by done. split.
  - unfold activeContent. simpl. apply lookup_insert_eq.
  - unfold getRuleVersionInfo, Fs.readMeta, Fs.readOr, Fs.lookupOr, bind, tryCatch, emit,
      inspect, ret.
    simpl. by rewrite Hw, lookup_insert_eq.
Qed.

Lemma deploy_then_version_info_witness :
  Working (disk Example.fresh)
  ∧ ∃ text,
      activeContent
        (disk (deployNewRule "python-best-practices" "Use uv." "2025-08" Example.august
                 Example.fresh).2) "python-best-practices" = Some text
      ∧ (getRuleVersionInfo "python-best-practices"
           (deployNewRule "python-best-practices" "Use uv." "2025-08" Example.august
              Example.fresh).2).1
        = Returned (Some {| vi_currentVersion := Some "2025-08";
                            vi_lastDeployment := Some Example.august;
                            vi_contentLength := Some (String.length text);
                            vi_checksum := Some (calculateChecksum text);
                            vi_deploymentCount :=
                              Some (deploymentCountOf (disk Example.fresh)
                                      "python-best-practices" + 1) |}).
Proof.
  assert (H0 : Working (disk Example.fresh)) by (intros a; reflexivity).
  split; [exact H0|].
  exact (deploy_then_version_info "python-best-practices" "Use uv." "2025-08"
           Example.august Example.fresh H0).
Defined.

Lemma archiveThenDeploy_counts (ruleType : string) (q : DeployRequest) (w : World) :
  Working (disk w) →
  (archiveThenDeploy ruleType q w).1 = Returned ()
  ∧ deploymentCountOf (disk (archiveThenDeploy ruleType q w).2) ruleType
    = deploymentCountOf (disk w) ruleType + 1
  ∧ Working (disk (archiveThenDeploy ruleType q w).2).
Proof.
  intros Hw. unfold archiveThenDeploy, bind.
  destruct (archiveCurrentRule_frame ruleType (req_version q) (req_now q) w Hw)
    as (Hret & _ & Hmeta & Hw1).
  destruct (archiveCurrentRule ruleType (req_version q) (req_now q) w) as [o w1].
  simpl in *. subst o. split; [by rewrite deployNewRule_run|]. split.
  - rewrite deploymentCountOf_deploy by done. unfold deploymentCountOf.
    by rewrite Hmeta, !Hw, !Hw1.
  - rewrite deployNewRule_run by done. by apply Working_replay.
Qed.

(** X5. Every archive-then-deploy counts once: on a disk that refuses no
    read and no write, every sequence of them returns and the deployment
    count has then grown by their number, whatever the history file holds
    and whether or not there was a rule to archive. *)
Theorem deployAll_counts_deployments (ruleType : string) (rs : list DeployRequest)
    (w : World) :
  Working (disk w) →
  (deployAll ruleType rs w).1 = Returned ()
  ∧ (getDeploymentCount ruleType (deployAll ruleType rs w).2).1
    = Returned (deploymentCountOf (disk w) ruleType + length rs).
Proof.
  rewrite getDeploymentCount_run.
  revert w. induction rs as [|q rs IH]; intros w Hw; simpl.
  - split; [done|]. f_equal. lia.
  - unfold bind. destruct (archiveThenDeploy_counts ruleType q w Hw) as (Hret & Hcount & Hw1).
    destruct (archiveThenDeploy ruleType q w) as [o w1]. simpl in *. subst o.
    destruct (IH w1 Hw1) as [Hr Hc]. split; [exact Hr|].
    rewrite Hc, Hcount. f_equal. lia.
Qed.

Lemma deployAll_counts_deployments_witness :
  Working (disk Example.fresh)
  ∧ (getDeploymentCount "python-best-practices"
       (deployAll "python-best-practices" [Example.first; Example.second]
          Example.fresh).2).1
    = Returned 2.
Proof.
  assert (H0 : Working (disk Example.fresh)) by (intros a; reflexivity).
  split; [exact H0|].
  exact (proj2 (deployAll_counts_deployments "python-best-practices"
                  [Example.first; Example.second] Example.fresh H0)).
Defined.

(** A record write that the disk refuses is swallowed: the deploy
    completes and the count is the one found before. *)
Example refused_record_write_is_not_counted :
  let r := archiveThenDeploy "python-best-practices" Example.second Example.metadataFull in
  r.1 = Returned ()
  ∧ deploymentCountOf (disk Example.metadataFull) "python-best-practices" = 1
  ∧ (getDeploymentCount "python-best-practices" r.2).1 = Returned 1.
Proof. by vm_compute. Qed.

End DeploymentRecord.

(** ** RuleVersionManager: a rollback that finds its archive *)

Section Strings.

Lemma append_cons (x : ascii) (a b : string) : String x a +:+ b = String x (a +:+ b).
Proof. reflexivity. Qed.

Lemma append_assoc (a b c : string) : (a +:+ b) +:+ c = a +:+ (b +:+ c).
Proof. induction a as [|x a IH]; [done|]. rewrite !append_cons. by f_equal. Qed.

Lemma append_nil_r (a : string) : a +:+ "" = a.
Proof. induction a as [|x a IH]; [done|]. rewrite append_cons. by f_equal. Qed.

Lemma length_append (a b : string) :
  String.length (a +:+ b) = String.length a + String.length b.
Proof. induction a as [|x a IH]; [done|]. rewrite append_cons. simpl. by f_equal. Qed.

Lemma prefix_append (p s : string) : String.prefix p (p +:+ s) = true.
Proof.
  induction p as [|x p IH]; [by destruct s|].
  rewrite append_cons. simpl. destruct (Ascii.ascii_dec x x); [exact IH | done].
Qed.

Lemma substring_all (s : string) : String.substring 0 (String.length s) s = s.
Proof. induction s as [|x s IH]; simpl; [done | by f_equal]. Qed.

Lemma substring_append (a b : string) :
  String.substring (String.length a) (String.length b) (a +:+ b) = b.
Proof.
  induction a as [|x a IH]; [apply substring_all|]. rewrite append_cons. exact IH.
Qed.

Lemma startsWith_append (p s : string) : Js.startsWith (p +:+ s) p = true.
Proof. apply prefix_append. Qed.

Lemma endsWith_append (a suffix : string) : Js.endsWith (a +:+ suffix) suffix = true.
Proof.
  unfold Js.endsWith. rewrite length_append.
  replace (Nat.leb (String.length suffix) (String.length a + String.length suffix))
    with true by (symmetry; apply Nat.leb_le; lia).
  replace (String.length a + String.length suffix - String.length suffix)
    with (String.length a) by lia.
  rewrite substring_append. apply String.eqb_refl.
Qed.

End Strings.

Section RollbackFound.

Import RuleVersionManager.

(** An archive made for [version] is an archive of [version]. *)
Lemma archiveFileName_isArchiveOf (ruleType version : string) (now : Date) :
  isArchiveOf ruleType version (archiveFileName ruleType version now) = true.
Proof.
  unfold isArchiveOf, archiveFileName. apply andb_true_iff. split.
  - replace (ruleType +:+ "-" +:+ version +:+ "-"
             +:+ Js.replaceColonDot (toISOString now) +:+ ".md")
      with ((ruleType +:+ "-" +:+ version +:+ "-")
            +:+ (Js.replaceColonDot (toISOString now) +:+ ".md"))
      by (by rewrite !append_assoc).
    apply startsWith_append.
  - replace (ruleType +:+ "-" +:+ version +:+ "-"
             +:+ Js.replaceColonDot (toISOString now) +:+ ".md")
      with ((ruleType +:+ "-" +:+ version +:+ "-"
             +:+ Js.replaceColonDot (toISOString now)) +:+ ".md")
      by (by rewrite !append_assoc).
    apply endsWith_append.
Qed.

Lemma find_unique {A} (f : A → bool) (l : list A) (x : A) :
  x ∈ l → f x = true → (∀ y, y ∈ l → f y = true → y = x) →
  List.find f l = Some x.
Proof.
  induction l as [|a l IH]; intros Hin Hx Huniq; [by apply elem_of_nil in Hin|].
  simpl. destruct (f a) eqn:Ha.
  - f_equal. apply Huniq; [constructor | done].
  - apply IH; [|done|].
    + apply elem_of_cons in Hin as [->|Hin]; [congruence | done].
    + intros y Hy. apply Huniq. by constructor.
Qed.

Lemma find_in_readdir {V} (f : string → bool) (m : gmap string V) (x : string) :
  List.find f (map_to_list m).*1 = Some x → is_Some (m !! x) ∧ f x = true.
Proof.
  intros H. apply List.find_some in H as [Hin Hf]. split; [|done].
  apply readdir_names. by apply list_elem_of_In.
Qed.

(** [getRuleVersionInfo] reads the deployment record and nothing else. *)
Lemma getRuleVersionInfo_same (ruleType : string) (w w' : World) :
  metadata (disk w') !! deploymentPath ruleType = metadata (disk w) !! deploymentPath ruleType →
  refuses (disk w') = refuses (disk w) →
  (getRuleVersionInfo ruleType w').1 = (getRuleVersionInfo ruleType w).1.
Proof.
  intros Hmeta Hr.
  unfold getRuleVersionInfo, Fs.readMeta, Fs.readOr, Fs.lookupOr, bind, tryCatch, emit,
    inspect, log, ret. simpl. rewrite Hmeta, Hr.
  destruct (refuses (disk w) _); [done|].
  by destruct (metadata (disk w) !! _) as [[?|?]|].
Qed.

(** What [rollbackToVersion] does on a disk that refuses nothing when
    [find] returns [targetArchive], an active rule exists and the history
    file holds a history. *)
Lemma rollbackToVersion_run (ruleType version targetArchive current : string)
    (target : ArchiveFile) (h : list RuleHistoryEntry) (now : Date) (w : World) :
  Working (disk w) →
  List.find (isArchiveOf ruleType version) (map_to_list (archive (disk w))).*1
  = Some targetArchive →
  archive (disk w) !! targetArchive = Some target →
  activeContent (disk w) ruleType = Some current →
  storedHistory (disk w) ruleType = Some h →
  archiveFileName ruleType (rollbackBackupVersion now) now ≠ targetArchive →
  let r := rollbackToVersion ruleType version now w in
  r.1 = Returned ()
  ∧ ruleBase (disk r.2)
    = <[getRuleFilePath ruleType := content target]> (ruleBase (disk w))
  ∧ archive (disk r.2)
    = <[archiveFileName ruleType (rollbackBackupVersion now) now :=
          {| content := current; mtime := now |}]> (archive (disk w))
  ∧ storedHistory (disk r.2) ruleType
    = Some (pushCapped
              (pushCapped h (archiveEntry ruleType (rollbackBackupVersion now) now))
              (rollbackEntry version targetArchive now))
  ∧ metadata (disk r.2) !! deploymentPath ruleType
    = metadata (disk w) !! deploymentPath ruleType
  ∧ refuses (disk r.2) = refuses (disk w).
Proof.
  intros Hw Hfind Htarget Hc Hh Hne.
  pose proof (historyPath_not_deploymentPath ruleType) as Hpaths.
  unfold rollbackToVersion. fold (rollbackBackupVersion now).
  cbv [bind tryCatch log emit inspect ret throw Fs.readdirArchive].
  cbn [fst snd disk journal]. rewrite Hfind.
  rewrite (archiveCurrentRule_run ruleType _ current h now) by done.
  unfold updateRuleMetadata, Fs.readArchive, Fs.readMeta, Fs.readOr, Fs.writeRule,
    Fs.writeMeta, Fs.writeFile, logPerformance, Fs.lookupOr.
  cbv [bind tryCatch log emit inspect ret throw]. simpl.
  rewrite Hw. rewrite lookup_insert_ne, Htarget by done. simpl.
  repeat (rewrite Hw; simpl).
  rewrite lookup_insert_eq. simpl. repeat (rewrite Hw; simpl).
  repeat split.
  - unfold storedHistory. simpl. rewrite Hw, lookup_insert_eq.
    by unfold pushCapped, rollbackEntry.
  - by rewrite !lookup_insert_ne.
Qed.

(** X6. A rollback that finds its archive. On a disk that refuses no read
    and no write, with an active rule and a history file that holds a
    history, [rollbackToVersion] returns, restores the content of the
    archive it finds as the active rule and keeps the content it replaces
    in a new archive named rollback-backup; it appends two history entries,
    the backup and the rollback (50 entries at most are kept); and it
    leaves the deployment record as it was, so the recorded version and
    checksum are still those of the replaced content. *)
Theorem rollback_restores_and_backs_up (ruleType version targetArchive current : string)
    (target : ArchiveFile) (h : list RuleHistoryEntry) (now : Date) (w : World) :
  Working (disk w) →
  List.find (isArchiveOf ruleType version) (map_to_list (archive (disk w))).*1
  = Some targetArchive →
  archive (disk w) !! targetArchive = Some target →
  activeContent (disk w) ruleType = Some current →
  storedHistory (disk w) ruleType = Some h →
  archiveFileName ruleType (rollbackBackupVersion now) now ≠ targetArchive →
  let r := rollbackToVersion ruleType version now w in
  r.1 = Returned ()
  ∧ activeContent (disk r.2) ruleType = Some (content target)
  ∧ archive (disk r.2) !! archiveFileName ruleType (rollbackBackupVersion now) now
    = Some {| content := current; mtime := now |}
  ∧ archive (disk r.2) !! targetArchive = Some target
  ∧ storedHistory (disk r.2) ruleType
    = Some (pushCapped
              (pushCapped h (archiveEntry ruleType (rollbackBackupVersion now) now))
              (rollbackEntry version targetArchive now))
  ∧ metadata (disk r.2) !! deploymentPath ruleType
    = metadata (disk w) !! deploymentPath ruleType
  ∧ recordedChecksum (disk r.2) ruleType = recordedChecksum (disk w) ruleType
  ∧ (getRuleVersionInfo ruleType r.2).1 = (getRuleVersionInfo ruleType w).1.
Proof.
  intros Hw Hfind Htarget Hc Hh Hne.
  destruct (rollbackToVersion_run ruleType version targetArchive current target h now w
              Hw Hfind Htarget Hc Hh Hne) as (Hret & Hrule & Harch & Hhist & Hmeta & Hr).
  split; [exact Hret|].
  split; [|split; [|split; [|split; [exact Hhist|split; [exact Hmeta|split]]]]].
  - unfold activeContent. rewrite Hrule. apply lookup_insert_eq.
  - rewrite Harch. apply lookup_insert_eq.
  - rewrite Harch. by rewrite lookup_insert_ne.
  - unfold recordedChecksum. by rewrite Hmeta.
  - by apply getRuleVersionInfo_same.
Qed.

(** An archive made for a version that continues [version] after a hyphen
    passes for an archive of [version]. *)
Lemma isArchiveOf_longer_version (ruleType version suffix : string) (made : Date) :
  isArchiveOf ruleType version
    (archiveFileName ruleType (version +:+ "-" +:+ suffix) made) = true.
Proof.
  unfold isArchiveOf, archiveFileName. apply andb_true_iff. split.
  - replace (ruleType +:+ "-" +:+ (version +:+ "-" +:+ suffix) +:+ "-"
             +:+ Js.replaceColonDot (toISOString made) +:+ ".md")
      with ((ruleType +:+ "-" +:+ version +:+ "-")
            +:+ (suffix +:+ "-" +:+ Js.replaceColonDot (toISOString made) +:+ ".md"))
      by (by rewrite !append_assoc).
    apply startsWith_append.
  - replace (ruleType +:+ "-" +:+ (version +:+ "-" +:+ suffix) +:+ "-"
             +:+ Js.replaceColonDot (toISOString made) +:+ ".md")
      with ((ruleType +:+ "-" +:+ (version +:+ "-" +:+ suffix) +:+ "-"
             +:+ Js.replaceColonDot (toISOString made)) +:+ ".md")
      by (by rewrite !append_assoc).
    apply endsWith_append.
Qed.

(** C8 fails on the code. A rollback to a version that was never archived
    does not always fail. On a disk that refuses nothing, let the archive
    directory hold one file, made by [archiveCurrentRule] for a version
    that continues [targetVersion] after a hyphen (2024-07-hotfix for
    2024-07), and let no entry of the history be of [targetVersion]. Then
    [rollbackToVersion] to [targetVersion] returns instead of throwing
    "Archive not found": it replaces the active rule by the content of
    that archive, archives the rule it replaces as a rollback backup, and
    records a rollback to [targetVersion] in the history. *)
Theorem rollback_takes_archive_of_longer_version
    (ruleType targetVersion suffix current : string) (target : ArchiveFile)
    (h : list RuleHistoryEntry) (made now : Date) (w : World) :
  Working (disk w) →
  archive (disk w)
  = {[ archiveFileName ruleType (targetVersion +:+ "-" +:+ suffix) made := target ]} →
  activeContent (disk w) ruleType = Some current →
  storedHistory (disk w) ruleType = Some h →
  Forall (λ entry, version entry ≠ targetVersion) h →
  archiveFileName ruleType (rollbackBackupVersion now) now
  ≠ archiveFileName ruleType (targetVersion +:+ "-" +:+ suffix) made →
  let r := rollbackToVersion ruleType targetVersion now w in
  r.1 = Returned ()
  ∧ r.1 ≠ Thrown (archiveNotFound ruleType targetVersion)
  ∧ activeContent (disk r.2) ruleType = Some (content target)
  ∧ archive (disk r.2) !! archiveFileName ruleType (rollbackBackupVersion now) now
    = Some {| content := current; mtime := now |}
  ∧ storedHistory (disk r.2) ruleType
    = Some (pushCapped
              (pushCapped h (archiveEntry ruleType (rollbackBackupVersion now) now))
              (rollbackEntry targetVersion
                 (archiveFileName ruleType (targetVersion +:+ "-" +:+ suffix) made) now)).
Proof.
  intros Hw Harch Hc Hh _ Hne.
  set (name := archiveFileName ruleType (targetVersion +:+ "-" +:+ suffix) made) in *.
  assert (Hfind : List.find (isArchiveOf ruleType targetVersion)
                    (map_to_list (archive (disk w))).*1 = Some name).
  { rewrite Harch, map_to_list_singleton. simpl.
    unfold name. by rewrite isArchiveOf_longer_version. }
  assert (Htarget : archive (disk w) !! name = Some target)
    by (rewrite Harch; apply lookup_singleton_eq).
  destruct (rollbackToVersion_run ruleType targetVersion name current target h now w
              Hw Hfind Htarget Hc Hh Hne) as (Hret & Hrule & Ha & Hhist & _).
  split; [exact Hret|]. split; [by rewrite Hret|].
  split; [unfold activeContent; rewrite Hrule; apply lookup_insert_eq|].
  split; [rewrite Ha; apply lookup_insert_eq | exact Hhist].
Qed.

End RollbackFound.

Section RoundTrip.

Import RuleVersionManager.

Lemma rollback_restores_and_backs_up_witness :
  let r := rollbackToVersion "java-best-practices" "2024-06" Example.september
             Example.java in
  Working (disk Example.java)
  ∧ r.1 = Returned ()
  ∧ activeContent (disk r.2) "java-best-practices" = Some "Prefer streams."
  ∧ archive (disk r.2)
    !! "java-best-practices-rollback-backup-2025-09-01-2025-09-01T00-00-00-000Z.md"
    = Some {| content := "Prefer records."; mtime := Example.september |}.
Proof.
  assert (H0 : Working (disk Example.java)) by (intros a; reflexivity).
  split; [exact H0|].
  assert (Hne : archiveFileName "java-best-practices"
                  (rollbackBackupVersion Example.september) Example.september
                ≠ "java-best-practices-2024-06-2024-06-01T00-00-00-000Z.md")
    by (vm_compute; intros H; discriminate H).
  destruct (rollback_restores_and_backs_up "java-best-practices" "2024-06"
              "java-best-practices-2024-06-2024-06-01T00-00-00-000Z.md"
              "Prefer records."
              {| content := "Prefer streams."; mtime := Example.august |} []
              Example.september Example.java H0
              ltac:(by vm_compute) ltac:(by vm_compute) ltac:(by vm_compute)
              ltac:(by vm_compute) Hne)
    as (H1 & H2 & H3 & _).
  split; [exact H1|]. split; [exact H2 | exact H3].
Defined.

Lemma rollback_takes_archive_of_longer_version_witness :
  let r := rollbackToVersion "java-best-practices" "2024-07" Example.september
             Example.hotfix in
  Working (disk Example.hotfix)
  ∧ storedHistory (disk Example.hotfix) "java-best-practices"
    = Some [archiveEntry "java-best-practices" "2024-07-hotfix" Example.july]
  ∧ activeContent (disk Example.hotfix) "java-best-practices" = Some "Prefer sealed types."
  ∧ r.1 = Returned ()
  ∧ activeContent (disk r.2) "java-best-practices" = Some "Prefer records.".
Proof.
  intros r.
  assert (H0 : Working (disk Example.hotfix)) by (intros a; reflexivity).
  assert (H1 : archive (disk Example.hotfix)
               = {[ archiveFileName "java-best-practices" ("2024-07" +:+ "-" +:+ "hotfix")
                      Example.july :=
                      {| content := "Prefer records."; mtime := Example.july |} ]})
    by reflexivity.
  assert (H2 : activeContent (disk Example.hotfix) "java-best-practices"
               = Some "Prefer sealed types.") by (by vm_compute).
  assert (H3 : storedHistory (disk Example.hotfix) "java-best-practices"
               = Some [archiveEntry "java-best-practices" "2024-07-hotfix" Example.july])
    by (by vm_compute).
  assert (H4 : Forall (λ entry, version entry ≠ "2024-07")
                 [archiveEntry "java-best-practices" "2024-07-hotfix" Example.july])
    by (constructor; [intros E; discriminate E | constructor]).
  assert (H5 : archiveFileName "java-best-practices"
                 (rollbackBackupVersion Example.september) Example.september
               ≠ archiveFileName "java-best-practices" ("2024-07" +:+ "-" +:+ "hotfix")
                   Example.july)
    by (vm_compute; intros E; discriminate E).
  destruct (rollback_takes_archive_of_longer_version "java-best-practices" "2024-07"
              "hotfix" "Prefer sealed types."
              {| content := "Prefer records."; mtime := Example.july |}
              [archiveEntry "java-best-practices" "2024-07-hotfix" Example.july]
              Example.july Example.september Example.hotfix H0 H1 H2 H3 H4 H5)
    as (Hret & _ & Hact & _).
  split; [exact H0|]. split; [exact H3|]. split; [exact H2|].
  split; [exact Hret | exact Hact].
Defined.

Lemma readdir_insert {V} (m : gmap string V) (k file : string) (v : V) :
  file ∈ (map_to_list (<[k := v]> m)).*1 ↔ file = k ∨ is_Some (m !! file).
Proof.
  split.
  - intros H. apply readdir_names in H.
    destruct (decide (file = k)) as [->|Hne]; [by left|].
    right. by rewrite lookup_insert_ne in H.
  - intros H. apply list_elem_of_fmap.
    destruct H as [->|[x Hx]].
    + exists (k, v). split; [done|]. apply elem_of_map_to_list, lookup_insert_eq.
    + destruct (decide (file = k)) as [->|Hne].
      * exists (k, v). split; [done|]. apply elem_of_map_to_list, lookup_insert_eq.
      * exists (file, x). split; [done|].
        apply elem_of_map_to_list. by rewrite lookup_insert_ne.
Qed.

(** X7. Archives carry the label of the deploy that made them, not of the
    content they hold. On a disk that refuses no read and no write and
    whose history file holds a history, after an archive-then-deploy of
    version [v] over an active rule, a rollback to [v] (no other archive of
    [v] existing, and the backup archive named differently from the archive
    of [v]) returns, restores the content that [v] replaced, keeps the
    content of [v] as a rollback-backup archive, and the deployment record
    still names [v]. *)
Theorem rollback_to_deployed_version_restores_previous (ruleType previous : string)
    (q : DeployRequest) (h : list RuleHistoryEntry) (later : Date) (w : World) :
  Working (disk w) →
  activeContent (disk w) ruleType = Some previous →
  storedHistory (disk w) ruleType = Some h →
  (∀ file, is_Some (archive (disk w) !! file) →
           isArchiveOf ruleType (req_version q) file = false) →
  archiveFileName ruleType (rollbackBackupVersion later) later
  ≠ archiveFileName ruleType (req_version q) (req_now q) →
  let w1 := (archiveThenDeploy ruleType q w).2 in
  let r := rollbackToVersion ruleType (req_version q) later w1 in
  activeContent (disk w1) ruleType
  = Some (addVersionHeader (req_content q) (req_version q) ruleType (req_now q))
  ∧ r.1 = Returned ()
  ∧ activeContent (disk r.2) ruleType = Some previous
  ∧ archive (disk r.2) !! archiveFileName ruleType (rollbackBackupVersion later) later
    = Some {| content := addVersionHeader (req_content q) (req_version q) ruleType
                           (req_now q);
              mtime := later |}
  ∧ (getRuleVersionInfo ruleType r.2).1 = (getRuleVersionInfo ruleType w1).1
  ∧ ∃ info, (getRuleVersionInfo ruleType r.2).1 = Returned (Some info)
            ∧ vi_currentVersion info = Some (req_version q).
Proof.
  intros Hw Hc Hh Hnone Hne w1 r.
  set (aname := archiveFileName ruleType (req_version q) (req_now q)) in *.
  set (vc := addVersionHeader (req_content q) (req_version q) ruleType (req_now q)).
  assert (Hw1 : archive (disk w1)
                = <[aname := {| content := previous; mtime := req_now q |}]> (archive (disk w))
                ∧ activeContent (disk w1) ruleType = Some vc
                ∧ storedHistory (disk w1) ruleType
                  = Some (pushCapped h (archiveEntry ruleType (req_version q) (req_now q)))
                ∧ (∃ info, metadata (disk w1) !! deploymentPath ruleType
                           = Some (DeploymentJson info)
                           ∧ currentVersion info = req_version q)
                ∧ Working (disk w1)).
  { subst w1. unfold archiveThenDeploy, bind.
    rewrite (archiveCurrentRule_run _ _ previous h) by done.
    rewrite deployNewRule_run by (by apply Working_replay).
    cbn [fst snd disk journal]. split; [done|]. split; [|split; [|split]].
    - unfold activeContent. simpl. apply lookup_insert_eq.
    - unfold storedHistory. simpl. rewrite Hw.
      rewrite lookup_insert_ne
        by (intros E; exact (historyPath_not_deploymentPath ruleType (eq_sym E))).
      by rewrite lookup_insert_eq.
    - eexists. split; [apply lookup_insert_eq | done].
    - by do 2 apply Working_replay. }
  destruct Hw1 as (Harch & Hact & Hhist & (info & Hinfo & Hver) & Hwork1).
  assert (Hfind : List.find (isArchiveOf ruleType (req_version q))
                    (map_to_list (archive (disk w1))).*1 = Some aname).
  { apply find_unique.
    - rewrite Harch. apply readdir_insert. by left.
    - apply archiveFileName_isArchiveOf.
    - intros y Hy Hf. rewrite Harch in Hy. apply readdir_insert in Hy as [->|Hy]; [done|].
      rewrite (Hnone y Hy) in Hf. discriminate Hf. }
  assert (Htarget : archive (disk w1) !! aname
                    = Some {| content := previous; mtime := req_now q |})
    by (rewrite Harch; apply lookup_insert_eq).
  destruct (rollbackToVersion_run ruleType (req_version q) aname vc _ _ later w1
              Hwork1 Hfind Htarget Hact Hhist Hne) as (Hret & Hrule & Harch2 & _ & Hmeta & Hr).
  fold r in Hret, Hrule, Harch2, Hmeta, Hr.
  assert (Hinfo2 : (getRuleVersionInfo ruleType r.2).1 = (getRuleVersionInfo ruleType w1).1)
    by (by apply getRuleVersionInfo_same).
  split; [exact Hact|]. split; [exact Hret|]. split; [|split; [|split; [exact Hinfo2|]]].
  - unfold activeContent. rewrite Hrule. apply lookup_insert_eq.
  - rewrite Harch2. apply lookup_insert_eq.
  - rewrite Hinfo2.
    unfold getRuleVersionInfo, Fs.readMeta, Fs.readOr, Fs.lookupOr, bind, tryCatch, emit,
      inspect, ret.
    simpl. rewrite Hwork1, Hinfo. eexists. split; [reflexivity|].
    simpl. by rewrite Hver.
Qed.

Lemma rollback_to_deployed_version_restores_previous_witness :
  let previous := addVersionHeader "Use uv." "2025-08" "python-best-practices"
                    Example.august in
  let w1 := (archiveThenDeploy "python-best-practices" Example.second
               Example.deployedOnce).2 in
  let r := rollbackToVersion "python-best-practices" "2025-09"
             {| getTime := 1759276800000; toISOString := "2025-10-01T00:00:00.000Z" |} w1 in
  Working (disk Example.deployedOnce)
  ∧ activeContent (disk Example.deployedOnce) "python-best-practices" = Some previous
  ∧ r.1 = Returned ()
  ∧ activeContent (disk r.2) "python-best-practices" = Some previous.
Proof.
  intros previous w1 r.
  assert (H0 : Working (disk Example.deployedOnce)) by (intros a; by vm_compute).
  assert (H1 : activeContent (disk Example.deployedOnce) "python-best-practices"
               = Some previous) by (by vm_compute).
  split; [exact H0|]. split; [exact H1|].
  destruct (rollback_to_deployed_version_restores_previous "python-best-practices"
              previous Example.second []
              {| getTime := 1759276800000; toISOString := "2025-10-01T00:00:00.000Z" |}
              Example.deployedOnce H0 H1 ltac:(by vm_compute)
              ltac:(intros file [x Hx]; vm_compute in Hx; discriminate Hx)
              ltac:(vm_compute; intros H; discriminate H))
    as (_ & H2 & H3 & _).
  split; [exact H2 | exact H3].
Defined.

End RoundTrip.

(** ** Version labels read back from archive names *)

Section Versions.

Import RuleVersionManager.

Lemma prefix_split (p s : string) :
  String.prefix p s = true → ∃ r, s = p +:+ r.
Proof.
  revert s. induction p as [|c p IH]; intros s H.
  - by exists s.
  - destruct s as [|d s]; [discriminate H|]. simpl in H.
    destruct (Ascii.ascii_dec c d) as [->|]; [|discriminate H].
    destruct (IH s H) as [r ->]. exists r. by rewrite append_cons.
Qed.

Lemma removeFirst_word (a s : string) :
  word a = true → Js.removeFirst ".md" (a +:+ "-" +:+ s) = a +:+ "-" +:+ Js.removeFirst ".md" s.
Proof.
  intros Ha. induction a as [|c a IH].
  - reflexivity.
  - simpl in Ha. apply andb_prop in Ha as [Hc Ha]. apply andb_prop in Hc as [_ Hdot].
    rewrite !append_cons. cbn [Js.removeFirst String.prefix].
    destruct (Ascii.ascii_dec "." c) as [<-|_]; [discriminate Hdot|].
    f_equal. exact (IH Ha).
Qed.

Lemma splitDash_word (a s : string) :
  word a = true → Js.splitDash (a +:+ "-" +:+ s) = a :: Js.splitDash s.
Proof.
  intros Ha. induction a as [|c a IH].
  - reflexivity.
  - simpl in Ha. apply andb_prop in Ha as [Hc Ha]. apply andb_prop in Hc as [Hdash _].
    rewrite append_cons. cbn [Js.splitDash].
    destruct (Ascii.eqb c "-"); [discriminate Hdash|].
    by rewrite (IH Ha).
Qed.

Lemma splitDash_nonempty (s : string) : Js.splitDash s ≠ [].
Proof.
  induction s as [|c s IH]; [done|]. simpl.
  destruct (Ascii.eqb c "-"); [done|]. by destruct (Js.splitDash s).
Qed.

Lemma versionOfFile_second_word (a b rest : string) :
  word a = true → word b = true →
  versionOfFile (a +:+ "-" +:+ b +:+ "-" +:+ rest) = b.
Proof.
  intros Ha Hb. unfold versionOfFile.
  rewrite removeFirst_word, removeFirst_word by done.
  rewrite splitDash_word, splitDash_word by done.
  destruct (Js.splitDash (Js.removeFirst ".md" rest)) eqn:E.
  - by apply splitDash_nonempty in E.
  - cbn [length]. destruct (decide (2 ≤ _)%nat) as [|Hn]; [done|]. lia.
Qed.

Lemma elem_of_uniqueFrom (seen l : list string) (x : string) :
  x ∈ Js.uniqueFrom seen l → x ∈ l.
Proof.
  revert seen. induction l as [|y l IH]; intros seen H; simpl in H.
  - by apply elem_of_nil in H.
  - destruct (bool_decide (y ∈ seen)).
    + right. by apply (IH seen).
    + apply elem_of_cons in H as [->|H]; [left|right; by apply (IH (y :: seen))].
Qed.

Lemma uniqueFrom_NoDup (seen l : list string) :
  NoDup (Js.uniqueFrom seen l) ∧ ∀ x, x ∈ Js.uniqueFrom seen l → x ∉ seen.
Proof.
  revert seen. induction l as [|y l IH]; intros seen; simpl.
  - split; [constructor|]. intros x H. by apply elem_of_nil in H.
  - destruct (bool_decide (y ∈ seen)) eqn:E; [apply IH|].
    apply bool_decide_eq_false in E.
    destruct (IH (y :: seen)) as [Hnd Hnot]. split.
    + constructor; [|done]. intros H. apply (Hnot y H). by left.
    + intros x [->|H]%elem_of_cons; [done|].
      intros Hs. apply (Hnot x H). by right.
Qed.

(** X8. [listAvailableVersions] takes the second hyphen-separated word of
    the file name for the version. For a rule type of two or more words
    (such as python-best-practices) that word belongs to the rule type:
    whatever was archived, the list holds nothing but that word, at most
    once. *)
Theorem listAvailableVersions_second_word (a b rest : string) (w : World) :
  word a = true → word b = true →
  let ruleType := a +:+ "-" +:+ b +:+ "-" +:+ rest in
  ∃ versions, (listAvailableVersions ruleType w).1 = Returned versions
              ∧ (versions = [] ∨ versions = [b]).
Proof.
  intros Ha Hb ruleType.
  unfold listAvailableVersions, Fs.readdirArchive, tryCatch, bind, inspect, ret, emit.
  cbn [fst snd disk]. eexists. split; [reflexivity|].
  set (files := (map_to_list (archive (disk w))).*1).
  set (l := List.filter _ (map versionOfFile _)).
  assert (Hall : ∀ x, x ∈ Js.unique l → x = b).
  { intros x Hx. apply elem_of_uniqueFrom in Hx.
    apply list_elem_of_In, List.filter_In in Hx as [Hx _].
    apply List.in_map_iff in Hx as (file & <- & Hfile).
    apply List.filter_In in Hfile as [_ Hfile].
    apply andb_prop in Hfile as [Hstart _].
    apply prefix_split in Hstart as [r ->]. subst ruleType.
    rewrite !append_assoc. by apply versionOfFile_second_word. }
  pose proof (uniqueFrom_NoDup [] l) as [Hnd _]. fold (Js.unique l) in Hnd.
  destruct (Js.unique l) as [|x [|y t]]; [by left|right|exfalso].
  - f_equal. apply Hall. by left.
  - assert (x = b) as -> by (apply Hall; by left).
    assert (y = b) as -> by (apply Hall; right; by left).
    apply NoDup_cons in Hnd as [Hnot _]. apply Hnot. by left.
Qed.

Lemma listAvailableVersions_second_word_witness :
  (listAvailableVersions "python-best-practices"
     (archiveThenDeploy "python-best-practices" Example.second Example.deployedOnce).2).1
  = Returned ["best"].
Proof.
  destruct (listAvailableVersions_second_word "python" "best" "practices"
              (archiveThenDeploy "python-best-practices" Example.second
                 Example.deployedOnce).2 eq_refl eq_refl) as (versions & Hrun & Hv).
  cbv zeta in Hrun. change ("python" +:+ "-" +:+ "best" +:+ "-" +:+ "practices")
    with "python-best-practices" in Hrun.
  rewrite Hrun. cbn [fst]. f_equal.
  assert (Hc : (listAvailableVersions "python-best-practices"
                  (archiveThenDeploy "python-best-practices" Example.second
                     Example.deployedOnce).2).1 = Returned ["best"]) by (by vm_compute).
  rewrite Hrun in Hc. by injection Hc.
Defined.

(** X9. For a rule type and a version of one word each, the version read
    back from the name [archiveCurrentRule] gives the archive is the
    version that was archived. *)
Theorem versionOfFile_archiveFileName (ruleType version : string) (now : Date) :
  word ruleType = true → word version = true →
  versionOfFile (archiveFileName ruleType version now) = version.
Proof.
  intros Hr Hv. unfold archiveFileName. by apply versionOfFile_second_word.
Qed.

Lemma versionOfFile_archiveFileName_witness :
  versionOfFile (archiveFileName "python" "v2" Example.august) = "v2".
Proof. exact (versionOfFile_archiveFileName "python" "v2" Example.august eq_refl eq_refl). Defined.

(** X10. The active file of a rule type always carries the .md suffix, once:
    a rule type written with the suffix and the same rule type written
    without it share the active file, but not the history file and not
    the deployment record. *)
Theorem getRuleFilePath_suffix (ruleType : string) :
  Js.endsWith ruleType ".md" = false →
  getRuleFilePath (ruleType +:+ ".md") = getRuleFilePath ruleType
  ∧ Js.endsWith (getRuleFilePath ruleType) ".md" = true
  ∧ historyPath (ruleType +:+ ".md") ≠ historyPath ruleType
  ∧ deploymentPath (ruleType +:+ ".md") ≠ deploymentPath ruleType.
Proof.
  intros H. unfold getRuleFilePath. rewrite H, endsWith_append.
  split; [done|]. split; [done|].
  unfold historyPath, deploymentPath.
  split; intros E; rewrite append_assoc in E; apply append_cancel in E; discriminate E.
Qed.

Lemma getRuleFilePath_suffix_witness :
  getRuleFilePath "python-best-practices.md" = getRuleFilePath "python-best-practices"
  ∧ historyPath "python-best-practices.md" ≠ historyPath "python-best-practices".
Proof.
  destruct (getRuleFilePath_suffix "python-best-practices" eq_refl) as (H1 & _ & H2 & _).
  split; [exact H1 | exact H2].
Defined.

End Versions.

(** ** The checksum *)

Section Checksum.

Import RuleVersionManager.

Local Open Scope Z_scope.

Lemma toInt32_mod (z : Z) : Js.toInt32 z `mod` 2 ^ 32 = z `mod` 2 ^ 32.
Proof.
  unfold Js.toInt32.
  rewrite <- (Zminus_mod_idemp_l ((z + 2 ^ 31) `mod` 2 ^ 32)), Z.mod_mod by lia.
  rewrite Zminus_mod_idemp_l. f_equal. lia.
Qed.

Lemma toInt32_congr (x y : Z) : x `mod` 2 ^ 32 = y `mod` 2 ^ 32 → Js.toInt32 x = Js.toInt32 y.
Proof.
  intros H. unfold Js.toInt32. f_equal.
  rewrite <- (Zplus_mod_idemp_l x), <- (Zplus_mod_idemp_l y). by rewrite H.
Qed.

Lemma toInt32_range (z : Z) : - 2 ^ 31 ≤ Js.toInt32 z < 2 ^ 31.
Proof. unfold Js.toInt32. pose proof (Z.mod_pos_bound (z + 2 ^ 31) (2 ^ 32)). lia. Qed.

Lemma toInt32_idemp (z : Z) : Js.toInt32 (Js.toInt32 z) = Js.toInt32 z.
Proof. apply toInt32_congr, toInt32_mod. Qed.

(** One turn of the loop is [31 * checksum + code], wrapped to 32 bits. *)
Lemma checksumStep_arith (c code : Z) : checksumStep c code = Js.toInt32 (31 * c + code).
Proof.
  unfold checksumStep, Js.band, Js.shl.
  change (Js.toInt32 4294967295) with (-1). rewrite Z.land_m1_r, toInt32_idemp.
  apply toInt32_congr.
  rewrite Z.shiftl_mul_pow2 by lia.
  rewrite <- Zplus_mod_idemp_l, <- Zminus_mod_idemp_l, toInt32_mod.
  rewrite <- (Zmult_mod_idemp_l (Js.toInt32 c)), toInt32_mod, Zmult_mod_idemp_l.
  rewrite Zminus_mod_idemp_l, Zplus_mod_idemp_l. f_equal. lia.
Qed.

Lemma charCodes_app (a b : string) : Js.charCodes (a +:+ b) = Js.charCodes a ++ Js.charCodes b.
Proof. induction a as [|c a IH]; [done|]. rewrite append_cons. simpl. by rewrite IH. Qed.

Lemma fold_left_step {A B} (f : A → B → A) (x : B) (l : list B) (a : A) :
  fold_left f (x :: l) a = fold_left f l (f a x).
Proof. reflexivity. Qed.

Lemma checksum_range (l : list Z) (z : Z) :
  - 2 ^ 31 ≤ z < 2 ^ 31 → - 2 ^ 31 ≤ fold_left checksumStep l z < 2 ^ 31.
Proof.
  revert z. induction l as [|x l IH]; intros z Hz; [done|].
  rewrite fold_left_step. apply IH. rewrite checksumStep_arith. apply toInt32_range.
Qed.

Lemma charCodes_Aa (after : string) :
  Js.charCodes ("Aa" +:+ after) = 65 :: 97 :: Js.charCodes after.
Proof. reflexivity. Qed.

Lemma charCodes_BB (after : string) :
  Js.charCodes ("BB" +:+ after) = 66 :: 66 :: Js.charCodes after.
Proof. reflexivity. Qed.

Lemma checksumStep_Aa_BB (h : Z) :
  checksumStep (checksumStep h 65) 97 = checksumStep (checksumStep h 66) 66.
Proof.
  rewrite !checksumStep_arith. apply toInt32_congr.
  rewrite <- Zplus_mod_idemp_l, <- Zmult_mod_idemp_r, toInt32_mod, Zmult_mod_idemp_r,
    Zplus_mod_idemp_l.
  symmetry.
  rewrite <- Zplus_mod_idemp_l, <- Zmult_mod_idemp_r, toInt32_mod, Zmult_mod_idemp_r,
    Zplus_mod_idemp_l.
  f_equal. lia.
Qed.

(** X11. The checksum is the 32-bit polynomial hash with multiplier 31: it
    stays a signed 32-bit value whatever the content, and it cannot tell
    apart two contents that differ only by Aa against BB at one place. *)
Theorem calculateChecksum_collides (before after : string) :
  (- 2 ^ 31 ≤ checksumOf (before +:+ "Aa" +:+ after) < 2 ^ 31)
  ∧ before +:+ "Aa" +:+ after ≠ before +:+ "BB" +:+ after
  ∧ calculateChecksum (before +:+ "Aa" +:+ after)
    = calculateChecksum (before +:+ "BB" +:+ after).
Proof.
  split; [|split].
  - unfold checksumOf. apply checksum_range. lia.
  - intros H. apply append_cancel in H. discriminate H.
  - unfold calculateChecksum. f_equal.
    rewrite (charCodes_app before ("Aa" +:+ after)), (charCodes_app before ("BB" +:+ after)).
    rewrite !fold_left_app, charCodes_Aa, charCodes_BB, !fold_left_step.
    f_equal. apply checksumStep_Aa_BB.
Qed.

End Checksum.

(** ** Trend analysis: what a fresh analysis can score *)

Section FreshScore.

Import TrendAnalyzer.
Local Open Scope Q_scope.

(** The weekly growth of a draw that [Math.random()] can give is at most
    14. *)
Lemma weeklyGrowth_range (downloadsDraw growthDraw : Q) :
  growthDraw <= maxRandom →
  weeklyGrowth (analyzePackageTrends downloadsDraw growthDraw) <= 14.
Proof.
  intros H1. cbn [weeklyGrowth analyzePackageTrends].
  change 14 with (inject_Z 14). rewrite <- Zle_Qle.
  apply Z.le_trans with (Qfloor (Binary64.sub (Binary64.mul maxRandom 20) 5));
    [|by vm_compute].
  apply Qfloor_resp_le. unfold Binary64.sub, Binary64.mul.
  apply round_mono. apply Qplus_le_compat; [|apply Qle_refl].
  apply round_mono. by apply Qmult_le_compat_r.
Qed.

(** The weekly growth is a whole number. *)
Lemma weeklyGrowth_whole (downloadsDraw growthDraw : Q) :
  10 < weeklyGrowth (analyzePackageTrends downloadsDraw growthDraw) →
  11 <= weeklyGrowth (analyzePackageTrends downloadsDraw growthDraw).
Proof.
  cbn [weeklyGrowth analyzePackageTrends]. intros H.
  change 10 with (inject_Z 10) in H. rewrite <- Zlt_Qlt in H.
  change 11 with (inject_Z 11). rewrite <- Zle_Qle. lia.
Qed.

Lemma analyzeGitHubTrends_positive (api : Credentials) (src : Sources) :
  0 < totalRepos (analyzeGitHubTrends (githubToken api) (repositories src)) →
  repositoriesFound api src.
Proof.
  unfold repositoriesFound, analyzeGitHubTrends.
  destruct (githubToken api); [|intros H; by apply Qlt_irrefl in H].
  destruct (repositories src) as [| |data]; try (intros H; by apply Qlt_irrefl in H).
  intros H. split; [done|]. by exists data.
Qed.

Lemma analyzeStackOverflowTrends_positive (api : Credentials) (src : Sources) :
  0 < totalQuestions (analyzeStackOverflowTrends (stackoverflowApiKey api) (questions src)) →
  questionsFound api src.
Proof.
  unfold questionsFound, analyzeStackOverflowTrends.
  destruct (stackoverflowApiKey api); [|intros H; by apply Qlt_irrefl in H].
  destruct (questions src) as [| |data]; try (intros H; by apply Qlt_irrefl in H).
  intros H. split; [done|]. by exists data.
Qed.

Lemma analysed_score (api : Credentials) (src : Sources) (now : Date) :
  growthDraw src <= maxRandom →
  updatePriority (analysed api src now) <= 0.75
  ∧ (0.7 < updatePriority (analysed api src now) →
     repositoriesFound api src ∧ questionsFound api src
     ∧ 11 <= weeklyGrowth (packageTrends (trends (analysed api src now)))).
Proof.
  intros H1. cbn [analysed updatePriority trends].
  pose proof (weeklyGrowth_range (downloadsDraw src) (growthDraw src) H1) as Hw.
  destruct (score_without_breaking_change (trendsOf api src) eq_refl Hw) as [Hle Hgt].
  split; [exact Hle|]. intros Hs. destruct (Hgt Hs) as (Hr & Hq & Hg).
  cbn [trendsOf githubTrends stackOverflowTrends packageTrends] in Hr, Hq, Hg |- *.
  split; [by apply analyzeGitHubTrends_positive|].
  split; [by apply analyzeStackOverflowTrends_positive|].
  by apply weeklyGrowth_whole.
Qed.

Lemma analyzeTechnology_miss (api : Credentials) (src : Sources) (technology : string)
    (now : Date) (trendCache : Cache) :
  trendCache !! technology = None →
  analyzeTechnology api src technology now trendCache
  = (analysed api src now, <[technology := (analysed api src now, getTime now)]> trendCache).
Proof. intros H. unfold analyzeTechnology. by rewrite H. Qed.

(** X12. A technology analysed afresh (not answered from the cache), with
    a growth draw that [Math.random()] can give (a binary64 number below
    1), scores at most 0.75 in binary64 arithmetic, and it scores above
    the 0.7 of the weekly check only if GitHub and Stack Overflow both
    answered with a positive count and the weekly growth drawn is at least
    11: no breaking change is ever reported and the weekly growth is a
    whole number of at most 14. *)
Theorem analyzeTechnology_fresh_score (api : Credentials) (src : Sources)
    (technology : string) (now : Date) (trendCache : Cache) :
  growthDraw src <= maxRandom →
  trendCache !! technology = None →
  let trendData := (analyzeTechnology api src technology now trendCache).1 in
  updatePriority trendData <= 0.75
  ∧ (0.7 < updatePriority trendData →
     repositoriesFound api src ∧ questionsFound api src
     ∧ 11 <= weeklyGrowth (packageTrends (trends trendData))).
Proof.
  intros H1 Hmiss. rewrite analyzeTechnology_miss by done. cbn [fst].
  by apply analysed_score.
Qed.

Lemma analyzeTechnology_fresh_score_witness :
  updatePriority (analyzeTechnology Sample.api Sample.popular "python" Example.august ∅).1
  <= 0.75
  ∧ repositoriesFound Sample.api Sample.popular
  ∧ questionsFound Sample.api Sample.popular.
Proof.
  assert (Hdraw : growthDraw Sample.popular <= maxRandom) by discriminate.
  assert (Hhigh : 0.7 < updatePriority
                          (analyzeTechnology Sample.api Sample.popular "python"
                             Example.august ∅).1)
    by (apply Qlt_alt; by vm_compute).
  destruct (analyzeTechnology_fresh_score Sample.api Sample.popular "python"
              Example.august ∅ Hdraw (lookup_empty _))
    as [Hle Hgt].
  split; [exact Hle|].
  destruct (Hgt Hhigh) as (Hr & Hq & _). by split.
Defined.

(** X13. The cache answers a second analysis within two hours with the data
    of the first, whatever the sources say by then, and leaves the cache
    as it is; from two hours on the technology is analysed again. *)
Theorem analyzeTechnology_cached (api : Credentials) (first second : Sources)
    (technology : string) (now later : Date) (trendCache : Cache) :
  trendCache !! technology = None →
  let r1 := analyzeTechnology api first technology now trendCache in
  let r2 := analyzeTechnology api second technology later r1.2 in
  ((getTime later - getTime now < cacheDuration)%Z → r2 = r1)
  ∧ ((cacheDuration ≤ getTime later - getTime now)%Z → r2.1 = analysed api second later).
Proof.
  intros Hmiss r1 r2. subst r1 r2. rewrite (analyzeTechnology_miss api first) by done.
  cbn [fst snd]. unfold analyzeTechnology at 1 2.
  rewrite lookup_insert_eq. cbn [fst snd].
  split; intros H; destruct (decide _) as [Hd|Hd]; try done; lia.
Qed.

Lemma analyzeTechnology_cached_witness :
  analyzeTechnology Sample.api Sample.unreachable "python" Sample.hourLater
    (analyzeTechnology Sample.api Sample.popular "python" Example.august ∅).2
  = analyzeTechnology Sample.api Sample.popular "python" Example.august ∅.
Proof.
  exact (proj1 (analyzeTechnology_cached Sample.api Sample.popular Sample.unreachable
                  "python" Example.august Sample.hourLater ∅ (lookup_empty _))
           ltac:(by vm_compute)).
Defined.

End FreshScore.

(** ** The task functions of the scheduler *)

Section Tasks.

Import TrendAnalyzer QueueService ScheduledTasks.

Variable k : Collaborators.
Variable api : Credentials.

(** *** weekly-rule-check *)

Lemma elem_of_setResult (tech : string) (trends : TrendData)
    (results : list (string * TrendData)) (e : string * TrendData) :
  e ∈ setResult tech trends results → e = (tech, trends) ∨ e ∈ results.
Proof.
  induction results as [|[k0 v] rest IH]; simpl.
  - intros H. apply list_elem_of_singleton in H. by left.
  - destruct (String.eqb k0 tech) eqn:E.
    + apply String.eqb_eq in E as ->.
      intros [->|H]%elem_of_cons; [by left|right; by right].
    + intros [->|H]%elem_of_cons; [right; by left|].
      destruct (IH H) as [->|?]; [by left|right; by right].
Qed.

Lemma analyzeEach_analysed (sources : string → Sources) (technologies : list string)
    (now : Date) (results : list (string * TrendData)) (trendCache : Cache) :
  (∀ t d, (t, d) ∈ results → d = analysed api (sources t) now) →
  (∀ t d ts, trendCache !! t = Some (d, ts) →
             d = analysed api (sources t) now ∧ ts = getTime now) →
  ∀ t d, (t, d) ∈ (analyzeEach api sources technologies now results trendCache).1 →
         d = analysed api (sources t) now.
Proof.
  revert results trendCache.
  induction technologies as [|tech rest IH]; intros results trendCache Hres Hcache.
  - exact Hres.
  - cbn [analyzeEach].
    assert (Hstep : ∃ c, TrendAnalyzer.analyzeTechnology api (sources tech) tech now trendCache
                         = (analysed api (sources tech) now, c)
                         ∧ ∀ t d ts, c !! t = Some (d, ts) →
                                     d = analysed api (sources t) now ∧ ts = getTime now).
    { destruct (trendCache !! tech) as [[d ts]|] eqn:E.
      - destruct (Hcache _ _ _ E) as [-> ->]. exists trendCache. split; [|exact Hcache].
        unfold TrendAnalyzer.analyzeTechnology. rewrite E. cbn [fst snd].
        destruct (decide _) as [|Hn]; [done|]. exfalso. apply Hn. unfold cacheDuration. lia.
      - rewrite analyzeTechnology_miss by done. eexists. split; [done|].
        intros t d ts. destruct (decide (t = tech)) as [->|Hne].
        + rewrite lookup_insert_eq. by intros [= <- <-].
        + rewrite lookup_insert_ne by done. apply Hcache. }
    destruct Hstep as (c & -> & Hc). apply IH; [|exact Hc].
    intros t d [[= -> ->]|H]%elem_of_setResult; [done|by apply Hres].
Qed.

Lemma queueAll_done (technologies : list string) (done : list Action) (a : Action) :
  a ∈ (queueAll k technologies done).2 →
  a ∈ done ∨ ∃ t, t ∈ technologies ∧ a = Add RuleGenerationQueue (weeklyJob t) 1.
Proof.
  revert done. induction technologies as [|t rest IH]; intros done; cbn [queueAll].
  - by left.
  - unfold add. destruct (takes k RuleGenerationQueue (weeklyJob t)); [|by left].
    intros H. destruct (IH _ H) as [Hd|(t' & Ht' & ->)].
    + apply elem_of_app in Hd as [?| ->%list_elem_of_singleton]; [by left|].
      right. exists t. split; [by left|done].
    + right. exists t'. split; [by right|done].
Qed.

Lemma weeklyRuleCheck_adds (allTrends : list (string * TrendData)) (a : Action) :
  a ∈ (weeklyRuleCheck k allTrends).2 →
  (∃ n s f l, a = SendSummary "weekly-rule-check" n s f l)
  ∨ ∃ t d, (t, d) ∈ allTrends ∧ (0.7 < updatePriority d)%Q
           ∧ a = Add RuleGenerationQueue (weeklyJob t) 1.
Proof.
  unfold weeklyRuleCheck. intros H.
  assert (Hq : a ∈ (queueAll k (highPriorityTechnologies allTrends) []).2
               ∨ ∃ n s f l, a = SendSummary "weekly-rule-check" n s f l).
  { destruct (queueAll k (highPriorityTechnologies allTrends) []) as [[|] done];
      [|by left]. cbn [snd] in *.
    apply elem_of_app in H as [?|H]; [by left|right].
    unfold notify in H. destruct (notificationService k).
    - apply list_elem_of_singleton in H. by repeat eexists.
    - by apply elem_of_nil in H. }
  destruct Hq as [Hq|?]; [|by left]. right.
  apply queueAll_done in Hq as [Hq|(t & Ht & ->)]; [by apply elem_of_nil in Hq|].
  unfold highPriorityTechnologies in Ht.
  apply list_elem_of_fmap in Ht as ([t' d] & -> & Hin).
  apply list_elem_of_In, List.filter_In in Hin as [Hin Hhigh].
  exists t', d. split; [by apply list_elem_of_In|]. split; [|done].
  unfold isHighPriority in Hhigh. cbn [snd] in Hhigh.
  by destruct (Qlt_le_dec 0.7 (updatePriority d)).
Qed.

(** X14. The weekly rule check, run on an empty cache with growth draws
    that [Math.random()] can give (binary64 numbers below 1) and scores
    computed in binary64 arithmetic, queues a rule generation only for a
    technology for which GitHub and Stack Overflow both answered with a
    positive count and whose weekly growth drawn is at least 11; the job
    has priority high (number 1) and update type major. Without a GitHub
    token or a Stack Overflow key it queues nothing. *)
Theorem weeklyRuleCheck_queues_only_with_both_sources (sources : string → Sources)
    (supportedTechnologies : list string) (now : Date)
    (queue : QueueName) (jobData : JobData) (n : Z) :
  (∀ t, (growthDraw (sources t) <= maxRandom)%Q) →
  Add queue jobData n
  ∈ (weeklyRuleCheck k
       (TrendAnalyzer.analyzeAllTechnologies api sources supportedTechnologies now ∅).1).2 →
  queue = RuleGenerationQueue ∧ n = 1%Z
  ∧ jobData = weeklyJob (technology jobData)
  ∧ repositoriesFound api (sources (technology jobData))
  ∧ questionsFound api (sources (technology jobData))
  ∧ (11 <= weeklyGrowth
             (analyzePackageTrends (downloadsDraw (sources (technology jobData)))
                (growthDraw (sources (technology jobData)))))%Q.
Proof.
  intros Hdraw H.
  apply weeklyRuleCheck_adds in H as [(? & ? & ? & ? & [=])|(t & d & Hin & Hhigh & [= -> -> ->])].
  split; [done|]. split; [done|]. split; [done|]. cbn [technology weeklyJob].
  unfold TrendAnalyzer.analyzeAllTechnologies in Hin.
  apply analyzeEach_analysed in Hin as ->.
  - by apply (analysed_score api (sources t) now (Hdraw t)).
  - intros ? ? H. by apply elem_of_nil in H.
  - intros ? ? ? H. by rewrite lookup_empty in H.
Qed.

(** *** monthly-comprehensive-update *)

Lemma queueEach_tally (technologies : list string) (t : Tally) :
  let taken := List.filter (λ tech, takes k RuleGenerationQueue (monthlyJob tech))
                 technologies in
  queued (queueEach k technologies t)
  = queued t ++ map (λ tech, Add RuleGenerationQueue (monthlyJob tech) 5) taken
  ∧ successful (queueEach k technologies t) = successful t + length taken
  ∧ failed (queueEach k technologies t) = failed t + (length technologies - length taken)
  ∧ (length taken ≤ length technologies)%nat.
Proof.
  revert t. induction technologies as [|tech rest IH]; intros t; cbn zeta.
  - cbn. rewrite app_nil_r. repeat split; try done; lia.
  - cbn [queueEach List.filter]. unfold add.
    destruct (takes k RuleGenerationQueue (monthlyJob tech)).
    + destruct (IH {| successful := successful t + 1; failed := failed t;
                      queued := queued t ++ [Add RuleGenerationQueue (monthlyJob tech)
                                               (addPriority RuleGenerationQueue
                                                  (monthlyJob tech))] |})
        as (Hq & Hs & Hf & Hl).
      cbn zeta in *. rewrite Hq, Hs, Hf. cbn [queued successful failed length map].
      rewrite <- app_assoc. split; [done|]. lia.
    + destruct (IH {| successful := successful t; failed := failed t + 1;
                      queued := queued t |}) as (Hq & Hs & Hf & Hl).
      cbn zeta in *. rewrite Hq, Hs, Hf. cbn [queued successful failed length].
      split; [done|]. lia.
Qed.

(** X15. The monthly update always resolves; it queues one rule generation
    of priority medium (number 5) for every supported technology the queue
    takes, in order, a rejected job not stopping the others; and its
    summary, sent when there is a notification service, counts the jobs
    taken as successful and the others as failed. *)
Theorem monthlyComprehensiveUpdate_counts (supportedTechnologies : list string) :
  let taken := List.filter (λ tech, takes k RuleGenerationQueue (monthlyJob tech))
                 supportedTechnologies in
  monthlyComprehensiveUpdate k supportedTechnologies
  = (true,
     map (λ tech, Add RuleGenerationQueue (monthlyJob tech) 5) taken
     ++ notify k (SendSummary "monthly-comprehensive-update"
                    (length supportedTechnologies) (length taken)
                    (length supportedTechnologies - length taken)
                    supportedTechnologies))
  ∧ length taken + (length supportedTechnologies - length taken)
    = length supportedTechnologies.
Proof.
  cbn zeta. unfold monthlyComprehensiveUpdate.
  destruct (queueEach_tally supportedTechnologies
              {| successful := 0; failed := 0; queued := [] |}) as (Hq & Hs & Hf & Hl).
  cbn zeta in *. rewrite Hq, Hs, Hf. cbn [queued successful failed].
  split; [done|]. lia.
Qed.

(** *** security-advisory-check *)

Lemma collectAdvisories_medium (repos : list Repository)
    (advisories result : list SecurityAdvisory) :
  Forall (λ a, severity a = SevMedium) advisories →
  collectAdvisories repos advisories = Some result →
  Forall (λ a, severity a = SevMedium) result.
Proof.
  revert advisories. induction repos as [|repo rest IH]; intros advisories Hall; simpl.
  - by intros [= <-].
  - destruct (isSecurityRepository repo) as [[|]|]; [| |done].
    + apply IH. apply Forall_app. split; [done|]. by constructor.
    + by apply IH.
Qed.

Lemma checkSecurityAdvisories_medium (response : Response RepositorySearch) :
  Forall (λ a, severity a = SevMedium) (checkSecurityAdvisories api response)
  ∧ (length (checkSecurityAdvisories api response) ≤ 10)%nat.
Proof.
  unfold checkSecurityAdvisories.
  destruct (githubToken api); [|split; [constructor|simpl; lia]].
  destruct response as [| |data]; try (split; [constructor|simpl; lia]).
  destruct (collectAdvisories _ []) as [advisories|] eqn:E;
    [|split; [constructor|simpl; lia]].
  split.
  - apply Forall_take. by apply (collectAdvisories_medium _ [] _ (Forall_nil_2 _) E).
  - rewrite length_take. lia.
Qed.

Lemma no_critical_advisory (response : Response RepositorySearch) :
  List.filter isCritical (checkSecurityAdvisories api response) = [].
Proof.
  destruct (checkSecurityAdvisories_medium response) as [Hall _].
  induction Hall as [|a l Ha _ IH]; [done|].
  simpl. unfold isCritical at 1. by rewrite Ha.
Qed.

Lemma checkEach_nothing (responses : string → Response RepositorySearch)
    (technologies emergencyUpdates : list string) (done : list Action) :
  checkEach k api responses technologies emergencyUpdates done = (emergencyUpdates, done).
Proof.
  induction technologies as [|t rest IH]; [done|].
  cbn [checkEach]. rewrite no_critical_advisory. cbn [length].
  destruct (decide (0 < 0)%nat); [lia|done].
Qed.

(** X16. The security advisory check never queues an emergency update and
    never sends an alert: every advisory [checkSecurityAdvisories] builds
    has severity medium (and there are at most ten of them), and the task
    function looks for severity critical or high. *)
Theorem securityAdvisoryCheck_never_queues
    (responses : string → Response RepositorySearch)
    (supportedTechnologies : list string) :
  securityAdvisoryCheck k api responses supportedTechnologies = (true, [])
  ∧ ∀ technology,
      Forall (λ a, severity a = SevMedium)
        (checkSecurityAdvisories api (responses technology))
      ∧ (length (checkSecurityAdvisories api (responses technology)) ≤ 10)%nat.
Proof.
  split; [|intros; apply checkSecurityAdvisories_medium].
  unfold securityAdvisoryCheck. rewrite checkEach_nothing. cbn [length].
  by destruct (decide (0 < 0)%nat); [lia|].
Qed.

(** *** system-health-check *)

Lemma queueAlerts_nonempty (entry : string * JobCounts) :
  queueAlerts entry ≠ [] ↔ 10 < stats_failed entry.2 ∨ 50 < stats_waiting entry.2.
Proof.
  unfold queueAlerts.
  destruct (decide (10 < stats_failed entry.2)), (decide (50 < stats_waiting entry.2));
    simpl; split; intros H; try done; try (by left); try (by right).
  destruct H; lia.
Qed.

(** X17. The health check always resolves; with a notification service it
    broadcasts the system status on every run that gets the queue counts,
    and it sends an alert, of severity medium, exactly when some queue has
    more than 10 failed or more than 50 waiting jobs. Without a
    notification service it does nothing. *)
Theorem systemHealthCheck_alerts (stats : list (string * JobCounts)) :
  let r := systemHealthCheck k (Some stats) in
  r.1 = true
  ∧ (notificationService k = false → r.2 = [])
  ∧ (notificationService k = true →
     BroadcastSystemStatus ∈ r.2
     ∧ ((∃ message severity, SendAlert "system-health-alert" message severity ∈ r.2)
        ↔ ∃ entry, entry ∈ stats
                   ∧ (10 < stats_failed entry.2 ∨ 50 < stats_waiting entry.2))
     ∧ ∀ type message severity,
         SendAlert type message severity ∈ r.2 → severity = SevMedium).
Proof.
  cbn zeta. unfold systemHealthCheck, notify. cbn [fst snd].
  split; [done|]. split.
  - intros ->. by destruct (decide _).
  - intros ->.
    assert (Hne : (0 < length (flat_map queueAlerts stats))%nat
                  ↔ ∃ entry, entry ∈ stats
                             ∧ (10 < stats_failed entry.2 ∨ 50 < stats_waiting entry.2)).
    { induction stats as [|e rest IH]; simpl.
      - split; [lia|]. intros (? & H & _). by apply elem_of_nil in H.
      - rewrite length_app. split.
        + intros H. destruct (queueAlerts e) eqn:E.
          * simpl in H. apply IH in H as (e' & ? & ?). exists e'. split; [by right|done].
          * exists e. split; [by left|]. apply queueAlerts_nonempty. by rewrite E.
        + intros (e' & [->|Hin]%elem_of_cons & Hover).
          * apply queueAlerts_nonempty in Hover. destruct (queueAlerts e); [done|simpl; lia].
          * assert (0 < length (flat_map queueAlerts rest))%nat by (apply IH; by exists e').
            lia. }
    destruct (decide (0 < length (flat_map queueAlerts stats))%nat) as [Hpos|Hzero].
    + split; [right; by left|]. split.
      * split; [intros _; by apply Hne|]. intros _. do 2 eexists. by left.
      * intros ? ? ? [[= _ _ <-]|[[=]|H]%elem_of_cons]%elem_of_cons; [done|].
        by apply elem_of_nil in H.
    + split; [by left|]. split.
      * split.
        -- intros (? & ? & [[=]|H]%elem_of_cons). by apply elem_of_nil in H.
        -- intros H. by apply Hne in H.
      * intros ? ? ? [[=]|H]%elem_of_cons. by apply elem_of_nil in H.
Qed.

End Tasks.

Section TasksWitnesses.

Import TrendAnalyzer QueueService ScheduledTasks.

Lemma weeklyRuleCheck_queues_only_with_both_sources_witness :
  repositoriesFound Sample.api Sample.popular ∧ questionsFound Sample.api Sample.popular.
Proof.
  assert (Hin : Add RuleGenerationQueue (weeklyJob "python") 1
                ∈ (weeklyRuleCheck Sample.collaborators
                     (TrendAnalyzer.analyzeAllTechnologies Sample.api (λ _, Sample.popular)
                        ["python"] Example.august ∅).1).2).
  { assert (E : (weeklyRuleCheck Sample.collaborators
                   (TrendAnalyzer.analyzeAllTechnologies Sample.api (λ _, Sample.popular)
                      ["python"] Example.august ∅).1).2
                = [Add RuleGenerationQueue (weeklyJob "python") 1;
                   SendSummary "weekly-rule-check" 1 1 0 ["python"]]) by (by vm_compute).
    rewrite E. by left. }
  assert (Hdraw : ∀ t : string,
            (growthDraw ((λ _ : string, Sample.popular) t) <= maxRandom)%Q)
    by (intros _; discriminate).
  destruct (weeklyRuleCheck_queues_only_with_both_sources Sample.collaborators Sample.api
              (λ _, Sample.popular) ["python"] Example.august
              RuleGenerationQueue (weeklyJob "python") 1%Z Hdraw Hin)
    as (_ & _ & _ & Hr & Hq & _).
  split; [exact Hr | exact Hq].
Defined.

End TasksWitnesses.

(** ** NotificationService: the client limit, broadcasts and the heartbeat *)

Section Clients.

Import NotificationService.

Lemma size_sendToClient (clientId : string) (m : ServerMessage) (st : State) :
  (size (clients (sendToClient clientId m st)) ≤ size (clients st))%nat.
Proof.
  unfold sendToClient. destruct (clients st !! clientId) as [c|] eqn:E; [|done].
  destruct (negb (isOpen (ws c))); [done|]. destruct (sendThrows (ws c)); [|done].
  cbn [clients]. rewrite map_size_delete, E. simpl. lia.
Qed.

Lemma size_alter {V} (f : V → V) (i : string) (m : gmap string V) :
  size (alter f i m) = size m.
Proof. rewrite <- !(size_dom (D:=gset string)). by rewrite dom_alter_L. Qed.

Lemma size_insert_present (clientId : string) (c c' : ConnectedClient)
    (m : gmap string ConnectedClient) :
  m !! clientId = Some c → size (<[clientId := c']> m) = size m.
Proof.
  intros H. by rewrite map_size_insert, H.
Qed.

Lemma size_handleSubscription (clientId : string) (data : option ChannelData) (st : State) :
  (size (clients (handleSubscription clientId data st).2) ≤ size (clients st))%nat.
Proof.
  unfold handleSubscription. destruct (clients st !! clientId) as [c|] eqn:E; [|done].
  destruct data as [data|]; [|done]. cbn [snd].
  etrans; [apply size_sendToClient|]. cbn [clients].
  by rewrite (size_insert_present _ c).
Qed.

Lemma size_handleUnsubscription (clientId : string) (data : option ChannelData) (st : State) :
  (size (clients (handleUnsubscription clientId data st).2) ≤ size (clients st))%nat.
Proof.
  unfold handleUnsubscription. destruct (clients st !! clientId) as [c|] eqn:E; [|done].
  destruct data as [data|]; [|done]. cbn [snd].
  etrans; [apply size_sendToClient|]. cbn [clients].
  by rewrite (size_insert_present _ c).
Qed.

Lemma size_handleClientMessage (clientId : string) (m : ClientMessage) (now : Date)
    (st : State) :
  (size (clients (handleClientMessage clientId m now st).2) ≤ size (clients st))%nat.
Proof.
  unfold handleClientMessage. destruct (clients st !! clientId) as [c|] eqn:E; [|done].
  set (st' := {| clients := <[clientId := withLastActivity now c]> (clients st);
                 sent := sent st |}).
  assert (Hs : size (clients st') = size (clients st))
    by (cbn [clients st']; by rewrite (size_insert_present _ c)).
  rewrite <- Hs. destruct m; cbn [snd].
  - apply size_handleSubscription.
  - apply size_handleUnsubscription.
  - apply size_sendToClient.
  - apply size_sendToClient.
  - apply size_sendToClient.
Qed.

Lemma size_step (maxWebSocketClients : nat) (st : State) (ev : Event) :
  (size (clients st) ≤ maxWebSocketClients)%nat →
  (size (clients (step maxWebSocketClients st ev)) ≤ maxWebSocketClients)%nat.
Proof.
  intros H. destruct ev as [clientId socket now|clientId parsed now|clientId|clientId|
                            clientId socket]; cbn [step].
  - unfold onConnection. case_bool_decide as Hfull; [done|].
    etrans; [apply size_sendToClient|]. cbn [clients].
    destruct (clients st !! clientId) as [c|] eqn:E.
    + by rewrite (size_insert_present _ c).
    + rewrite map_size_insert_None by done. lia.
  - unfold onMessage. destruct parsed as [m|].
    + pose proof (size_handleClientMessage clientId m now st) as Hm.
      destruct (handleClientMessage clientId m now st) as [[?|?] st']; cbn [snd] in Hm.
      * lia.
      * etrans; [apply size_sendToClient|]. lia.
    + etrans; [apply size_sendToClient|]. done.
  - cbn [clients]. rewrite map_size_delete. destruct (clients st !! clientId); simpl; lia.
  - cbn [clients]. rewrite map_size_delete. destruct (clients st !! clientId); simpl; lia.
  - cbn [clients]. by rewrite size_alter.
Qed.

(** X18. The server never holds more clients than
    [config.security.maxWebSocketClients], whatever connects, sends,
    disconnects or fails: a connection that arrives when the map is full is
    closed without being registered. *)
Theorem clients_never_exceed_limit (maxWebSocketClients : nat) (evs : list Event) :
  (size (clients (run maxWebSocketClients evs initial)) ≤ maxWebSocketClients)%nat.
Proof.
  unfold run.
  assert (H : ∀ st, (size (clients st) ≤ maxWebSocketClients)%nat →
                    (size (clients (fold_left (step maxWebSocketClients) evs st))
                     ≤ maxWebSocketClients)%nat).
  { induction evs as [|ev evs IH]; intros st Hst; [done|].
    cbn [fold_left]. by apply IH, size_step. }
  apply H. cbn. rewrite map_size_empty. lia.
Qed.

End Clients.

Section Broadcast.

Import NotificationService NotificationBroadcast.

(** A loop that only deletes the entries it visits. *)
Lemma fold_delete_lookup {V} (keep : string → V → bool)
    (f : gmap string V → string * V → gmap string V) :
  (∀ m e, f m e = if keep e.1 e.2 then m else delete e.1 m) →
  ∀ (l : list (string * V)) (m : gmap string V) (i : string) (c : V),
    fold_left f l m !! i = Some c
    ↔ m !! i = Some c ∧ ∀ v, (i, v) ∈ l → keep i v = true.
Proof.
  intros Hf l. induction l as [|[k v] l IH]; intros m i c; cbn [fold_left].
  - split; [intros H; split; [done|]; intros ? Hin; by apply elem_of_nil in Hin|by intros [? _]].
  - rewrite IH, Hf. cbn [fst snd]. destruct (keep k v) eqn:E.
    + split; intros [Hm Hl]; (split; [done|]).
      * intros v' [[= -> ->]|Hin]%elem_of_cons; [done|by apply Hl].
      * intros v' Hin. apply Hl. by right.
    + split.
      * intros [Hm Hl]. apply lookup_delete_Some in Hm as [Hne Hm]. split; [done|].
        intros v' [[= -> ->]|Hin]%elem_of_cons; [done|by apply Hl].
      * intros [Hm Hl]. destruct (decide (k = i)) as [->|Hne].
        -- rewrite (Hl v) in E by (by left). discriminate E.
        -- split; [by rewrite lookup_delete_ne|]. intros v' Hin. apply Hl. by right.
Qed.

Lemma fold_delete_map {V} (keep : string → V → bool)
    (f : gmap string V → string * V → gmap string V) (m : gmap string V) :
  (∀ m e, f m e = if keep e.1 e.2 then m else delete e.1 m) →
  ∀ i c, fold_left f (map_to_list m) m !! i = Some c ↔ m !! i = Some c ∧ keep i c = true.
Proof.
  intros Hf i c. rewrite (fold_delete_lookup keep f Hf). split; intros [Hm Hk].
  - split; [done|]. apply Hk. by apply elem_of_map_to_list.
  - split; [done|]. intros v Hin. apply elem_of_map_to_list in Hin.
    rewrite Hm in Hin. by injection Hin as <-.
Qed.

Lemma broadcastTo_recipients (channel : string) (l : list (string * ConnectedClient))
    (acc : list string * gmap string ConnectedClient) :
  (fold_left (broadcastTo channel) l acc).1
  = acc.1 ++ (List.filter (λ e, reached channel e.2) l).*1.
Proof.
  revert acc. induction l as [|e l IH]; intros acc; cbn [fold_left List.filter].
  - by rewrite app_nil_r.
  - rewrite IH. unfold broadcastTo, reached.
    destruct (listens channel e.2); [|done].
    destruct (sendThrows (ws e.2)); [done|]. cbn. by rewrite <- app_assoc.
Qed.

Lemma broadcastTo_clients (channel : string) (l : list (string * ConnectedClient))
    (acc : list string * gmap string ConnectedClient) :
  (fold_left (broadcastTo channel) l acc).2
  = fold_left (λ m e, if negb (listens channel e.2 && sendThrows (ws e.2))
                      then m else delete e.1 m) l acc.2.
Proof.
  revert acc. induction l as [|e l IH]; intros acc; cbn [fold_left]; [done|].
  rewrite IH. unfold broadcastTo.
  by destruct (listens channel e.2), (sendThrows (ws e.2)).
Qed.

Lemma broadcast_recipient (channel clientId : string)
    (clients : gmap string ConnectedClient) :
  clientId ∈ (broadcast channel clients).1
  ↔ ∃ client, clients !! clientId = Some client ∧ reached channel client = true.
Proof.
  unfold broadcast. rewrite broadcastTo_recipients. cbn [fst app].
  rewrite list_elem_of_fmap. split.
  - intros ([i c] & -> & Hin). apply list_elem_of_In, List.filter_In in Hin as [Hin Hr].
    exists c. split; [|done]. by apply elem_of_map_to_list, list_elem_of_In.
  - intros (c & Hc & Hr). exists (clientId, c). split; [done|].
    apply list_elem_of_In, List.filter_In. split; [|done].
    by apply list_elem_of_In, elem_of_map_to_list.
Qed.

Lemma NoDup_filter_fst {V} (p : string * V → bool) (l : list (string * V)) :
  NoDup l.*1 → NoDup (List.filter p l).*1.
Proof.
  induction l as [|e l IH]; [done|]. cbn [fmap list_fmap List.filter].
  intros [Hnot Hnd]%NoDup_cons. destruct (p e); [|by apply IH].
  cbn. apply NoDup_cons. split; [|by apply IH].
  intros Hin. apply Hnot. apply list_elem_of_fmap in Hin as (e' & -> & Hin).
  apply list_elem_of_fmap. exists e'. split; [done|].
  by apply list_elem_of_In, List.filter_In in Hin as [?%list_elem_of_In _].
Qed.

Lemma broadcast_clients (channel clientId : string) (client : ConnectedClient)
    (clients : gmap string ConnectedClient) :
  (broadcast channel clients).2 !! clientId = Some client
  ↔ clients !! clientId = Some client
    ∧ negb (listens channel client && sendThrows (ws client)) = true.
Proof.
  unfold broadcast. rewrite broadcastTo_clients. cbn [snd].
  apply (fold_delete_map (λ _ c, negb (listens channel c && sendThrows (ws c)))).
  done.
Qed.

(** X19. A broadcast is sent, once each, to exactly the clients that are
    subscribed to the channel, whose socket is open and whose [send] does
    not throw; the clients whose [send] throws are dropped from the map,
    and every other client stays as it was. *)
Theorem broadcast_delivers (channel : string) (clients : gmap string ConnectedClient) :
  let r := broadcast channel clients in
  NoDup r.1
  ∧ (∀ clientId,
       clientId ∈ r.1
       ↔ ∃ client, clients !! clientId = Some client
                   ∧ channel ∈ subscriptions client
                   ∧ readyState (ws client) = OPEN
                   ∧ sendThrows (ws client) = false)
  ∧ (∀ clientId client,
       r.2 !! clientId = Some client
       ↔ clients !! clientId = Some client
         ∧ ¬ (channel ∈ subscriptions client ∧ readyState (ws client) = OPEN
              ∧ sendThrows (ws client) = true)).
Proof.
  cbn zeta. split; [|split].
  - unfold broadcast. rewrite broadcastTo_recipients. cbn [fst app].
    apply NoDup_filter_fst, NoDup_fst_map_to_list.
  - intros clientId. rewrite broadcast_recipient.
    split; intros (c & Hc & H); exists c; (split; [done|]).
    + unfold reached, listens, isOpen in H.
      apply andb_prop in H as [[Hs Ho]%andb_prop Ht].
      apply bool_decide_eq_true in Hs. split; [done|].
      split; [by destruct (readyState (ws c))|by destruct (sendThrows (ws c))].
    + destruct H as (Hs & Ho & Ht). unfold reached, listens, isOpen.
      by rewrite Ho, Ht, bool_decide_eq_true_2.
  - intros clientId c. rewrite broadcast_clients. unfold listens, isOpen.
    split; intros [Hc H]; (split; [done|]).
    + intros (Hs & Ho & Ht). by rewrite Ho, Ht, bool_decide_eq_true_2 in H.
    + apply negb_true_iff, not_true_is_false. intros [[Hs Ho]%andb_prop Ht]%andb_prop.
      apply H. apply bool_decide_eq_true in Hs. split; [done|].
      split; [by destruct (readyState (ws c))|done].
Qed.

(** X20. An alert of severity high or critical goes out on emergency-alerts
    and again on general: a client subscribed to both, with an open socket
    that takes the message, is sent the same alert twice. *)
Theorem sendAlert_reaches_twice (severity : TrendAnalyzer.Severity) (clientId : string)
    (client : ConnectedClient) (clients : gmap string ConnectedClient) :
  severity = TrendAnalyzer.SevHigh ∨ severity = TrendAnalyzer.SevCritical →
  clients !! clientId = Some client →
  "emergency-alerts" ∈ subscriptions client →
  "general" ∈ subscriptions client →
  readyState (ws client) = OPEN →
  sendThrows (ws client) = false →
  (clientId, "emergency-alerts") ∈ (sendAlert severity clients).1
  ∧ (clientId, "general") ∈ (sendAlert severity clients).1.
Proof.
  intros Hsev Hc He Hg Ho Ht.
  assert (Hr : ∀ channel, channel ∈ subscriptions client → reached channel client = true).
  { intros channel Hs. unfold reached, listens, isOpen.
    by rewrite Ho, Ht, bool_decide_eq_true_2. }
  assert (H1 : clientId ∈ (broadcast "emergency-alerts" clients).1).
  { apply broadcast_recipient. exists client. split; [done|by apply Hr]. }
  assert (H2 : clientId ∈ (broadcast "general" (broadcast "emergency-alerts" clients).2).1).
  { apply broadcast_recipient. exists client. split; [|by apply Hr].
    apply broadcast_clients. split; [done|]. by rewrite Ht, andb_false_r. }
  unfold sendAlert.
  destruct (broadcast "emergency-alerts" clients) as [first c1]. cbn [fst snd] in *.
  destruct (broadcast "general" c1) as [second c2]. cbn [fst] in *.
  assert (∀ ch l, clientId ∈ l → (clientId, ch) ∈ onChannel ch l).
  { intros ch l Hin. apply list_elem_of_fmap. by exists clientId. }
  destruct Hsev as [-> | ->]; cbn [fst]; split; apply elem_of_app; auto.
Qed.

Lemma sendAlert_reaches_twice_witness :
  (Dashboard.operator.(id), "emergency-alerts")
  ∈ (sendAlert TrendAnalyzer.SevCritical Dashboard.connected).1
  ∧ (Dashboard.operator.(id), "general")
    ∈ (sendAlert TrendAnalyzer.SevCritical Dashboard.connected).1.
Proof.
  apply (sendAlert_reaches_twice TrendAnalyzer.SevCritical _ Dashboard.operator).
  - by right.
  - reflexivity.
  - apply (bool_decide_unpack _). by vm_compute.
  - apply (bool_decide_unpack _). by vm_compute.
  - reflexivity.
  - reflexivity.
Defined.

(** X21. After a heartbeat the map holds exactly the clients whose socket is
    open, whose ping did not throw and whose last activity is no more than
    five minutes old; they are unchanged. *)
Theorem heartbeat_keeps_live_clients (pingThrows : string → bool) (now : Date)
    (clients : gmap string ConnectedClient) (clientId : string) (client : ConnectedClient) :
  heartbeat pingThrows now clients !! clientId = Some client
  ↔ clients !! clientId = Some client
    ∧ readyState (ws client) = OPEN
    ∧ pingThrows clientId = false
    ∧ (getTime now - getTime (lastActivity client) ≤ 5 * 60 * 1000)%Z.
Proof.
  unfold heartbeat.
  rewrite (fold_delete_map (alive pingThrows now) (heartbeatOne pingThrows now)).
  - unfold alive, isStale, isOpen, staleTimeout. split; intros [Hc H]; (split; [done|]).
    + apply andb_prop in H as [[Ho Hp]%andb_prop Hs].
      apply negb_true_iff in Hp. apply negb_true_iff, bool_decide_eq_false in Hs.
      split; [by destruct (readyState (ws client))|]. split; [done|lia].
    + destruct H as (Ho & Hp & Hs). rewrite Ho, Hp. cbn.
      apply negb_true_iff, bool_decide_eq_false. lia.
  - intros m e. unfold heartbeatOne, alive.
    destruct (isOpen (ws e.2)); [|done].
    destruct (pingThrows e.1), (isStale now e.2); cbn; try done.
    by rewrite delete_delete_eq.
Qed.

(** X29. The message history keeps the newest: after [addToHistory] the
    history ends with the message just added, is a suffix of the old history
    followed by that message, and holds at most 1000 messages, however
    long it was before. *)
Theorem addToHistory_keeps_newest {A} (message : A) (messageHistory : list A) :
  let h := addToHistory message messageHistory in
  last h = Some message
  ∧ h `suffix_of` messageHistory ++ [message]
  ∧ (length h ≤ 1000)%nat.
Proof.
  cbn zeta. unfold addToHistory, maxHistorySize.
  destruct (decide _) as [Hlong|Hshort]; rewrite length_app in *; cbn [length] in *.
  - split; [|split].
    + replace (length messageHistory + 1 - 1000) with (length messageHistory - 999) by lia.
      rewrite drop_app_le by lia. apply last_snoc.
    + apply suffix_drop.
    + rewrite length_drop, length_app. cbn [length]. lia.
  - split; [apply last_snoc|]. split; [done|]. lia.
Qed.

End Broadcast.

(** ** SchedulerService: counters and disabled tasks *)

Section Counters.

Import SchedulerService.

Lemma count_app (p : Trace → bool) (a b : list Trace) :
  count p (a ++ b) = count p a + count p b.
Proof. unfold count. by rewrite List.filter_app, length_app. Qed.

Lemma count_single (p : Trace → bool) (x : Trace) : count p [x] = if p x then 1 else 0.
Proof. unfold count. cbn. by destruct (p x). Qed.

Lemma Counted_say (t : Trace) (st : State) :
  (∀ name, started name t = false) → (∀ name, rejected name t = false) →
  Counted st → Counted (say t st).
Proof.
  intros Hs Hr H name task Hl. destruct (H name task Hl) as (Hn & Hrun & Herr).
  cbn [say trace]. rewrite !count_app, !count_single, Hs, Hr.
  split; [done|]. split; lia.
Qed.

Lemma Counted_log (l : Level) (msg : string) (st : State) :
  Counted st → Counted (say (Log l msg) st).
Proof. by apply Counted_say. Qed.

Lemma Counted_fire (taskName : string) (now : Date) (st : State) :
  Counted st → Counted (fire taskName now st).
Proof.
  intros H. unfold fire.
  destruct (scheduledTasks st !! taskName) as [task|] eqn:E; [|by apply Counted_log].
  destruct (enabled task); [|by apply Counted_log].
  destruct (H _ _ E) as (Hn & Hrun & Herr).
  intros name t. cbn [say setTask scheduledTasks trace SchedulerService.name]. rewrite Hn.
  rewrite !count_app, !count_single. cbn [started rejected].
  destruct (decide (name = taskName)) as [->|Hne].
  - rewrite lookup_insert_eq. intros [= <-].
    cbn [SchedulerService.name runCount errorCount].
    rewrite bool_decide_eq_true_2 by done. cbn. split; [done|]. split; lia.
  - rewrite lookup_insert_ne by done. intros Hl. destruct (H _ _ Hl) as (? & ? & ?).
    rewrite bool_decide_eq_false_2 by done. cbn. split; [done|]. split; lia.
Qed.

Lemma Counted_settle (taskName : string) (resolved alertFails : bool) (st : State) :
  Counted st → Counted (settle taskName resolved alertFails st).
Proof.
  intros H. unfold settle. destruct resolved.
  - do 2 apply Counted_log. intros name t Hl. destruct (H name t Hl) as (? & ? & ?).
    cbn [say trace]. rewrite !count_app, !count_single. cbn [started rejected].
    split; [done|]. split; lia.
  - set (st1 := say (TaskSettled taskName false) st).
    set (st2 := match scheduledTasks st1 !! taskName with
                | Some t => setTask _ st1
                | None => st1
                end).
    assert (H2 : Counted st2).
    { subst st2 st1. cbn [say scheduledTasks].
      destruct (scheduledTasks st !! taskName) as [task|] eqn:E.
      - destruct (H _ _ E) as (Hn & Hrun & Herr).
        intros name t. cbn [say setTask scheduledTasks trace SchedulerService.name].
        rewrite Hn, !count_app, !count_single. cbn [started rejected].
        destruct (decide (name = taskName)) as [->|Hne].
        + rewrite lookup_insert_eq. intros [= <-].
          cbn [SchedulerService.name runCount errorCount].
          rewrite bool_decide_eq_true_2 by done. cbn. split; [done|]. split; lia.
        + rewrite lookup_insert_ne by done. intros Hl. destruct (H _ _ Hl) as (? & ? & ?).
          rewrite bool_decide_eq_false_2 by done. cbn. split; [done|]. split; lia.
      - intros name t Hl. cbn [say scheduledTasks trace] in *.
        destruct (H _ _ Hl) as (Hn & ? & ?).
        rewrite !count_app, !count_single. cbn [started rejected].
        rewrite bool_decide_eq_false_2 by (intros ->; by rewrite E in Hl).
        cbn. split; [done|]. split; lia. }
    clearbody st2.
    destruct (notificationService _ && _); [destruct alertFails|];
      repeat (apply Counted_say; [done|done|]); done.
Qed.

Lemma Counted_setEnabled (b : bool) (taskName : string) (task : ScheduledTask) (st : State) :
  scheduledTasks st !! taskName = Some task →
  Counted st → Counted (setTask (setEnabled b task) st).
Proof.
  intros E H name t. destruct (H _ _ E) as (Hn & Hrun & Herr).
  cbn [setTask scheduledTasks trace setEnabled SchedulerService.name]. rewrite Hn.
  destruct (decide (name = taskName)) as [->|Hne].
  - rewrite lookup_insert_eq. by intros [= <-].
  - rewrite lookup_insert_ne by done. apply H.
Qed.

Lemma Counted_step (st : State) (ev : Event) : Counted st → Counted (step st ev).
Proof.
  intros H. destruct ev as [n now|n now|n resolved alertFails|n|n]; cbn [step].
  - by apply Counted_fire.
  - unfold triggerTask. destruct (scheduledTasks st !! n); cbn [snd].
    + by apply Counted_fire, Counted_log.
    + by apply Counted_log.
  - by apply Counted_settle.
  - unfold enableTask. destruct (scheduledTasks st !! n) eqn:E; cbn [snd].
    + apply Counted_log. by apply (Counted_setEnabled _ n).
    + by apply Counted_log.
  - unfold disableTask. destruct (scheduledTasks st !! n) eqn:E; cbn [snd].
    + apply Counted_log. by apply (Counted_setEnabled _ n).
    + by apply Counted_log.
Qed.

Lemma Counted_scheduleTask (taskName cronExpression : string) (now : Date) (st : State) :
  scheduledTasks st !! taskName = None →
  count (started taskName) (trace st) = 0 →
  count (rejected taskName) (trace st) = 0 →
  Counted st → Counted (scheduleTask taskName cronExpression now st).
Proof.
  intros E Hs Hr H. unfold scheduleTask. apply Counted_log.
  intros name t. cbn [setTask say scheduledTasks trace SchedulerService.name].
  rewrite !count_app, !count_single. cbn [started rejected].
  destruct (decide (name = taskName)) as [->|Hne].
  - rewrite lookup_insert_eq. intros [= <-]. cbn. split; [done|]. split; lia.
  - rewrite lookup_insert_ne by done. intros Hl. destruct (H _ _ Hl) as (? & ? & ?).
    split; [done|]. split; lia.
Qed.

(** X22. Whatever fires, is triggered, settles, is enabled or disabled, the
    counters [getTaskStatus] reports stay in step with what happened:
    [runCount] is the number of times the task function was called and
    [errorCount] the number of those calls that rejected. *)
Theorem counters_follow_the_trace (evs : list Event) (st : State) (name : string)
    (t : ScheduledTask) :
  Counted st →
  scheduledTasks (run evs st) !! name = Some t →
  runCount t = count (started name) (trace (run evs st))
  ∧ errorCount t = count (rejected name) (trace (run evs st)).
Proof.
  intros H Hl.
  assert (Hrun : Counted (run evs st)).
  { clear Hl. revert st H. unfold run.
    induction evs as [|ev evs IH]; intros st H; [done|].
    cbn [fold_left]. by apply IH, Counted_step. }
  by destruct (Hrun _ _ Hl) as (_ & ? & ?).
Qed.

Lemma counters_follow_the_trace_witness :
  ∃ t, scheduledTasks
         (run [Tick "weekly-rule-check" Example.august;
               Settled "weekly-rule-check" false false;
               Trigger "weekly-rule-check" Example.september]
            Scenario.registered) !! "weekly-rule-check" = Some t
       ∧ runCount t = 2 ∧ errorCount t = 1.
Proof.
  assert (Hc : Counted Scenario.registered).
  { apply Counted_scheduleTask; [done|done|done|]. intros ? ? Hl.
    unfold initial in Hl. cbn [scheduledTasks] in Hl. by rewrite lookup_empty in Hl. }
  eexists. split; [by vm_compute|].
  exact (counters_follow_the_trace
           [Tick "weekly-rule-check" Example.august;
            Settled "weekly-rule-check" false false;
            Trigger "weekly-rule-check" Example.september]
           Scenario.registered "weekly-rule-check" _ Hc ltac:(by vm_compute)).
Defined.

(** X23. While a task is disabled neither its cron tick nor a manual trigger
    calls its task function: the registered tasks and their counters stay
    as they are and no call is traced, yet [triggerTask] answers [true]. *)
Theorem disabled_task_is_not_run (taskName : string) (task : ScheduledTask) (now : Date)
    (st : State) :
  scheduledTasks st !! taskName = Some task →
  name task = taskName →
  enabled task = false →
  let ticked := fire taskName now st in
  let triggered := triggerTask taskName now st in
  scheduledTasks ticked = scheduledTasks st
  ∧ count (started taskName) (trace ticked) = count (started taskName) (trace st)
  ∧ triggered.1 = true
  ∧ scheduledTasks triggered.2 = scheduledTasks st
  ∧ count (started taskName) (trace triggered.2) = count (started taskName) (trace st).
Proof.
  intros E Hn Hd. cbn zeta. unfold triggerTask, fire. rewrite E, Hn.
  cbn [say scheduledTasks trace fst snd]. rewrite E, Hd.
  cbn [say scheduledTasks trace]. rewrite !count_app, !count_single. cbn [started].
  repeat split; lia.
Qed.

Lemma disabled_task_is_not_run_witness :
  let st := (disableTask "weekly-rule-check" Scenario.registered).2 in
  (triggerTask "weekly-rule-check" Example.september st).1 = true
  ∧ scheduledTasks (triggerTask "weekly-rule-check" Example.september st).2
    = scheduledTasks st.
Proof.
  cbn zeta.
  destruct (disabled_task_is_not_run "weekly-rule-check"
              {| name := "weekly-rule-check"; cronExpression := "0 3 * * 0";
                 enabled := false; lastRun := None;
                 nextRun := getNextRunTime "0 3 * * 0" Example.august;
                 runCount := 0; errorCount := 0 |}
              Example.september (disableTask "weekly-rule-check" Scenario.registered).2
              ltac:(by vm_compute) eq_refl eq_refl) as (_ & _ & H1 & H2 & _).
  split; [exact H1 | exact H2].
Defined.

End Counters.

Section CriticalTasks.

Import SchedulerService.

(** X30. The security advisory check is one of the two critical tasks whose
    failure the scheduler reports with an alert, but its task function
    swallows every error and always resolves: whatever GitHub answers, a
    run of the task ends with the registered tasks (and so every
    [errorCount]) as they were, no rejected call recorded and no failure
    alert sent. *)
Theorem security_check_failure_alert_is_never_sent (k : ScheduledTasks.Collaborators)
    (api : TrendAnalyzer.Credentials)
    (responses : string → TrendAnalyzer.Response TrendAnalyzer.RepositorySearch)
    (supportedTechnologies : list string) (alertFails : bool) (st : State) :
  let st' := settleWith "security-advisory-check"
               (ScheduledTasks.securityAdvisoryCheck k api responses supportedTechnologies)
               alertFails st in
  bool_decide ("security-advisory-check" ∈ criticalTasks) = true
  ∧ scheduledTasks st' = scheduledTasks st
  ∧ count isAlert (trace st') = count isAlert (trace st)
  ∧ count (rejected "security-advisory-check") (trace st')
    = count (rejected "security-advisory-check") (trace st).
Proof.
  cbn zeta. unfold settleWith, ScheduledTasks.securityAdvisoryCheck.
  rewrite checkEach_nothing. cbn [fst]. unfold settle.
  cbn [say scheduledTasks trace]. rewrite !count_app, !count_single.
  cbn [isAlert rejected]. repeat split; lia.
Qed.

End CriticalTasks.

(** ** QueueService: what the processors leave on disk *)

Section Processors.

Import QueueService.

Variable svc : Services.
Variable job : Job.
Variable now : Date.

Lemma processRuleGeneration_returns (w : World) :
  ∃ result, (processRuleGeneration svc job now w).1 = Returned result.
Proof.
  unfold processRuleGeneration. apply bind_returns; [by eexists|].
  intros _ w'. apply tryCatch_returns. intros e w''. by eexists.
Qed.

(** X24. When the analysis or the generator throws, the job completes with
    [success = false] and the error message, and the disk is as it was:
    nothing is archived and nothing deployed. *)
Theorem processRuleGeneration_failure_leaves_disk (e : Exn) (w : World) :
  analyzeTechnology svc (technology (data job)) = Thrown e
  ∨ (∃ trends, analyzeTechnology svc (technology (data job)) = Returned trends
               ∧ generateRules svc (generationConfig job now trends) = Thrown e) →
  let r := processRuleGeneration svc job now w in
  r.1 = Returned {| success := false;
                    message := "Rule generation failed for " +:+ technology (data job)
                               +:+ ": " +:+ errorMessage e;
                    ruleVersion := None; rulesGenerated := None;
                    error := Some (errorMessage e) |}
  ∧ disk r.2 = disk w.
Proof.
  intros H. cbn zeta.
  unfold processRuleGeneration, logQueueJob, call, bind, tryCatch, log, emit, ret.
  cbn [fst snd disk journal].
  destruct H as [Ha|(trends & Ha & Hg)].
  - by rewrite Ha.
  - rewrite Ha. cbn [fst snd disk journal]. fold (generationConfig job now trends). by rewrite Hg.
Qed.

(** X25. On a disk that refuses no read and no write and whose history
    file holds a history, when the analysis and the generator answer, the
    generated rules are deployed under the version year-month with their
    header, the record of the deployment holds their checksum, and the rule
    that was active is kept in the archive. This holds whether or not the
    cleanup that follows throws; but a throwing cleanup makes the job
    report [success = false] with the rules already deployed. *)
Theorem processRuleGeneration_deploys (trends : TrendAnalyzer.TrendData) (rules : string)
    (h : list RuleHistoryEntry) (w : World) :
  Working (disk w) →
  analyzeTechnology svc (technology (data job)) = Returned trends →
  generateRules svc (generationConfig job now trends) = Returned rules →
  storedHistory (disk w) (ruleTypeOf job) = Some h →
  let ruleType := ruleTypeOf job in
  let version := versionAt now in
  let r := processRuleGeneration svc job now w in
  let deployed := RuleVersionManager.addVersionHeader rules version ruleType now in
  activeContent (disk r.2) ruleType = Some deployed
  ∧ recordedChecksum (disk r.2) ruleType
    = Some (RuleVersionManager.calculateChecksum deployed)
  ∧ (∀ current, activeContent (disk w) ruleType = Some current →
       archive (disk r.2) !! RuleVersionManager.archiveFileName ruleType version now
       = Some {| content := current; mtime := now |})
  ∧ match cleanup svc with
    | Returned _ =>
        r.1 = Returned {| success := true;
                          message := "Successfully generated and deployed rules for "
                                     +:+ technology (data job);
                          ruleVersion := Some version; rulesGenerated := Some 1;
                          error := None |}
    | Thrown e =>
        r.1 = Returned {| success := false;
                          message := "Rule generation failed for "
                                     +:+ technology (data job) +:+ ": " +:+ errorMessage e;
                          ruleVersion := None; rulesGenerated := None;
                          error := Some (errorMessage e) |}
    end.
Proof.
  intros Hw Ha Hg Hh ruleType version r deployed. subst r deployed.
  unfold processRuleGeneration, logQueueJob, call.
  cbv [bind tryCatch log emit ret]. cbn [fst snd disk journal].
  rewrite Ha. cbn [fst snd disk journal]. fold (generationConfig job now trends). rewrite Hg.
  cbn [fst snd disk journal]. fold (ruleTypeOf job) (versionAt now). fold ruleType version.
  assert (Hdeployed : ∀ w1,
            Working (disk w1) →
            (∀ current, activeContent (disk w) ruleType = Some current →
               archive (disk w1) !! RuleVersionManager.archiveFileName ruleType version now
               = Some {| content := current; mtime := now |}) →
            let w2 := (RuleVersionManager.deployNewRule ruleType rules version now w1).2 in
            activeContent (disk w2) ruleType
            = Some (RuleVersionManager.addVersionHeader rules version ruleType now)
            ∧ recordedChecksum (disk w2) ruleType
              = Some (RuleVersionManager.calculateChecksum
                        (RuleVersionManager.addVersionHeader rules version ruleType now))
            ∧ ∀ current, activeContent (disk w) ruleType = Some current →
                archive (disk w2) !! RuleVersionManager.archiveFileName ruleType version now
                = Some {| content := current; mtime := now |}).
  { intros w1 Hw1 Harch. rewrite deployNewRule_run by done. cbn. split; [|split].
    - unfold activeContent. cbn. apply lookup_insert_eq.
    - unfold recordedChecksum. cbn. by rewrite lookup_insert_eq.
    - exact Harch. }
  destruct (activeContent (disk w) ruleType) as [current|] eqn:Hc.
  - rewrite (archiveCurrentRule_run ruleType version current h now) by done.
    cbn [fst snd disk journal].
    match goal with
    | |- context [RuleVersionManager.deployNewRule ruleType rules version now ?w1] =>
        assert (Hw1 : Working (disk w1)) by (by apply Working_replay);
        destruct (Hdeployed w1 Hw1) as (H1 & H2 & H3);
          [intros c [= <-]; cbn; apply lookup_insert_eq|];
        rewrite (deployNewRule_run _ _ _ _ _ Hw1) in *
    end.
    cbn [fst snd disk journal] in *.
    destruct (cleanup svc); cbn [fst snd disk journal]; by repeat split.
  - rewrite (archiveCurrentRule_skip ruleType version now) by done.
    cbn [fst snd disk journal].
    match goal with
    | |- context [RuleVersionManager.deployNewRule ruleType rules version now ?w1] =>
        assert (Hw1 : Working (disk w1)) by done;
        destruct (Hdeployed w1 Hw1) as (H1 & H2 & H3); [by intros c [=]|];
        rewrite (deployNewRule_run _ _ _ _ _ Hw1) in *
    end.
    cbn [fst snd disk journal] in *.
    destruct (cleanup svc); cbn [fst snd disk journal]; by repeat split.
Qed.

(** X26. A trend analysis job never touches the disk, and it reports
    success exactly when the analyzer answered: the analysis of all
    technologies for the empty technology, of the one technology
    otherwise. *)
Theorem processTrendAnalysis_leaves_disk (w : World) :
  let r := processTrendAnalysis svc job now w in
  let answered :=
    if String.eqb (technology (data job)) ""
    then match analyzeAllTechnologies svc with Returned _ => true | Thrown _ => false end
    else match analyzeTechnology svc (technology (data job)) with
         | Returned _ => true
         | Thrown _ => false
         end in
  disk r.2 = disk w
  ∧ ∃ result, r.1 = Returned result ∧ success result = answered.
Proof.
  cbn zeta.
  unfold processTrendAnalysis, logQueueJob, call, bind, tryCatch, log, emit, ret.
  cbn [fst snd disk journal].
  destruct (String.eqb (technology (data job)) "").
  - destruct (analyzeAllTechnologies svc); cbn [fst snd disk journal];
      (split; [done|by eexists]).
  - destruct (analyzeTechnology svc (technology (data job))); cbn [fst snd disk journal];
      (split; [done|by eexists]).
Qed.

(** X27. An emergency update is a rule generation behind two log lines: it
    settles with the result of [processRuleGeneration] and leaves the disk
    that [processRuleGeneration] leaves, whether or not the alert that
    follows can be sent. *)
Theorem processEmergencyUpdate_is_generation (w : World) :
  let started :=
    ((logQueueJob "emergency-updates" (jobId job) "started" >>
      log LWarn ("Processing emergency update for " +:+ technology (data job))) w).2 in
  disk started = disk w
  ∧ (processEmergencyUpdate svc job now w).1 = (processRuleGeneration svc job now started).1
  ∧ disk (processEmergencyUpdate svc job now w).2
    = disk (processRuleGeneration svc job now started).2.
Proof.
  cbn zeta. split; [done|].
  unfold processEmergencyUpdate, logQueueJob, call.
  cbv [bind tryCatch log emit ret]. cbn [fst snd disk journal].
  set (w' := {| disk := disk w; journal := _ |}).
  destruct (processRuleGeneration_returns w') as [result Hr].
  destruct (processRuleGeneration svc job now w') as [o w2]. cbn [fst] in Hr. subst o.
  cbn [fst snd disk journal].
  destruct (sendAlert svc); cbn [fst snd disk journal]; by split.
Qed.

End Processors.

Section ProcessorWitnesses.

Import QueueService.

Lemma processRuleGeneration_deploys_witness :
  Working (disk Example.deployedOnce)
  ∧ activeContent
      (disk (processRuleGeneration Scenario.healthy Scenario.scheduled Example.september
               Example.deployedOnce).2) "python-best-practices"
    = Some (RuleVersionManager.addVersionHeader "Use uv." "2025-09" "python-best-practices"
              Example.september).
Proof.
  assert (H0 : Working (disk Example.deployedOnce)) by (intros a; by vm_compute).
  split; [exact H0|].
  exact (proj1 (processRuleGeneration_deploys Scenario.healthy Scenario.scheduled
                  Example.september (Scenario.quietTrends 0.1) "Use uv." []
                  Example.deployedOnce H0 eq_refl eq_refl ltac:(by vm_compute))).
Defined.

(** A rule write that the disk refuses makes the job report
    [success = false]: the active rule is the one found, and it has been
    archived. *)
Example processRuleGeneration_refused_write :
  let r := processRuleGeneration Scenario.healthy Scenario.scheduled Example.september
             Example.rulesReadOnly in
  (∃ result, r.1 = Returned result ∧ success result = false)
  ∧ activeContent (disk r.2) "python-best-practices"
    = activeContent (disk Example.rulesReadOnly) "python-best-practices"
  ∧ is_Some (archive (disk r.2)
             !! "python-best-practices-2025-09-2025-09-01T00-00-00-000Z.md").
Proof.
  split; [eexists; split; by vm_compute|]. split; [by vm_compute|].
  eexists. by vm_compute.
Qed.

Lemma processRuleGeneration_failure_leaves_disk_witness :
  disk (processRuleGeneration Scenario.failing Scenario.scheduled Example.august
          Example.deployedOnce).2
  = disk Example.deployedOnce.
Proof.
  exact (proj2 (processRuleGeneration_failure_leaves_disk Scenario.failing
                  Scenario.scheduled Example.august
                  (JsError "GenerationError: research timed out") Example.deployedOnce
                  (or_intror (ex_intro _ (Scenario.quietTrends 0.9)
                                (conj eq_refl eq_refl))))).
Defined.


End ProcessorWitnesses.

(** ** C5: the emergency queue and the other queues *)

Section EmergencyLane.

Import QueueService Lanes.










(** In the single queue of the implementation plan the emergency job has
    the number 1 of a high priority job: scheduled behind thirteen of
    them, ten of which are queued, it starts nothing and is the last to
    be taken. *)
Example plan_emergency_waits_behind_high_priority :
  let queue :=
    foldl (λ queue n, (scheduleRuleUpdate ("t" +:+ pretty n) high queue).2)
      (process 3) (seq 1 13) in
  let r := scheduleEmergencyUpdate "node" queue in
  length (waiting queue) = 10
  ∧ r.1 = []
  ∧ RuleUpdateQueue.job_updateType <$> (waitingJob <$> waiting r.2)
    = replicate 10 major ++ [emergency].
Proof. by vm_compute. Qed.

End EmergencyLane.
